(** * Perspective: canvas primitives, wave / sweep / scatter renderers and
      error-reason classification, embedded from the Go sources.

    Go's [int] is the 64-bit two's-complement integer of the usual targets,
    [float64] is IEEE 754 binary64 (Rocq's primitive floats), a slice is a
    list.  A call that can panic or loop returns an [outcome]. *)

From Stdlib Require Import ZArith Lia Bool List Floats Ascii String.
From Stdlib Require Uint63.
From stdpp Require Import base list.

Open Scope Z_scope.

(** ** Outcomes of Go calls *)

Inductive outcome (A : Type) : Type :=
  | Ok (a : A)        (* the call returned *)
  | Panic             (* a run-time panic, or a fatal error of the runtime *)
  | OutOfFuel.        (* the loop was still running when the fuel ran out *)
Arguments Ok {A} a.
Arguments Panic {A}.
Arguments OutOfFuel {A}.

#[global] Instance outcome_ret : MRet outcome := fun A a => Ok a.
#[global] Instance outcome_bind : MBind outcome := fun A B k m =>
  match m with
  | Ok a => k a
  | Panic => Panic
  | OutOfFuel => OutOfFuel
  end.

(** [while fuel cond body s]: Go's [for cond { body }] on the loop state [s]. *)
Fixpoint while {S : Type} (fuel : nat) (cond : S -> bool)
    (body : S -> outcome S) (s : S) : outcome S :=
  match fuel with
  | O => OutOfFuel
  | Datatypes.S fuel' =>
      if cond s then s' ← body s; while fuel' cond body s' else Ok s
  end.

(** ** Go integers *)

(** The [w]-bit two's-complement value of [z]. *)
Definition wrap (w : Z) (z : Z) : Z := (z + 2 ^ (w - 1)) mod 2 ^ w - 2 ^ (w - 1).

Definition int64 : Z -> Z := wrap 64.
Definition int32 : Z -> Z := wrap 32.
Definition int16 : Z -> Z := wrap 16.
Definition int8 : Z -> Z := wrap 8.
Definition uint8 (z : Z) : Z := z mod 2 ^ 8.
Definition uint32 (z : Z) : Z := z mod 2 ^ 32.

Definition min_int64 : Z := - 2 ^ 63.
Definition max_int64 : Z := 2 ^ 63 - 1.

(** Go's [a / b] on [int] for [b <> 0]: the quotient truncated toward zero. *)
Definition int_div (a b : Z) : Z := int64 (Z.quot a b).

(** ** Go float64 *)

(** [float64(n)] for an integer [n]: the nearest binary64 value. *)
Definition float64_of_int (z : Z) : float :=
  SF2Prim (binary_normalize prec emax z 0 false).

(** The integer part of a finite float (truncation toward zero). *)
Definition trunc (f : float) : option Z :=
  match Prim2SF f with
  | S754_zero _ => Some 0
  | S754_finite s m e => Some (cond_Zopp s (Z.shiftl (Z.pos m) e))
  | S754_infinity _ | S754_nan => None
  end.

(** [int(f)].  Go leaves the result implementation-dependent when the integer
    part does not fit; this is what the amd64 compiler produces (CVTTSD2SQ:
    the "integer indefinite" value [-2^63]). *)
Definition int_of_float64 (f : float) : Z :=
  match trunc f with
  | Some z => if (min_int64 <=? z) && (z <=? max_int64) then z else min_int64
  | None => min_int64
  end.

(** [uint8(f)]: on amd64 a conversion to int32 (CVTTSD2SL, [-2^31] when the
    integer part does not fit) followed by a truncation to the low byte. *)
Definition uint8_of_float64 (f : float) : Z :=
  match trunc f with
  | Some z => if (- 2 ^ 31 <=? z) && (z <? 2 ^ 31) then uint8 z else uint8 (- 2 ^ 31)
  | None => uint8 (- 2 ^ 31)
  end.

(** [uint32(f)]: on amd64 a conversion to int64 and a truncation to 32 bits. *)
Definition uint32_of_float64 (f : float) : Z := uint32 (int_of_float64 f).

Definition is_neg_inf (f : float) : bool := is_infinity f && get_sign f.
Definition is_pos_inf (f : float) : bool := is_infinity f && negb (get_sign f).

(** [math.Min] and [math.Max], with their special cases. *)
Definition math_Min (x y : float) : float :=
  if is_neg_inf x || is_neg_inf y then neg_infinity
  else if is_nan x || is_nan y then nan
  else if (x =? 0)%float && (x =? y)%float then (if get_sign x then x else y)
  else if (x <? y)%float then x else y.

Definition math_Max (x y : float) : float :=
  if is_pos_inf x || is_pos_inf y then infinity
  else if is_nan x || is_nan y then nan
  else if (x =? 0)%float && (x =? y)%float then (if get_sign x then y else x)
  else if (y <? x)%float then x else y.

(** [math.Frexp]: [f = frac * 2^exp] with [1/2 <= |frac| < 1]; zeros,
    infinities and NaN come back with exponent 0. *)
Definition math_Frexp (f : float) : float * Z :=
  if is_nan f || is_infinity f || is_zero f then (f, 0) else Z.frexp f.

(** [math.Log], the portable implementation of the Go library (the FreeBSD
    [e_log.c] algorithm). *)
Definition math_Log (x : float) : float :=
  if is_nan x || is_pos_inf x then x
  else if (x <? 0)%float then nan
  else if (x =? 0)%float then neg_infinity
  else
    let '(f1, ki) := math_Frexp x in
    let '(f1, ki) :=
      if (f1 <? 0x1.6a09e667f3bcdp-1)%float then ((f1 * 2)%float, ki - 1) else (f1, ki) in
    let f := (f1 - 1)%float in
    let k := float64_of_int ki in
    let s := (f / (2 + f))%float in
    let s2 := (s * s)%float in
    let s4 := (s2 * s2)%float in
    let t1 := (s2 * (0x1.5555555555593p-1 + s4 * (0x1.2492494229359p-2
                 + s4 * (0x1.7466496cb03dep-3 + s4 * 0x1.2f112df3e5244p-3))))%float in
    let t2 := (s4 * (0x1.999999997fa04p-2 + s4 * (0x1.c71c51d8e78afp-3
                 + s4 * 0x1.39a09d078c69fp-3)))%float in
    let R := (t1 + t2)%float in
    let hfsq := (0.5 * f * f)%float in
    (k * 0x1.62e42feep-1 - ((hfsq - (s * (hfsq + R) + k * 0x1.a39ef35793c76p-33)) - f))%float.

(** [math.Log2]: exact on the powers of two. *)
Definition math_Log2 (x : float) : float :=
  let '(frac, exp) := math_Frexp x in
  if (frac =? 0.5)%float then float64_of_int (exp - 1)
  else (math_Log frac * 0x1.71547652b82fep+0 + float64_of_int exp)%float.

(** ** Go's image package: points, rectangles and RGBA images *)

Record Point := mkPoint { ptX : Z; ptY : Z }.
Record Rectangle := mkRectangle { rMin : Point; rMax : Point }.

(** [image.Rect]: the rectangle with the given corners, put in canonical
    order. *)
Definition image_Rect (x0 y0 x1 y1 : Z) : Rectangle :=
  let '(x0, x1) := if x1 <? x0 then (x1, x0) else (x0, x1) in
  let '(y0, y1) := if y1 <? y0 then (y1, y0) else (y0, y1) in
  mkRectangle (mkPoint x0 y0) (mkPoint x1 y1).

Definition Dx (r : Rectangle) : Z := ptX (rMax r) - ptX (rMin r).
Definition Dy (r : Rectangle) : Z := ptY (rMax r) - ptY (rMin r).

(** [p.In(r)] *)
Definition Point_In (p : Point) (r : Rectangle) : bool :=
  (ptX (rMin r) <=? ptX p) && (ptX p <? ptX (rMax r)) &&
  (ptY (rMin r) <=? ptY p) && (ptY p <? ptY (rMax r)).

(** [color.RGBA]: four 8-bit channels. *)
Record color_RGBA := mkColor { cR : Z; cG : Z; cB : Z; cA : Z }.

Inductive channel := chR | chG | chB | chA.

(** The offset of a channel's byte inside a pixel. *)
Definition channel_index (ch : channel) : Z :=
  match ch with chR => 0 | chG => 1 | chB => 2 | chA => 3 end.

Definition get_channel (c : color_RGBA) (ch : channel) : Z :=
  match ch with chR => cR c | chG => cG c | chB => cB c | chA => cA c end.

Definition set_channel (c : color_RGBA) (ch : channel) (v : Z) : color_RGBA :=
  match ch with
  | chR => mkColor v (cG c) (cB c) (cA c)
  | chG => mkColor (cR c) v (cB c) (cA c)
  | chB => mkColor (cR c) (cG c) v (cA c)
  | chA => mkColor (cR c) (cG c) (cB c) v
  end.

(** [image.RGBA]: the pixel bytes (R, G, B, A in turn, row after row), the
    distance in bytes between two rows, and the bounds. *)
Record RGBA := mkRGBA { Pix : list Z; Stride : Z; Rect : Rectangle }.

Definition PixOffset (i : RGBA) (x y : Z) : Z :=
  (y - ptY (rMin (Rect i))) * Stride i + (x - ptX (rMin (Rect i))) * 4.

(** The byte [Pix[o]], 0 where the list has none. *)
Definition byte_at (i : RGBA) (o : Z) : Z :=
  if o <? 0 then 0 else default 0 (Pix i !! Z.to_nat o).

Definition set_byte (i : RGBA) (o : Z) (v : Z) : RGBA :=
  if o <? 0 then i else mkRGBA (<[Z.to_nat o := v]> (Pix i)) (Stride i) (Rect i).

(** The four bytes at offset [o] read as a colour. *)
Definition color_at (i : RGBA) (o : Z) : color_RGBA :=
  mkColor (byte_at i o) (byte_at i (o + 1)) (byte_at i (o + 2)) (byte_at i (o + 3)).

(** [i.RGBAAt(x, y)]: the colour of a pixel, the zero colour outside the
    bounds. *)
Definition RGBAAt (i : RGBA) (x y : Z) : color_RGBA :=
  if Point_In (mkPoint x y) (Rect i) then color_at i (PixOffset i x y)
  else mkColor 0 0 0 0.

(** [i.Set(x, y, c)] for an RGBA colour [c]: nothing outside the bounds; the
    slice expression [Pix[o : o+4 : o+4]] panics when it leaves the buffer. *)
Definition RGBA_Set (i : RGBA) (x y : Z) (c : color_RGBA) : outcome RGBA :=
  if Point_In (mkPoint x y) (Rect i) then
    let o := PixOffset i x y in
    if (0 <=? o) && (o + 4 <=? Z.of_nat (length (Pix i))) then
      Ok (set_byte (set_byte (set_byte (set_byte i o (cR c)) (o + 1) (cG c))
                      (o + 2) (cB c)) (o + 3) (cA c))
    else Panic
  else Ok i.

(** Go's [for k := 0; k < n; k++ { body }] where the body leaves [k] alone. *)
Definition for_range {S : Type} (n : Z) (body : Z -> S -> outcome S) (s : S)
    : outcome S :=
  foldl (fun acc k => s' ← acc; body k s') (Ok s) (seqZ 0 n).

(** ** Canvas primitives (package perspective) *)

Definition bg : Z := 33.
Definition grid : Z := 45.
Definition opaque : Z := 255.
Definition saturated : Z := 255.
Definition maxC16 : Z := 65535.

Record EventDataPoint := mkEvent { Start : Z; Run : Z; Status : Z }.

(** The fields hold what their Go types can: int32, int32, int16. *)
Definition event_wf (e : EventDataPoint) : Prop :=
  int32 (Start e) = Start e /\ int32 (Run e) = Run e /\ int16 (Status e) = Status e.

Definition drawXGridLine (vis : RGBA) (x : Z) : outcome RGBA :=
  let c := mkColor grid grid grid opaque in
  let h := ptY (rMax (Rect vis)) in
  for_range h (fun y vis => RGBA_Set vis x y c) vis.

Definition drawYGridLine (vis : RGBA) (y : Z) : outcome RGBA :=
  let c := mkColor grid grid grid opaque in
  let w := ptX (rMax (Rect vis)) in
  for_range w (fun x vis => RGBA_Set vis x y c) vis.

(** [getErrorStackColor(layer, layers)]: the constants are float64 values,
    [v*2/3] is [(v*2)/3]. *)
Definition getErrorStackColor (layer layers : Z) : color_RGBA :=
  let v := (float64_of_int layer * float64_of_int 255 / float64_of_int layers)%float in
  mkColor (uint8_of_float64 (float64_of_int 127 + v / float64_of_int 2))
          (uint8_of_float64 (float64_of_int 11 + v * float64_of_int 2 / float64_of_int 3))
          (uint8_of_float64 (float64_of_int 11 + v * float64_of_int 2 / float64_of_int 3))
          opaque.

(** A [*color.RGBA]: either the four bytes of the image buffer that start at
    an offset (the pointer aliases the canvas), or a cell of its own, which
    nothing else refers to. *)
Inductive pixel_ptr :=
  | InPix (o : Z)
  | Fresh (c : color_RGBA).

Definition getRGBA (i : RGBA) (x y : Z) : outcome pixel_ptr :=
  if Point_In (mkPoint x y) (Rect i) then
    let o := PixOffset i x y in
    if (0 <=? o) && (o <? Z.of_nat (length (Pix i))) then Ok (InPix o) else Panic
  else Ok (Fresh (mkColor 0 0 0 0)).

(** Reading and writing a field through the pointer. *)
Definition load (i : RGBA) (p : pixel_ptr) (ch : channel) : Z :=
  match p with
  | InPix o => byte_at i (o + channel_index ch)
  | Fresh c => get_channel c ch
  end.

Definition store (i : RGBA) (p : pixel_ptr) (ch : channel) (v : Z)
    : RGBA * pixel_ptr :=
  match p with
  | InPix o => (set_byte i (o + channel_index ch) v, p)
  | Fresh c => (i, Fresh (set_channel c ch v))
  end.

(** Any number of field writes through one pointer. *)
Definition store_all (i : RGBA) (p : pixel_ptr) (ws : list (channel * Z))
    : RGBA * pixel_ptr :=
  foldl (fun st w => store (fst st) (snd st) (fst w) (snd w)) (i, p) ws.

(** [mul3NonNeg(x, y, z)] of package image: the product, or -1 when an
    argument is negative or the product does not fit an [int] (the high word
    of [bits.Mul64(x, y)] or of [bits.Mul64(lo, z)] is not 0, or the low
    word read as an [int] is negative). *)
Definition mul3NonNeg (x y z : Z) : Z :=
  if (x <? 0) || (y <? 0) || (z <? 0) then -1
  else if 2 ^ 64 <=? x * y then -1
  else if 2 ^ 64 <=? x * y * z then -1
  else if 2 ^ 63 <=? x * y * z then -1
  else x * y * z.

(** The canvas on [image.Rect(0, 0, width, height)] after [draw.Draw] with a
    uniform source: every pixel is the background.  [Stride] is
    [4 * r.Dx()], which does not wrap on a canvas that was allocated and has
    a row. *)
Definition fresh_canvas (width height : Z) : RGBA :=
  let r := image_Rect 0 0 width height in
  mkRGBA (concat (replicate (Z.to_nat (Dx r * Dy r)) [bg; bg; bg; opaque]))
         (4 * Dx r) r.

(** [maxAlloc] of the runtime on amd64: [1 << 48] bytes. *)
Definition maxAlloc : Z := 2 ^ 48.

(** [initializeVisualization]: [image.NewRGBA] panics in [pixelBufferLength]
    when [mul3NonNeg(4, r.Dx(), r.Dy())] is negative ("Rectangle has huge or
    negative dimensions"), [r.Dx()] and [r.Dy()] being computed on [int];
    [make] panics when the length is above [maxAlloc] ("makeslice: len out
    of range"), and the program stops with the fatal error "out of memory"
    when the machine cannot give that many bytes: [Panic] for the three.
    [avail] is the number of bytes the machine can give. *)
Definition initializeVisualization (avail width height : Z) : outcome RGBA :=
  let r := image_Rect 0 0 width height in
  let n := mul3NonNeg 4 (int64 (Dx r)) (int64 (Dy r)) in
  if n <? 0 then Panic
  else if maxAlloc <? n then Panic
  else if Z.max 0 avail <? n then Panic
  else Ok (fresh_canvas width height).

(** What [image.NewRGBA] guarantees and every write keeps: canonical bounds,
    four bytes per pixel, a buffer that holds exactly the bounds. *)
Definition RGBA_wf (i : RGBA) : Prop :=
  ptX (rMin (Rect i)) <= ptX (rMax (Rect i)) /\
  ptY (rMin (Rect i)) <= ptY (rMax (Rect i)) /\
  Stride i = 4 * Dx (Rect i) /\
  Z.of_nat (length (Pix i)) = Stride i * Dy (Rect i).

(** Every byte of the buffer is a uint8. *)
Definition bytes_ok (i : RGBA) : Prop := Forall (fun b => 0 <= b < 256) (Pix i).

(** [l[k]]: an index outside the slice panics. *)
Definition index {A : Type} (l : list A) (k : Z) : outcome A :=
  if k <? 0 then Panic
  else match l !! Z.to_nat k with
       | Some a => Ok a
       | None => Panic
       end.

Definition len {A : Type} (l : list A) : Z := Z.of_nat (length l).

(** The linear time mapping shared by the renderers:
    [int(float64(w) * (t - tA) / (tΩ - tA))]. *)
Definition time_column (w : Z) (tA tΩ t : float) : Z :=
  int_of_float64 (float64_of_int w * (t - tA) / (tΩ - tA))%float.

(** The additive blend of one channel:
    [c.ch = uint8(math.Min(saturated, float64(c.ch) + Δ))]. *)
Definition blend (Δ : float) (ch : channel) (st : RGBA * pixel_ptr)
    : RGBA * pixel_ptr :=
  let '(i, c) := st in
  store i c ch
    (uint8_of_float64
       (math_Min (float64_of_int saturated) (float64_of_int (load i c ch) + Δ)%float)).

(** The three blends of a success and the single blend of a failure. *)
Definition blend_success (Δ : float) (i : RGBA) (c : pixel_ptr) : RGBA :=
  fst (blend Δ chB (blend (Δ / 4)%float chG (blend (Δ / 4)%float chR (i, c)))).

Definition blend_failure (Δ : float) (i : RGBA) (c : pixel_ptr) : RGBA :=
  fst (blend Δ chR (i, c)).

(** ** The wave renderer *)

Record wave := mkWave {
  wave_w : Z;                     (* Width of the visualization *)
  wave_h : Z;                     (* Height of the visualization *)
  wave_tA : float;                (* Lower limit of time range *)
  wave_tΩ : float;                (* Upper limit of time range *)
  wave_vis : RGBA;                (* Visualization canvas *)
  wave_x : Z;                     (* Current x-position for recording events *)
  wave_p : list EventDataPoint;   (* Passing events in current x-position *)
  wave_f : list EventDataPoint    (* Failing events in current x-position *)
}.

Definition NewWave (avail width height minTime maxTime : Z) : outcome wave :=
  vis ← initializeVisualization avail width height;
  Ok (mkWave width height (float64_of_int minTime) (float64_of_int maxTime)
             vis 0 [] []).

(** The end time [p.Start+p.Run], an int32 sum. *)
Definition end_time (p : EventDataPoint) : Z := int32 (Start p + Run p).

(** The first two loops of [Record]: the events still running at [e.Start]. *)
Definition still_active (e : EventDataPoint) (l : list EventDataPoint)
    : list EventDataPoint :=
  List.filter (fun p => Start e <? end_time p) l.

(** [float64(e.Start-p.Start) / float64(p.Run+1)] *)
Definition progress (e p : EventDataPoint) : float :=
  (float64_of_int (int32 (Start e - Start p)) / float64_of_int (int32 (Run p + 1)))%float.

(** [uint32(math.Min(maxC16, float64(bg<<8+maxC16*prog)))] and the same with
    [prog/4]. *)
Definition shade16 (prog : float) : Z :=
  uint32_of_float64
    (math_Min (float64_of_int maxC16)
       (float64_of_int (Z.shiftl bg 8) + float64_of_int maxC16 * prog)%float).

Definition shade16_quarter (prog : float) : Z :=
  uint32_of_float64
    (math_Min (float64_of_int maxC16)
       (float64_of_int (Z.shiftl bg 8) + float64_of_int maxC16 * prog / 4)%float).

Definition wave_set_vis (v : wave) (vis : RGBA) : wave :=
  mkWave (wave_w v) (wave_h v) (wave_tA v) (wave_tΩ v) vis (wave_x v) (wave_p v) (wave_f v).

Section Wave.
(** [plot(vis, x, y, r16, g16, b16)] is defined in a file of the package
    that is not at hand: a parameter here, a call that returns. *)
Variable plot : RGBA -> Z -> Z -> Z -> Z -> Z -> RGBA.

(** One round of the loop over the passing events: the event [i] places
    from the end of [v.p], one pixel above the ones plotted so far. *)
Definition wave_plot_passing (v : wave) (e : EventDataPoint) (i : Z)
    (st : RGBA * Z) : outcome (RGBA * Z) :=
  let '(vis, yP) := st in
  p ← index (wave_p v) (len (wave_p v) - i - 1);
  let prog := progress e p in
  let rg16 := shade16_quarter prog in
  let b16 := shade16 prog in
  let yP' := int64 (yP + 1) in
  Ok (foldl (fun vis yP => plot vis (wave_x v) (int64 (int_div (wave_h v) 2 - yP)) rg16 rg16 b16)
            vis (seqZ yP (yP' - yP)),
      Z.max yP yP').

Definition wave_plot_failing (v : wave) (e : EventDataPoint) (i : Z)
    (st : RGBA * Z) : outcome (RGBA * Z) :=
  let '(vis, yF) := st in
  f ← index (wave_f v) (len (wave_f v) - i - 1);
  let prog := progress e f in
  let r16 := shade16 prog in
  let gb16 := shade16_quarter prog in
  let yF' := int64 (yF + 1) in
  Ok (foldl (fun vis yF => plot vis (wave_x v) (int64 (int_div (wave_h v) 2 + yF)) r16 gb16 gb16)
            vis (seqZ yF (yF' - yF)),
      Z.max yF yF').

(** The body of [for xʹ > v.x]: advance one column and plot it. *)
Definition wave_column (e : EventDataPoint) (v : wave) : outcome wave :=
  let v := mkWave (wave_w v) (wave_h v) (wave_tA v) (wave_tΩ v) (wave_vis v)
                  (int64 (wave_x v + 1)) (wave_p v) (wave_f v) in
  sP ← for_range (len (wave_p v)) (wave_plot_passing v e) (wave_vis v, 0);
  sF ← for_range (len (wave_f v)) (wave_plot_failing v e) (fst sP, 0);
  Ok (wave_set_vis v (fst sF)).

Definition wave_Record (fuel : nat) (v : wave) (e : EventDataPoint) : outcome wave :=
  let p' := still_active e (wave_p v) in
  let f' := still_active e (wave_f v) in
  let '(p', f') := if Status e =? 0 then (p' ++ [e], f') else (p', f' ++ [e]) in
  let v := mkWave (wave_w v) (wave_h v) (wave_tA v) (wave_tΩ v) (wave_vis v)
                  (wave_x v) p' f' in
  let t := float64_of_int (Start e) in
  let x' := time_column (wave_w v) (wave_tA v) (wave_tΩ v) t in
  while fuel (fun v => wave_x v <? x') (wave_column e) v.

Definition wave_Render (v : wave) : RGBA := wave_vis v.
End Wave.

(** ** The sweep and scatter renderers *)

Record sweep := mkSweep {
  sweep_w : Z;          (* Width of the visualization *)
  sweep_h : Z;          (* Height of the visualization *)
  sweep_vis : RGBA;     (* Visualization canvas *)
  sweep_tA : float;     (* Lower limit of time range to be visualized *)
  sweep_tΩ : float;     (* Upper limit of time range to be visualized *)
  sweep_yLog2 : float;  (* Number of pixels over which elapsed times double *)
  sweep_cΔ : float      (* Increment for color channel value increases *)
}.

Record scatter := mkScatter {
  scatter_w : Z;          (* Width of the visualization *)
  scatter_h : Z;          (* Height of the visualization *)
  scatter_vis : RGBA;     (* Visualization canvas *)
  scatter_tA : float;     (* Lower limit of time range to be visualized *)
  scatter_tΩ : float;     (* Upper limit of time range to be visualized *)
  scatter_yLog2 : float;  (* Number of pixels over which elapsed times double *)
  scatter_colors : float  (* Number of color steps before saturation *)
}.

Definition sweep_set_vis (v : sweep) (vis : RGBA) : sweep :=
  mkSweep (sweep_w v) (sweep_h v) vis (sweep_tA v) (sweep_tΩ v) (sweep_yLog2 v) (sweep_cΔ v).

Definition scatter_set_vis (v : scatter) (vis : RGBA) : scatter :=
  mkScatter (scatter_w v) (scatter_h v) vis (scatter_tA v) (scatter_tΩ v)
            (scatter_yLog2 v) (scatter_colors v).

(** The state of the vertical-line loop of [drawGrid]: the canvas and [x]. *)
Definition draw_x_lines (fuel : nat) (w xGrid : Z) (vis : RGBA) : outcome RGBA :=
  if 0 <? xGrid then
    s ← while fuel (fun s : RGBA * Z => snd s <? w)
          (fun s => vis ← drawXGridLine (fst s) (snd s);
                    Ok (vis, int64 (snd s + int_div w xGrid)))
          (vis, 0);
    Ok (fst s)
  else Ok vis.

(** The step of the horizontal-line loops: [int(float64(v.h) / v.yLog2)]. *)
Definition y_step (h : Z) (yLog2 : float) : Z :=
  int_of_float64 (float64_of_int h / yLog2)%float.

Definition scatter_drawGrid (fuel : nat) (v : scatter) (xGrid : Z) : outcome scatter :=
  vis ← draw_x_lines fuel (scatter_w v) xGrid (scatter_vis v);
  s ← while fuel (fun s : RGBA * Z => 0 <? snd s)
        (fun s => vis ← drawYGridLine (fst s) (snd s);
                  Ok (vis, int64 (snd s - y_step (scatter_h v) (scatter_yLog2 v))))
        (vis, scatter_h v);
  vis ← drawYGridLine (fst s) 0;
  Ok (scatter_set_vis v vis).

Definition sweep_drawGrid (fuel : nat) (v : sweep) (xGrid : Z) : outcome sweep :=
  vis ← draw_x_lines fuel (sweep_w v) xGrid (sweep_vis v);
  s ← while fuel (fun s : RGBA * Z => snd s <? sweep_h v)
        (fun s => vis ← drawYGridLine (fst s) (snd s);
                  vis ← drawYGridLine vis (int64 (sweep_h v - snd s));
                  Ok (vis, int64 (snd s + y_step (sweep_h v) (sweep_yLog2 v))))
        (vis, int_div (sweep_h v) 2);
  vis ← drawYGridLine (fst s) 0;
  Ok (sweep_set_vis v vis).

Definition NewScatter (avail : Z) (fuel : nat) (width height minTime maxTime : Z)
    (yLog2 : float) (colorSteps xGrid : Z) : outcome scatter :=
  vis ← initializeVisualization avail width height;
  scatter_drawGrid fuel
    (mkScatter width height vis
       (float64_of_int minTime) (float64_of_int maxTime) yLog2
       (float64_of_int colorSteps))
    xGrid.

Definition NewSweep (avail : Z) (fuel : nat) (width height minTime maxTime : Z)
    (yLog2 : float) (colorSteps xGrid : Z) : outcome sweep :=
  vis ← initializeVisualization avail width height;
  sweep_drawGrid fuel
    (mkSweep width height vis
       (float64_of_int minTime) (float64_of_int maxTime) yLog2
       (float64_of_int saturated / float64_of_int colorSteps)%float)
    xGrid.

Section Log2.
(** [math.Log2] of the Go library. *)
Variable Log2 : float -> float.

(** The pixel a scatter event is plotted at. *)
Definition scatter_point (v : scatter) (e : EventDataPoint) : Z * Z :=
  let x := time_column (scatter_w v) (scatter_tA v) (scatter_tΩ v)
             (float64_of_int (Start e)) in
  let y := int64 (scatter_h v
             - int_of_float64 (scatter_yLog2 v * Log2 (float64_of_int (Run e)))%float) in
  (x, y).

Definition scatter_Record (v : scatter) (e : EventDataPoint) : outcome scatter :=
  let '(x, y) := scatter_point v e in
  c ← getRGBA (scatter_vis v) x y;
  let Δ := (float64_of_int saturated / scatter_colors v)%float in
  if Status e =? 0 then
    Ok (scatter_set_vis v (blend_success Δ (scatter_vis v) c))
  else
    Ok (scatter_set_vis v (blend_failure Δ (scatter_vis v) c)).

Definition scatter_Render (v : scatter) : RGBA := scatter_vis v.

(** The state of the loops of [sweep.Record]: the canvas, the walk's row
    [y], and (a ghost) the column and the canvas row handed to [getRGBA] at
    every pixel painted so far, in the order of the calls. *)
Record sweep_state := mkSweepState {
  st_vis : RGBA;
  st_y : Z;
  st_painted : list (Z * Z)
}.

(** The canvas row of the walk's row [y]: successes are plotted at [y],
    failures at [v.h-y]. *)
Definition sweep_row (v : sweep) (e : EventDataPoint) (y : Z) : Z :=
  if Status e =? 0 then y else int64 (sweep_h v - y).

(** [yMin] at the time [t] of an event that started at [tMin]. *)
Definition sweep_yMin (v : sweep) (tMin t : float) : Z :=
  int64 (int_div (sweep_h v) 2
         - int_of_float64 (sweep_yLog2 v * Log2 (math_Max 1 (t - tMin)))%float).

(** The body of [for yʹ := y; yʹ > yMin; yʹ--] on the pair of the state
    and [yʹ]. *)
Definition sweep_paint (v : sweep) (e : EventDataPoint) (x : Z)
    (s : sweep_state * Z) : outcome (sweep_state * Z) :=
  let '(st, y') := s in
  let y := y' in
  if Status e =? 0 then
    c ← getRGBA (st_vis st) x y;
    Ok (mkSweepState (blend_success (sweep_cΔ v) (st_vis st) c) y
          (st_painted st ++ [(x, y)]), int64 (y' - 1))
  else
    c ← getRGBA (st_vis st) x (int64 (sweep_h v - y));
    Ok (mkSweepState (blend_failure (sweep_cΔ v) (st_vis st) c) y
          (st_painted st ++ [(x, int64 (sweep_h v - y))]), int64 (y' - 1)).

(** The body of [for t := tMin; t <= tMax; t++] on the pair of the state
    and [t]. *)
Definition sweep_step (fuel : nat) (v : sweep) (e : EventDataPoint) (tMin : float)
    (s : sweep_state * float) : outcome (sweep_state * float) :=
  let '(st, t) := s in
  let x := time_column (sweep_w v) (sweep_tA v) (sweep_tΩ v) t in
  let yMin := sweep_yMin v tMin t in
  r ← while fuel (fun s : sweep_state * Z => yMin <? snd s) (sweep_paint v e x)
        (st, st_y st);
  Ok (fst r, (t + 1)%float).

Definition sweep_Record_traced (fuel : nat) (v : sweep) (e : EventDataPoint)
    : outcome sweep_state :=
  let tMin := float64_of_int (Start e) in
  let tMax := float64_of_int (int32 (Start e + Run e)) in
  let y := int_div (sweep_h v) 2 in
  r ← while fuel (fun s : sweep_state * float => (snd s <=? tMax)%float)
        (sweep_step fuel v e tMin) (mkSweepState (sweep_vis v) y [], tMin);
  Ok (fst r).

Definition sweep_Record (fuel : nat) (v : sweep) (e : EventDataPoint) : outcome sweep :=
  st ← sweep_Record_traced fuel v e;
  Ok (sweep_set_vis v (st_vis st)).

(** The coordinates painted by one [Record], in the order of the calls. *)
Definition sweep_painted (fuel : nat) (v : sweep) (e : EventDataPoint)
    : outcome (list (Z * Z)) :=
  st ← sweep_Record_traced fuel v e;
  Ok (st_painted st).

Definition sweep_Render (v : sweep) : RGBA := sweep_vis v.
End Log2.

(** A walk that never turns back: every row is the one before it or the
next one below. *)
Fixpoint descends (y : Z) (ys : list Z) : Prop :=
  match ys with
  | [] => True
  | y' :: ys' => (y' = y \/ y' = y - 1) /\ descends y' ys'
  end.

(** A walk that starts on the row [start] and never turns back. *)
Definition walk_from (start : Z) (ys : list Z) : Prop :=
  match ys with
  | [] => True
  | y0 :: ys' => y0 = start /\ descends y0 ys'
  end.

(** A sweep renderer as [NewSweep] makes them for a height that is not
    negative: [v.h] is the height of its canvas. *)
Definition sweep_wf (v : sweep) : Prop :=
  RGBA_wf (sweep_vis v)
  /\ ptY (rMin (Rect (sweep_vis v))) = 0
  /\ ptY (rMax (Rect (sweep_vis v))) = sweep_h v
  /\ 0 <= sweep_h v <= max_int64.

(** A binary64 value that is at least the integer [c]: an infinity or a
    finite value of positive sign whose mantissa [m] and exponent [e] give
    [c <= m * 2^e] (both sides scaled by [2^1074], the exponents of binary64
    being at least [-1074]), or a zero when [c <= 0]. *)
Definition SFge (c : Z) (f : spec_float) : Prop :=
  match f with
  | S754_zero _ => c <= 0
  | S754_infinity s => s = false
  | S754_finite s m e =>
      s = false /\ -1074 <= e /\ c * 2 ^ 1074 <= Z.pos m * 2 ^ (e + 1074)
  | S754_nan => False
  end.

(** A colour increment that is not negative (and not NaN). *)
Definition nonneg (Δ : float) : Prop := SFge 0 (Prim2SF Δ).

(** No byte of the canvas [i'] is below the byte of [i] at the same offset,
    and every byte of [i'] is a uint8. *)
Definition brighter (i i' : RGBA) : Prop :=
  bytes_ok i' /\ forall o, byte_at i o <= byte_at i' o <= 255.

(** ** The command line (package main) *)

Record flags := mkFlags {
  flag_tA : Z;          (* Lower limit of time range to be visualized. *)
  flag_tΩ : Z;          (* Upper limit of time range to be visualized. *)
  flag_xGrid : Z;       (* Number of horizontal grid divisions. *)
  flag_yLog2 : float;   (* Number of pixels over which elapsed times double. *)
  flag_w : Z;           (* Visualization width, in pixels. *)
  flag_h : Z;           (* Visualization height, in pixels. *)
  flag_colorSteps : Z   (* The number of color steps before saturation. *)
}.

(** The renderer built by [generateScatterVisualization],
    [generateSweepVisualization] and [generateWaveVisualization]. *)
Definition generateScatterVisualization (avail : Z) (fuel : nat) (fl : flags)
    : outcome scatter :=
  NewScatter avail fuel (flag_w fl) (flag_h fl) (flag_tΩ fl) (flag_tA fl)
    (flag_yLog2 fl) (flag_colorSteps fl) (flag_xGrid fl).

Definition generateSweepVisualization (avail : Z) (fuel : nat) (fl : flags)
    : outcome sweep :=
  NewSweep avail fuel (flag_w fl) (flag_h fl) (flag_tA fl) (flag_tΩ fl)
    (flag_yLog2 fl) (flag_colorSteps fl) (flag_xGrid fl).

Definition generateWaveVisualization (avail : Z) (fl : flags) : outcome wave :=
  NewWave avail (flag_w fl) (flag_h fl) (flag_tA fl) (flag_tΩ fl).

(** A [plot] to run the wave renderer with: it stores the high bytes of the
    16-bit channels at the pixel, and nothing outside the canvas. *)
Definition plot_high_bytes (vis : RGBA) (x y r16 g16 b16 : Z) : RGBA :=
  match RGBA_Set vis x y
          (mkColor (Z.shiftr r16 8) (Z.shiftr g16 8) (Z.shiftr b16 8) opaque) with
  | Ok vis' => vis'
  | Panic | OutOfFuel => vis
  end.

(** ** The renderer contract *)

(** [Visualizer]: [Record] takes an event, [Render] gives the image. *)
Class Visualizer (V : Type) := {
  Record : nat -> V -> EventDataPoint -> outcome V;
  Render : V -> RGBA
}.

#[global] Instance wave_Visualizer (plot : RGBA -> Z -> Z -> Z -> Z -> Z -> RGBA)
    : Visualizer wave :=
  {| Record := wave_Record plot; Render := wave_Render |}.

#[global] Instance sweep_Visualizer (Log2 : float -> float) : Visualizer sweep :=
  {| Record := sweep_Record Log2; Render := sweep_Render |}.

#[global] Instance scatter_Visualizer (Log2 : float -> float) : Visualizer scatter :=
  {| Record := fun _ => scatter_Record Log2; Render := scatter_Render |}.

(** One run of the pipeline on a renderer: the events are recorded in turn,
    each call with whatever fuel lets it return, and the canvas is rendered. *)
Inductive renders {V : Type} `{Visualizer V} : V -> list EventDataPoint -> RGBA -> Prop :=
  | renders_nil (v : V) : renders v [] (Render v)
  | renders_cons (fuel : nat) (v v' : V) (e : EventDataPoint)
      (es : list EventDataPoint) (img : RGBA) :
      Record fuel v e = Ok v' -> renders v' es img -> renders v (e :: es) img.

(** The renderer after a sequence of [Record] calls that all return. *)
Inductive records {V : Type} `{Visualizer V} : V -> list EventDataPoint -> V -> Prop :=
  | records_nil (v : V) : records v [] v
  | records_cons (fuel : nat) (v v' v'' : V) (e : EventDataPoint)
      (es : list EventDataPoint) :
      Record fuel v e = Ok v' -> records v' es v'' -> records v (e :: es) v''.

(** The same pipeline as a function: every [Record] is given [fuel]. *)
Fixpoint run {V : Type} `{Visualizer V} (fuel : nat) (v : V)
    (es : list EventDataPoint) : outcome RGBA :=
  match es with
  | [] => Ok (Render v)
  | e :: es' => v' ← Record fuel v e; run fuel v' es'
  end.

(** ** Error-reason classification (package feeds) *)

(** A compiled [*regexp.Regexp], through its [MatchString]. *)
Definition Regexp : Type := String.string -> bool.

(** The white space of [\s]: tab, line feed, form feed, carriage return and
    space. *)
Definition is_space (c : Ascii.ascii) : bool :=
  match Ascii.nat_of_ascii c with
  | 9%nat | 10%nat | 12%nat | 13%nat | 32%nat => true
  | _ => false
  end.

(** The implicit first filter, the pattern [^\s*$]. *)
Definition blank_filter : Regexp :=
  fun s => forallb is_space (String.list_ascii_of_string s).

(** The loop of [getErrorCode] from the index [i] on, [fs] being
    [errorFilters[i:]]. *)
Fixpoint getErrorCode_from (i : Z) (errorReason : String.string) (fs : list Regexp) : Z :=
  match fs with
  | [] => int8 (i + 1)
  | f :: fs' =>
      if f errorReason then int8 (i + 1)
      else getErrorCode_from (i + 1) errorReason fs'
  end.

Definition getErrorCode (errorReason : String.string) (errorFilters : list Regexp) : Z :=
  getErrorCode_from 0 errorReason errorFilters.

(** The index of the first filter that matches, if any. *)
Fixpoint first_match (errorReason : String.string) (fs : list Regexp) : option nat :=
  match fs with
  | [] => None
  | f :: fs' => if f errorReason then Some 0%nat
                else option_map Datatypes.S (first_match errorReason fs')
  end.

(** The status that [ConvertCSVToBinary] writes for a row whose exit-status
    field parsed (as an 8-bit integer) to [signedValue]: the code of the
    error reason for a failure, the exit status itself for a success (0) or
    an event in progress (negative). *)
Definition csv_status (signedValue : Z) (errorReason : String.string)
    (errorFilters : list Regexp) : Z :=
  if 0 <? signedValue then getErrorCode errorReason errorFilters
  else int8 signedValue.

(** ** Vocabulary of the proofs *)

(** Two outcomes that are one result when both are results. *)
Definition agree {A : Type} (o1 o2 : outcome A) : Prop :=
  forall a b, o1 = Ok a -> o2 = Ok b -> a = b.

(** What a write through a pointer got from [getRGBA i x y] can change. *)
Definition touches_only (x y : Z) (i i' : RGBA) : Prop :=
  RGBA_wf i' /\ Rect i' = Rect i /\ Stride i' = Stride i
  /\ (forall x' y', (x', y') <> (x, y) -> RGBAAt i' x' y' = RGBAAt i x' y')
  /\ (Point_In (mkPoint x y) (Rect i) = false -> i' = i).

(** A canvas with the bounds of another, well formed. *)
Definition same_frame (i i' : RGBA) : Prop := RGBA_wf i' /\ Rect i' = Rect i.

(** The scaled value [m * 2^(e + 1074)] that [SFge] compares. *)
Definition scaled (m e : Z) : Z := m * 2 ^ (e + 1074).

(** A value with the sign of a count: a positive zero, a finite value of
    positive sign, or the positive infinity. *)
Definition SFplus (f : spec_float) : Prop :=
  match f with
  | S754_zero s | S754_infinity s => s = false
  | S754_finite s m e => s = false /\ -1074 <= e
  | S754_nan => False
  end.

(** What the loops keep: the painted canvas rows are those of a walk from
    the centre line that ends on the row [y]. *)
Definition walk_inv (v : sweep) (e : EventDataPoint) (st : sweep_state) : Prop :=
  exists ys, walk_from (int_div (sweep_h v) 2) ys
    /\ map snd (st_painted st) = map (sweep_row v e) ys
    /\ st_y st = List.last ys (int_div (sweep_h v) 2)
    /\ st_y st <= max_int64.

(** In the loop over [yʹ]: [yʹ] is still the row [y] before the first pixel
    of this time step, and the row below [y] after it. *)
Definition paint_inv (v : sweep) (e : EventDataPoint) (s : sweep_state * Z) : Prop :=
  exists ys, walk_from (int_div (sweep_h v) 2) ys
    /\ map snd (st_painted (fst s)) = map (sweep_row v e) ys
    /\ st_y (fst s) = List.last ys (int_div (sweep_h v) 2)
    /\ st_y (fst s) <= max_int64
    /\ (snd s = st_y (fst s) \/ (snd s = st_y (fst s) - 1 /\ ys <> [])).

(** The rows an event of the status of [e] never paints: below the centre
    row for a success, above the mirrored centre row for a failure. *)
Definition never_painted (v : sweep) (e : EventDataPoint) (r : Z) : Prop :=
  if Status e =? 0 then int_div (sweep_h v) 2 < r
  else r < sweep_h v - int_div (sweep_h v) 2.

Definition rows_kept (v : sweep) (e : EventDataPoint) (vis : RGBA) : Prop :=
  RGBA_wf vis /\ Rect vis = Rect (sweep_vis v)
  /\ forall x r, never_painted v e r -> RGBAAt vis x r = RGBAAt (sweep_vis v) x r.

(** The bodies of the horizontal-line loops of [drawGrid]. *)
Definition scatter_y_body (h : Z) (yLog2 : float) (s : RGBA * Z) : outcome (RGBA * Z) :=
  vis ← drawYGridLine (fst s) (snd s);
  Ok (vis, int64 (snd s - y_step h yLog2)).

Definition sweep_y_body (h : Z) (yLog2 : float) (s : RGBA * Z) : outcome (RGBA * Z) :=
  vis ← drawYGridLine (fst s) (snd s);
  vis ← drawYGridLine vis (int64 (h - snd s));
  Ok (vis, int64 (snd s + y_step h yLog2)).


(** The colour of the grid lines, and of the background. *)
Definition grid_colour : color_RGBA := mkColor grid grid grid opaque.
Definition background : color_RGBA := mkColor bg bg bg opaque.

(** The canvas [i'] has the bounds of [i], and the channel [ch] of every
    pixel of [i]. *)
Definition keeps_channel (ch : channel) (i i' : RGBA) : Prop :=
  same_frame i i'
  /\ forall x y, get_channel (RGBAAt i' x y) ch = get_channel (RGBAAt i x y) ch.

(** A canvas of the bounds [r] where every pixel is the background or a
    grid line. *)
Definition two_tone (r : Rectangle) (i : RGBA) : Prop :=
  RGBA_wf i /\ Rect i = r
  /\ forall x y, Point_In (mkPoint x y) r = true ->
       RGBAAt i x y = background \/ RGBAAt i x y = grid_colour.

(** The channels that recording the event [e] does not blend: the alpha
    channel, and for a failure the green and blue ones as well. *)
Definition unblended (e : EventDataPoint) (ch : channel) : Prop :=
  ch = chA \/ (Status e <> 0 /\ ch <> chR).

(** The shade of [getErrorStackColor] in integer arithmetic, and the check
    that the code computes it for every layer of a stack of [layers]. *)
Definition stack_shade (layer layers : Z) : color_RGBA :=
  mkColor (127 + (255 * layer) / (2 * layers))
          (11 + (2 * 255 * layer) / (3 * layers))
          (11 + (2 * 255 * layer) / (3 * layers))
          opaque.

Definition color_eqb (c d : color_RGBA) : bool :=
  (cR c =? cR d) && (cG c =? cG d) && (cB c =? cB d) && (cA c =? cA d).

Definition stack_shades_agree (n : Z) : bool :=
  forallb (fun layers =>
             forallb (fun layer =>
                        color_eqb (getErrorStackColor layer layers)
                                  (stack_shade layer layers))
                     (seqZ 0 (layers + 1)))
          (seqZ 1 n).

(** The canvas of [width] by [height] pixels can be allocated: neither side
    is [-2^63], [4 * width] fits 64 bits, the byte count fits an [int], is
    at most [maxAlloc], and the machine can give that many bytes. *)
Definition allocatable (avail width height : Z) : Prop :=
  Z.abs width < 2 ^ 62 /\ Z.abs height < 2 ^ 63
  /\ 4 * Z.abs width * Z.abs height < 2 ^ 63
  /\ 4 * Z.abs width * Z.abs height <= maxAlloc
  /\ 4 * Z.abs width * Z.abs height <= Z.max 0 avail.
(** * Properties *)

(** ** The image buffer *)

Lemma byte_at_set_byte_same (i : RGBA) (o v : Z) :
  0 <= o < len (Pix i) -> byte_at (set_byte i o v) o = v.
Proof.
  intros Ho. unfold byte_at, set_byte, len in *.
  destruct (Z.ltb_spec o 0); [lia|]. simpl.
  rewrite list_lookup_insert_eq by lia. reflexivity.
Qed.

Lemma byte_at_set_byte_other (i : RGBA) (o o' v : Z) :
  o <> o' -> byte_at (set_byte i o v) o' = byte_at i o'.
Proof.
  intros Hne. unfold byte_at, set_byte.
  destruct (Z.ltb_spec o 0); [reflexivity|].
  destruct (Z.ltb_spec o' 0); [reflexivity|]. simpl.
  rewrite list_lookup_insert_ne by lia. reflexivity.
Qed.

Lemma set_byte_Stride (i : RGBA) (o v : Z) : Stride (set_byte i o v) = Stride i.
Proof. unfold set_byte. destruct (o <? 0); reflexivity. Qed.

Lemma set_byte_Rect (i : RGBA) (o v : Z) : Rect (set_byte i o v) = Rect i.
Proof. unfold set_byte. destruct (o <? 0); reflexivity. Qed.

Lemma set_byte_len (i : RGBA) (o v : Z) : len (Pix (set_byte i o v)) = len (Pix i).
Proof.
  unfold set_byte, len. destruct (o <? 0); [reflexivity|]. simpl.
  rewrite length_insert. reflexivity.
Qed.

Lemma set_byte_wf (i : RGBA) (o v : Z) : RGBA_wf i -> RGBA_wf (set_byte i o v).
Proof.
  unfold RGBA_wf. rewrite set_byte_Stride, set_byte_Rect.
  pose proof (set_byte_len i o v) as Hl. unfold len in Hl. rewrite Hl. tauto.
Qed.

Lemma set_byte_bytes_ok (i : RGBA) (o v : Z) :
  bytes_ok i -> 0 <= v < 256 -> bytes_ok (set_byte i o v).
Proof.
  unfold bytes_ok, set_byte. intros Hb Hv. destruct (o <? 0); [exact Hb|]. simpl.
  apply Forall_insert; assumption.
Qed.

Lemma PixOffset_set_byte (i : RGBA) (o v x y : Z) :
  PixOffset (set_byte i o v) x y = PixOffset i x y.
Proof. unfold PixOffset. rewrite set_byte_Stride, set_byte_Rect. reflexivity. Qed.

(** Inside the bounds of a well-formed image the four bytes of a pixel lie in
    the buffer. *)
Lemma PixOffset_in_buffer (i : RGBA) (x y : Z) :
  RGBA_wf i -> Point_In (mkPoint x y) (Rect i) = true ->
  0 <= PixOffset i x y /\ PixOffset i x y + 4 <= len (Pix i).
Proof.
  unfold RGBA_wf, Point_In, PixOffset, len, Dx, Dy. simpl.
  intros (Hx & Hy & Hs & Hl) Hin.
  repeat (apply andb_prop in Hin; destruct Hin as [Hin ?]).
  rewrite Hl, Hs. nia.
Qed.

(** Two pixels of a well-formed image share no byte. *)
Lemma PixOffset_disjoint (i : RGBA) (x y x' y' : Z) :
  RGBA_wf i ->
  Point_In (mkPoint x y) (Rect i) = true ->
  Point_In (mkPoint x' y') (Rect i) = true ->
  (x, y) <> (x', y') ->
  PixOffset i x y + 4 <= PixOffset i x' y' \/ PixOffset i x' y' + 4 <= PixOffset i x y.
Proof.
  unfold RGBA_wf, Point_In, PixOffset, Dx, Dy. simpl.
  intros (Hx & Hy & Hs & Hl) Hin Hin' Hne.
  repeat (apply andb_prop in Hin; destruct Hin as [Hin ?]).
  repeat (apply andb_prop in Hin'; destruct Hin' as [Hin' ?]).
  rewrite Hs.
  destruct (Z.lt_trichotomy y y') as [Hlt | [Heq | Hgt]].
  - left. nia.
  - subst y'. assert (x <> x') by congruence. nia.
  - right. nia.
Qed.

Lemma channel_index_range (ch : channel) : 0 <= channel_index ch < 4.
Proof. destruct ch; simpl; lia. Qed.

Lemma color_at_set_byte_far (i : RGBA) (o v o' : Z) :
  o < o' \/ o' + 4 <= o -> color_at (set_byte i o v) o' = color_at i o'.
Proof.
  intros H. unfold color_at.
  rewrite !byte_at_set_byte_other by lia. reflexivity.
Qed.

(** A byte written outside the four bytes of a pixel leaves its colour. *)
Lemma RGBAAt_set_byte_far (i : RGBA) (o v x y : Z) :
  o < PixOffset i x y \/ PixOffset i x y + 4 <= o ->
  RGBAAt (set_byte i o v) x y = RGBAAt i x y.
Proof.
  intros H. unfold RGBAAt. rewrite set_byte_Rect, PixOffset_set_byte.
  destruct (Point_In _ _); [|reflexivity].
  apply color_at_set_byte_far. exact H.
Qed.

(** A byte written inside a pixel leaves every other pixel's colour. *)
Lemma RGBAAt_set_byte_other (i : RGBA) (k v x y x' y' : Z) :
  RGBA_wf i -> Point_In (mkPoint x y) (Rect i) = true -> 0 <= k < 4 ->
  (x', y') <> (x, y) ->
  RGBAAt (set_byte i (PixOffset i x y + k) v) x' y' = RGBAAt i x' y'.
Proof.
  intros Hwf Hin Hk Hne.
  destruct (Point_In (mkPoint x' y') (Rect i)) eqn:Hin'.
  - apply RGBAAt_set_byte_far.
    destruct (PixOffset_disjoint i x y x' y' Hwf Hin Hin') as [H | H];
      [congruence | lia | lia].
  - unfold RGBAAt. rewrite set_byte_Rect, Hin'. reflexivity.
Qed.

Lemma RGBAAt_set_byte_same (i : RGBA) (ch : channel) (v x y : Z) :
  RGBA_wf i -> Point_In (mkPoint x y) (Rect i) = true ->
  RGBAAt (set_byte i (PixOffset i x y + channel_index ch) v) x y
  = set_channel (RGBAAt i x y) ch v.
Proof.
  intros Hwf Hin. pose proof (PixOffset_in_buffer i x y Hwf Hin) as Hb.
  unfold RGBAAt. rewrite set_byte_Rect, PixOffset_set_byte, Hin.
  unfold color_at.
  destruct ch; simpl; rewrite ?Z.add_0_r;
    rewrite byte_at_set_byte_same by lia;
    rewrite !byte_at_set_byte_other by lia; reflexivity.
Qed.

Lemma load_InPix (i : RGBA) (ch : channel) (x y : Z) :
  Point_In (mkPoint x y) (Rect i) = true ->
  load i (InPix (PixOffset i x y)) ch = get_channel (RGBAAt i x y) ch.
Proof.
  intros Hin. unfold RGBAAt. rewrite Hin. unfold load, color_at.
  destruct ch; simpl; rewrite ?Z.add_0_r; reflexivity.
Qed.

Lemma getRGBA_inside (i : RGBA) (x y : Z) :
  RGBA_wf i -> Point_In (mkPoint x y) (Rect i) = true ->
  getRGBA i x y = Ok (InPix (PixOffset i x y)).
Proof.
  intros Hwf Hin. pose proof (PixOffset_in_buffer i x y Hwf Hin) as Hb.
  unfold getRGBA. rewrite Hin. unfold len in Hb.
  destruct (Z.leb_spec 0 (PixOffset i x y)); [|lia].
  destruct (Z.ltb_spec (PixOffset i x y) (Z.of_nat (length (Pix i)))); [|lia].
  reflexivity.
Qed.

Lemma getRGBA_outside (i : RGBA) (x y : Z) :
  Point_In (mkPoint x y) (Rect i) = false ->
  getRGBA i x y = Ok (Fresh (mkColor 0 0 0 0)).
Proof. intros Hout. unfold getRGBA. rewrite Hout. reflexivity. Qed.

(** Writes through a pointer to a cell of its own never reach the canvas. *)
Lemma store_all_Fresh (i : RGBA) (ws : list (channel * Z)) (c : color_RGBA) :
  exists c', store_all i (Fresh c) ws = (i, Fresh c').
Proof.
  unfold store_all. revert c.
  induction ws as [|[ch v] ws IH]; intros c; simpl.
  - exists c. reflexivity.
  - apply IH.
Qed.

(** C1.  On a canvas as [image.NewRGBA] makes them, [getRGBA] at coordinates
    inside the bounds returns a pointer to the four bytes of that pixel:
    the bytes lie in the buffer, a field read through the pointer is the
    pixel's channel, a field written through it becomes the pixel's channel
    and changes no other pixel.  At coordinates outside the bounds, however
    far and on any canvas, it returns a pointer to a cell of its own, and no
    sequence of writes through that pointer changes the canvas. *)
Theorem getRGBA_pixel_or_sink (i : RGBA) (x y : Z) :
  (RGBA_wf i -> Point_In (mkPoint x y) (Rect i) = true ->
     getRGBA i x y = Ok (InPix (PixOffset i x y))
     /\ 0 <= PixOffset i x y /\ PixOffset i x y + 4 <= len (Pix i)
     /\ (forall ch, load i (InPix (PixOffset i x y)) ch = get_channel (RGBAAt i x y) ch)
     /\ (forall ch v,
           RGBAAt (fst (store i (InPix (PixOffset i x y)) ch v)) x y
           = set_channel (RGBAAt i x y) ch v)
     /\ (forall ch v x' y', (x', y') <> (x, y) ->
           RGBAAt (fst (store i (InPix (PixOffset i x y)) ch v)) x' y' = RGBAAt i x' y'))
  /\ (Point_In (mkPoint x y) (Rect i) = false ->
     exists c, getRGBA i x y = Ok (Fresh c)
       /\ forall ws, fst (store_all i (Fresh c) ws) = i).
Proof.
  split.
  - intros Hwf Hin. split; [apply getRGBA_inside; assumption|].
    pose proof (PixOffset_in_buffer i x y Hwf Hin) as [H0 H4].
    repeat split; try assumption.
    + intros ch. apply load_InPix. exact Hin.
    + intros ch v. simpl. apply RGBAAt_set_byte_same; assumption.
    + intros ch v x' y' Hne. simpl.
      apply RGBAAt_set_byte_other; try assumption. apply channel_index_range.
  - intros Hout. eexists. split; [apply getRGBA_outside; exact Hout|].
    intros ws. destruct (store_all_Fresh i ws (mkColor 0 0 0 0)) as [c' Hc'].
    rewrite Hc'. reflexivity.
Qed.

Lemma length_concat_replicate {A : Type} (n : nat) (l : list A) :
  length (concat (replicate n l)) = (n * length l)%nat.
Proof.
  induction n as [|n IH]; simpl; [reflexivity|].
  rewrite length_app, IH. reflexivity.
Qed.

Lemma fresh_canvas_wf (width height : Z) :
  RGBA_wf (fresh_canvas width height).
Proof.
  unfold RGBA_wf, fresh_canvas, image_Rect, Dx, Dy.
  destruct (Z.ltb_spec width 0); destruct (Z.ltb_spec height 0); simpl;
    (repeat split; try lia);
    rewrite length_concat_replicate; simpl; nia.
Qed.

Lemma fresh_canvas_bytes_ok (width height : Z) :
  bytes_ok (fresh_canvas width height).
Proof.
  unfold bytes_ok, fresh_canvas. simpl.
  apply Forall_concat, Forall_replicate.
  repeat constructor; unfold bg, opaque; lia.
Qed.

(** When [initializeVisualization] returns, it returns the canvas. *)
Lemma initializeVisualization_Ok (avail width height : Z) (vis : RGBA) :
  initializeVisualization avail width height = Ok vis -> vis = fresh_canvas width height.
Proof.
  unfold initializeVisualization.
  destruct (mul3NonNeg _ _ _ <? 0); [discriminate|].
  destruct (maxAlloc <? _); [discriminate|].
  destruct (Z.max 0 avail <? _); [discriminate|].
  intros H. injection H as <-. reflexivity.
Qed.

Lemma initializeVisualization_no_fuel (avail width height : Z) :
  initializeVisualization avail width height <> OutOfFuel.
Proof.
  unfold initializeVisualization.
  destruct (mul3NonNeg _ _ _ <? 0); [discriminate|].
  destruct (maxAlloc <? _); [discriminate|].
  destruct (Z.max 0 avail <? _); discriminate.
Qed.

Lemma NewScatter_Ok (avail : Z) (fuel : nat) (width height minTime maxTime : Z)
    (yLog2 : float) (colorSteps xGrid : Z) (v : scatter) :
  NewScatter avail fuel width height minTime maxTime yLog2 colorSteps xGrid = Ok v ->
  initializeVisualization avail width height = Ok (fresh_canvas width height)
  /\ scatter_drawGrid fuel
       (mkScatter width height (fresh_canvas width height)
          (float64_of_int minTime) (float64_of_int maxTime) yLog2
          (float64_of_int colorSteps)) xGrid = Ok v.
Proof.
  unfold NewScatter.
  destruct (initializeVisualization avail width height) as [vis| |] eqn:Hv;
    cbn [mbind outcome_bind]; try discriminate.
  pose proof (initializeVisualization_Ok _ _ _ _ Hv) as ->.
  intros H. split; [reflexivity | exact H].
Qed.

Lemma NewSweep_Ok (avail : Z) (fuel : nat) (width height minTime maxTime : Z)
    (yLog2 : float) (colorSteps xGrid : Z) (v : sweep) :
  NewSweep avail fuel width height minTime maxTime yLog2 colorSteps xGrid = Ok v ->
  initializeVisualization avail width height = Ok (fresh_canvas width height)
  /\ sweep_drawGrid fuel
       (mkSweep width height (fresh_canvas width height)
          (float64_of_int minTime) (float64_of_int maxTime) yLog2
          (float64_of_int saturated / float64_of_int colorSteps)%float) xGrid = Ok v.
Proof.
  unfold NewSweep.
  destruct (initializeVisualization avail width height) as [vis| |] eqn:Hv;
    cbn [mbind outcome_bind]; try discriminate.
  pose proof (initializeVisualization_Ok _ _ _ _ Hv) as ->.
  intros H. split; [reflexivity | exact H].
Qed.

Lemma NewWave_Ok (avail width height minTime maxTime : Z) (v : wave) :
  NewWave avail width height minTime maxTime = Ok v ->
  v = mkWave width height (float64_of_int minTime) (float64_of_int maxTime)
        (fresh_canvas width height) 0 [] [].
Proof.
  unfold NewWave.
  destruct (initializeVisualization avail width height) as [vis| |] eqn:Hv;
    cbn [mbind outcome_bind]; try discriminate.
  pose proof (initializeVisualization_Ok _ _ _ _ Hv) as ->.
  intros H. injection H as <-. reflexivity.
Qed.

Lemma getRGBA_pixel_or_sink_witness :
  let i := fresh_canvas 2 2 in
  (getRGBA i 1 1 = Ok (InPix 12) /\ RGBAAt (fst (store i (InPix 12) chB 200)) 1 1 = mkColor 33 33 200 255)
  /\ (exists c, getRGBA i (-5) (2 ^ 70) = Ok (Fresh c)
        /\ fst (store_all i (Fresh c) [(chR, 1); (chB, 2)]) = i).
Proof.
  intros i.
  destruct (getRGBA_pixel_or_sink i 1 1) as [Hin _].
  destruct (getRGBA_pixel_or_sink i (-5) (2 ^ 70)) as [_ Hout].
  split.
  - destruct (Hin (fresh_canvas_wf 2 2) eq_refl) as (Hg & _ & _ & _ & Hs & _).
    split; [exact Hg|]. exact (Hs chB 200).
  - destruct (Hout eq_refl) as (c & Hg & Hs). exists c. split; [exact Hg|]. apply Hs.
Defined.

(** ** Loops *)

Lemma for_range_nonpos {S : Type} (n : Z) (body : Z -> S -> outcome S) (s : S) :
  n <= 0 -> for_range n body s = Ok s.
Proof.
  intros Hn. unfold for_range, seqZ.
  replace (Z.to_nat n) with 0%nat by lia. reflexivity.
Qed.

(** A counted loop whose body returns under an invariant returns, and the
    invariant holds at the end. *)
Lemma for_range_invariant {S : Type} (I : Z -> S -> Prop) (n : Z)
    (body : Z -> S -> outcome S) (s : S) :
  0 <= n -> I 0 s ->
  (forall k s, 0 <= k < n -> I k s -> exists s', body k s = Ok s' /\ I (k + 1) s') ->
  exists s', for_range n body s = Ok s' /\ I n s'.
Proof.
  intros Hn H0 Hstep. unfold for_range.
  rewrite <- (Z2Nat.id n) in Hstep |- * by lia.
  induction (Z.to_nat n) as [|m IH].
  - exists s. split; [reflexivity | exact H0].
  - destruct IH as (s1 & Hs1 & HI1).
    { intros k s0 Hk. apply Hstep. lia. }
    rewrite seqZ_S, foldl_app, Hs1. simpl.
    destruct (Hstep (Z.of_nat m) s1) as (s2 & Hs2 & HI2); [lia | exact HI1 |].
    exists s2. split; [exact Hs2|].
    replace (Z.of_nat (Datatypes.S m)) with (Z.of_nat m + 1) by lia. exact HI2.
Qed.

(** The result of a loop does not depend on the fuel that let it return. *)
Lemma while_agree {S : Type} (cond : S -> bool) (body1 body2 : S -> outcome S) :
  (forall s, agree (body1 s) (body2 s)) ->
  forall n m s, agree (while n cond body1 s) (while m cond body2 s).
Proof.
  intros Hb n. induction n as [|n IH]; intros m s a b; simpl; [discriminate|].
  destruct m as [|m]; simpl; [discriminate|].
  destruct (cond s); [|congruence].
  destruct (body1 s) as [s1| |] eqn:H1; simpl; try discriminate.
  destruct (body2 s) as [s2| |] eqn:H2; simpl; try discriminate.
  rewrite (Hb s s1 s2 H1 H2). apply IH.
Qed.

Lemma agree_refl {A : Type} (o : outcome A) : agree o o.
Proof. intros x y Hx Hy. congruence. Qed.

Lemma agree_refl_fun {A B : Type} (f : A -> outcome B) (a : A) : agree (f a) (f a).
Proof. apply agree_refl. Qed.

Lemma agree_bind {A B : Type} (m1 m2 : outcome A) (k1 k2 : A -> outcome B) :
  agree m1 m2 -> (forall a, agree (k1 a) (k2 a)) ->
  agree (a ← m1; k1 a) (a ← m2; k2 a).
Proof.
  intros Hm Hk x y. destruct m1 as [a1| |]; simpl; try discriminate.
  destruct m2 as [a2| |]; simpl; try discriminate.
  rewrite (Hm a1 a2 eq_refl eq_refl). apply Hk.
Qed.

(** More fuel changes nothing once the loop has returned. *)
Lemma while_fuel_mono {S : Type} (cond : S -> bool) (body : S -> outcome S)
    (n m : nat) (s r : S) :
  (n <= m)%nat -> while n cond body s = Ok r -> while m cond body s = Ok r.
Proof.
  revert m s. induction n as [|n IH]; intros m s Hle; simpl; [discriminate|].
  destruct m as [|m]; [lia|]. simpl.
  destruct (cond s); [|trivial].
  destruct (body s) as [s1| |]; simpl; try discriminate.
  apply IH. lia.
Qed.

(** ** Go integers *)

Lemma wrap_range (w z : Z) : 0 < w -> - 2 ^ (w - 1) <= wrap w z < 2 ^ (w - 1).
Proof.
  intros Hw. unfold wrap.
  assert (H2 : 2 ^ w = 2 * 2 ^ (w - 1)).
  { rewrite <- Z.pow_succ_r by lia. f_equal. lia. }
  pose proof (Z.mod_pos_bound (z + 2 ^ (w - 1)) (2 ^ w)) as Hm.
  assert (0 < 2 ^ (w - 1)) by (apply Z.pow_pos_nonneg; lia).
  lia.
Qed.

Lemma wrap_id (w z : Z) :
  0 < w -> - 2 ^ (w - 1) <= z < 2 ^ (w - 1) -> wrap w z = z.
Proof.
  intros Hw Hz. unfold wrap.
  assert (H2 : 2 ^ w = 2 * 2 ^ (w - 1)).
  { rewrite <- Z.pow_succ_r by lia. f_equal. lia. }
  rewrite Z.mod_small by lia. lia.
Qed.

Lemma int64_range (z : Z) : min_int64 <= int64 z <= max_int64.
Proof.
  pose proof (wrap_range 64 z ltac:(lia)) as H. unfold int64, min_int64, max_int64.
  simpl in H. lia.
Qed.

Lemma int64_id (z : Z) : min_int64 <= z <= max_int64 -> int64 z = z.
Proof.
  unfold min_int64, max_int64. intros H. apply wrap_id; simpl; lia.
Qed.

Lemma int_of_float64_range (f : float) :
  min_int64 <= int_of_float64 f <= max_int64.
Proof.
  unfold int_of_float64.
  destruct (trunc f) as [z|]; [|unfold min_int64, max_int64; lia].
  destruct (andb _ _) eqn:E; [|unfold min_int64, max_int64; lia].
  apply andb_prop in E. destruct E as [E1 E2]. lia.
Qed.

(** ** The wave renderer *)

Section WaveFacts.
Variable plot : RGBA -> Z -> Z -> Z -> Z -> Z -> RGBA.

Lemma index_in_range {A : Type} (l : list A) (k : Z) :
  0 <= k < len l -> exists a, index l k = Ok a.
Proof.
  intros Hk. unfold index, len in *.
  destruct (Z.ltb_spec k 0); [lia|].
  destruct (l !! Z.to_nat k) as [a|] eqn:E; [exists a; reflexivity|].
  apply lookup_ge_None in E. lia.
Qed.

Lemma wave_plot_passing_returns (v : wave) (e : EventDataPoint) (i : Z)
    (st : RGBA * Z) :
  0 <= i < len (wave_p v) -> exists st', wave_plot_passing plot v e i st = Ok st'.
Proof.
  intros Hi. destruct st as [vis yP]. unfold wave_plot_passing.
  destruct (index_in_range (wave_p v) (len (wave_p v) - i - 1)) as [p Hp]; [lia|].
  rewrite Hp. simpl. eexists. reflexivity.
Qed.

Lemma wave_plot_failing_returns (v : wave) (e : EventDataPoint) (i : Z)
    (st : RGBA * Z) :
  0 <= i < len (wave_f v) -> exists st', wave_plot_failing plot v e i st = Ok st'.
Proof.
  intros Hi. destruct st as [vis yF]. unfold wave_plot_failing.
  destruct (index_in_range (wave_f v) (len (wave_f v) - i - 1)) as [f Hf]; [lia|].
  rewrite Hf. simpl. eexists. reflexivity.
Qed.

(** Plotting a column returns; it moves [x] one to the right and leaves
    the active sets alone. *)
Lemma wave_column_returns (e : EventDataPoint) (v : wave) :
  exists v', wave_column plot e v = Ok v'
    /\ wave_x v' = int64 (wave_x v + 1)
    /\ wave_p v' = wave_p v /\ wave_f v' = wave_f v.
Proof.
  unfold wave_column.
  set (v1 := mkWave _ _ _ _ _ _ _ _).
  destruct (for_range_invariant (fun _ _ => True) (len (wave_p v1))
              (wave_plot_passing plot v1 e) (wave_vis v1, 0)) as (sP & HsP & _).
  { unfold len. lia. } { exact I. }
  { intros k s Hk _. destruct (wave_plot_passing_returns v1 e k s Hk) as [s' Hs'].
    exists s'. split; [exact Hs' | exact I]. }
  destruct (for_range_invariant (fun _ _ => True) (len (wave_f v1))
              (wave_plot_failing plot v1 e) (fst sP, 0)) as (sF & HsF & _).
  { unfold len. lia. } { exact I. }
  { intros k s Hk _. destruct (wave_plot_failing_returns v1 e k s Hk) as [s' Hs'].
    exists s'. split; [exact Hs' | exact I]. }
  rewrite HsP. cbn [mbind outcome_bind]. rewrite HsF. cbn [mbind outcome_bind].
  eexists. split; [reflexivity|]. simpl. repeat split.
Qed.

Lemma wave_column_sets (e : EventDataPoint) (v v' : wave) :
  wave_column plot e v = Ok v' -> wave_p v' = wave_p v /\ wave_f v' = wave_f v.
Proof.
  intros H. destruct (wave_column_returns e v) as (v1 & H1 & _ & Hp & Hf).
  rewrite H in H1. injection H1 as <-. split; assumption.
Qed.

(** The column loop leaves the active sets alone. *)
Lemma wave_loop_sets (e : EventDataPoint) (x' : Z) (fuel : nat) (v v' : wave) :
  while fuel (fun v => wave_x v <? x') (wave_column plot e) v = Ok v' ->
  wave_p v' = wave_p v /\ wave_f v' = wave_f v.
Proof.
  revert v. induction fuel as [|fuel IH]; intros v; simpl; [discriminate|].
  destruct (wave_x v <? x').
  - destruct (wave_column plot e v) as [v1| |] eqn:H1; simpl; try discriminate.
    intros H. apply IH in H. apply wave_column_sets in H1.
    destruct H as [-> ->]. exact H1.
  - intros H. injection H as <-. split; reflexivity.
Qed.

(** The column loop returns after [x' - v.x] rounds. *)
Lemma wave_loop_returns (e : EventDataPoint) (x' : Z) (k : nat) (v : wave) :
  x' <= max_int64 -> min_int64 <= wave_x v -> x' - wave_x v <= Z.of_nat k ->
  exists v', while (Datatypes.S k) (fun v => wave_x v <? x') (wave_column plot e) v = Ok v'.
Proof.
  intros Hmax. revert v. induction k as [|k IH]; intros v Hmin Hk.
  - simpl. destruct (Z.ltb_spec (wave_x v) x'); [lia|]. exists v. reflexivity.
  - cbn [while]. destruct (Z.ltb_spec (wave_x v) x'); [|exists v; reflexivity].
    destruct (wave_column_returns e v) as (v1 & H1 & Hx1 & _).
    rewrite H1. cbn [mbind outcome_bind].
    rewrite int64_id in Hx1 by lia.
    apply IH; lia.
Qed.

Lemma wave_loop_returns_any (e : EventDataPoint) (x' : Z) (v : wave) :
  x' <= max_int64 ->
  exists fuel v', while fuel (fun v => wave_x v <? x') (wave_column plot e) v = Ok v'.
Proof.
  intros Hmax. destruct (Z.ltb_spec (wave_x v) x') as [Hlt | Hge].
  - destruct (wave_column_returns e v) as (v1 & H1 & Hx1 & _).
    pose proof (int64_range (wave_x v + 1)) as Hr.
    destruct (wave_loop_returns e x' (Z.to_nat (x' - wave_x v1)) v1) as [v' Hv'];
      [exact Hmax | lia | lia |].
    exists (Datatypes.S (Datatypes.S (Z.to_nat (x' - wave_x v1)))), v'.
    cbn [while]. destruct (Z.ltb_spec (wave_x v) x'); [|lia].
    rewrite H1. cbn [mbind outcome_bind]. exact Hv'.
  - exists 1%nat, v. simpl. destruct (Z.ltb_spec (wave_x v) x'); [lia|reflexivity].
Qed.

(** [Record] returns on every renderer state and every event. *)
Lemma wave_Record_returns (v : wave) (e : EventDataPoint) :
  exists fuel v', wave_Record plot fuel v e = Ok v'.
Proof.
  unfold wave_Record.
  destruct (Status e =? 0); simpl;
    apply wave_loop_returns_any; apply int_of_float64_range.
Qed.

Lemma wave_Record_sets (fuel : nat) (v v' : wave) (e : EventDataPoint) :
  wave_Record plot fuel v e = Ok v' ->
  wave_p v' = List.filter (fun q => Start e <? int32 (Start q + Run q)) (wave_p v)
              ++ (if Status e =? 0 then [e] else [])
  /\ wave_f v' = List.filter (fun q => Start e <? int32 (Start q + Run q)) (wave_f v)
              ++ (if Status e =? 0 then [] else [e]).
Proof.
  unfold wave_Record. destruct (Status e =? 0); simpl; intros H;
    apply wave_loop_sets in H; simpl in H; destruct H as [-> ->];
    rewrite ?app_nil_r; split; reflexivity.
Qed.
End WaveFacts.



(** C8.  On every renderer state and every event (whatever its start time,
    a zero or negative run time, any status) [wave.Record] returns: it
    neither panics nor loops; and so every finite sequence of events, in any
    order, is recorded call after call and rendered. *)
Theorem wave_Record_total (plot : RGBA -> Z -> Z -> Z -> Z -> Z -> RGBA)
    (v : wave) (e : EventDataPoint) (es : list EventDataPoint) :
  (exists fuel v', wave_Record plot fuel v e = Ok v')
  /\ exists img, @renders wave (wave_Visualizer plot) v es img.
Proof.
  split; [apply wave_Record_returns|].
  revert v. induction es as [|e' es IH]; intros v.
  - eexists. apply renders_nil.
  - destruct (wave_Record_returns plot v e') as (fuel & v' & Hv').
    destruct (IH v') as [img Himg].
    exists img. eapply renders_cons; [exact Hv' | exact Himg].
Qed.

(** ** Error-reason classification *)

Lemma getErrorCode_from_first_match (k : Z) (r : String.string) (fs : list Regexp) :
  getErrorCode_from k r fs
  = int8 (k + match first_match r fs with
               | Some i => Z.of_nat i
               | None => len fs
               end + 1).
Proof.
  revert k. induction fs as [|f fs IH]; intros k; simpl.
  - f_equal. unfold len. simpl. lia.
  - destruct (f r); [f_equal; lia|].
    rewrite IH. f_equal. unfold len. simpl length.
    destruct (first_match r fs); simpl; lia.
Qed.

Lemma first_match_Some (r : String.string) (fs : list Regexp) (i : nat) (f : Regexp) :
  fs !! i = Some f -> f r = true ->
  (forall j g, (j < i)%nat -> fs !! j = Some g -> g r = false) ->
  first_match r fs = Some i.
Proof.
  revert i. induction fs as [|f0 fs IH]; intros i Hi Hf Hbefore; [discriminate|].
  destruct i as [|i]; simpl in *.
  - injection Hi as ->. rewrite Hf. reflexivity.
  - rewrite (Hbefore 0%nat f0) by (reflexivity || lia).
    rewrite (IH i Hi Hf); [reflexivity|].
    intros j g Hj Hg. apply (Hbefore (Datatypes.S j) g); [lia | exact Hg].
Qed.

Lemma first_match_None (r : String.string) (fs : list Regexp) :
  (forall f, In f fs -> f r = false) -> first_match r fs = None.
Proof.
  induction fs as [|f0 fs IH]; intros H; simpl; [reflexivity|].
  rewrite (H f0) by (left; reflexivity).
  rewrite IH; [reflexivity|]. intros f Hf. apply H. right. exact Hf.
Qed.

(** Where the code fits the [int8] result, [getErrorCode] does what its
    comment says: [i + 1] for the index [i] of the first filter that matches
    the reason when [i] is at most 126, however many filters follow; hence 1
    for a blank reason with the blank matcher first; and [len(filters) + 1]
    when none of at most 126 filters matches. *)
Lemma getErrorCode_first_match (r : String.string) (filters : list Regexp) :
  (forall (i : nat) (f : Regexp),
     filters !! i = Some f -> f r = true ->
     (forall j g, (j < i)%nat -> filters !! j = Some g -> g r = false) ->
     (i <= 126)%nat ->
     getErrorCode r filters = Z.of_nat i + 1)
  /\ (forall rest, filters = blank_filter :: rest ->
      forallb is_space (list_ascii_of_string r) = true -> getErrorCode r filters = 1)
  /\ ((forall f, In f filters -> f r = false) -> len filters <= 126 ->
      getErrorCode r filters = len filters + 1).
Proof.
  assert (Hfit : forall z, 0 <= z <= 126 -> int8 (0 + z + 1) = z + 1).
  { intros z Hz. unfold int8. apply wrap_id; simpl; lia. }
  split; [|split].
  - intros i f Hi Hf Hbefore Hle. unfold getErrorCode.
    rewrite getErrorCode_from_first_match, (first_match_Some r filters i f Hi Hf Hbefore).
    apply Hfit. lia.
  - intros rest -> Hblank. unfold getErrorCode. simpl.
    unfold blank_filter at 1. rewrite Hblank. reflexivity.
  - intros Hnone Hlen. unfold getErrorCode.
    rewrite getErrorCode_from_first_match, (first_match_None r filters Hnone).
    apply Hfit. unfold len in *. lia.
Qed.

(** C7 fails on the code.  The result is an [int8]: with 127 filters (the
    blank matcher and 126 rows of the configuration) of which none matches
    the reason, the code returned is [int8(127 + 1) = -128], not the
    [len(filters) + 1 = 128] of the claim and of the comment in the code (a
    value one past the last value which should be associated with a filter);
    with 255 filters it is 0, and [ConvertCSVToBinary] writes the status of
    a success for the failure.  With 126 filters the code is the claimed
    127, and a first match at index 5 of 200 filters gives the claimed 6. *)
Theorem getErrorCode_wraps_at_127_filters :
  let none : Regexp := fun _ => false in
  (let filters := blank_filter :: replicate 126 none in
   len filters = 127
   /\ first_match "boom" filters = None
   /\ getErrorCode "boom" filters = -128)
  /\ (let filters := blank_filter :: replicate 254 none in
      len filters = 255
      /\ first_match "boom" filters = None
      /\ getErrorCode "boom" filters = 0
      /\ csv_status 1 "boom" filters = 0)
  /\ (let filters := blank_filter :: replicate 125 none in
      len filters = 126 /\ getErrorCode "boom" filters = 127)
  /\ (let filters :=
        blank_filter :: replicate 4 none ++ String.eqb "boom" :: replicate 194 none in
      len filters = 200
      /\ first_match "boom" filters = Some 5%nat
      /\ getErrorCode "boom" filters = 6).
Proof. vm_compute. repeat split. Qed.

(** ** Construction *)

Lemma while_invariant {S : Type} (I : S -> Prop) (cond : S -> bool)
    (body : S -> outcome S) :
  (forall s s', I s -> cond s = true -> body s = Ok s' -> I s') ->
  forall n s r, I s -> while n cond body s = Ok r -> I r /\ cond r = false.
Proof.
  intros Hstep n. induction n as [|n IH]; intros s r Hs; simpl; [discriminate|].
  destruct (cond s) eqn:Hc.
  - destruct (body s) as [s1| |] eqn:H1; simpl; try discriminate.
    apply IH. eapply Hstep; eassumption.
  - intros H. injection H as <-. split; assumption.
Qed.

Lemma scatter_drawGrid_fields (fuel : nat) (v v' : scatter) (xGrid : Z) :
  scatter_drawGrid fuel v xGrid = Ok v' ->
  exists vis, v' = scatter_set_vis v vis.
Proof.
  unfold scatter_drawGrid. intros H.
  destruct (draw_x_lines _ _ _ _) as [vis1| |]; simpl in H; try discriminate.
  destruct (while _ _ _ _) as [s| |]; simpl in H; try discriminate.
  destruct (drawYGridLine _ _) as [vis2| |]; simpl in H; try discriminate.
  injection H as <-. eexists. reflexivity.
Qed.

Lemma sweep_drawGrid_fields (fuel : nat) (v v' : sweep) (xGrid : Z) :
  sweep_drawGrid fuel v xGrid = Ok v' ->
  exists vis, v' = sweep_set_vis v vis.
Proof.
  unfold sweep_drawGrid. intros H.
  destruct (draw_x_lines _ _ _ _) as [vis1| |]; simpl in H; try discriminate.
  destruct (while _ _ _ _) as [s| |]; simpl in H; try discriminate.
  destruct (drawYGridLine _ _) as [vis2| |]; simpl in H; try discriminate.
  injection H as <-. eexists. reflexivity.
Qed.

(** Whatever the flags, the scatter renderer of the command line has the
    upper time bound for [tA] and the lower one for [tΩ]; the sweep renderer
    has them in order. *)
Lemma generateScatterVisualization_time_bounds (avail : Z) (fuel : nat) (fl : flags)
    (v : scatter) :
  generateScatterVisualization avail fuel fl = Ok v ->
  scatter_tA v = float64_of_int (flag_tΩ fl)
  /\ scatter_tΩ v = float64_of_int (flag_tA fl)
  /\ scatter_w v = flag_w fl /\ scatter_h v = flag_h fl.
Proof.
  unfold generateScatterVisualization. intros H. apply NewScatter_Ok in H.
  destruct H as [_ H]. apply scatter_drawGrid_fields in H. destruct H as [vis ->].
  repeat split.
Qed.

Lemma generateSweepVisualization_time_bounds (avail : Z) (fuel : nat) (fl : flags)
    (v : sweep) :
  generateSweepVisualization avail fuel fl = Ok v ->
  sweep_tA v = float64_of_int (flag_tA fl)
  /\ sweep_tΩ v = float64_of_int (flag_tΩ fl).
Proof.
  unfold generateSweepVisualization. intros H. apply NewSweep_Ok in H.
  destruct H as [_ H]. apply sweep_drawGrid_fields in H. destruct H as [vis ->].
  repeat split.
Qed.

(** C4 fails on the code.  With the flags min-time 0, max-time 8, width 8,
    height 8 and one pixel per doubling, the renderer that [vis-scatter]
    builds holds the bounds swapped ([tA = 8], [tΩ = 0]), and the event that
    starts at time 2 and runs 4 seconds is plotted at column
    [int(8 * (2 - 8) / (0 - 8)) = 6], where the linear mapping of the claim
    (and of the wave and sweep renderers) gives column 2.  The row is the
    claimed [8 - 1 * log2(4) = 6]. *)
Theorem scatter_dispatch_mirrors_time :
  let fl := mkFlags 0 8 0 1 8 8 1 in
  let e := mkEvent 2 4 0 in
  exists v, generateScatterVisualization 65536 16 fl = Ok v
    /\ scatter_tA v = 8%float /\ scatter_tΩ v = 0%float
    /\ scatter_point math_Log2 v e = (6, 6)
    /\ time_column (flag_w fl) (float64_of_int (flag_tA fl))
         (float64_of_int (flag_tΩ fl)) (float64_of_int (Start e)) = 2
    /\ exists v', generateSweepVisualization 65536 16 fl = Ok v'
         /\ sweep_tA v' = 0%float /\ sweep_tΩ v' = 8%float.
Proof.
  intros fl e.
  destruct (generateScatterVisualization 65536 16 fl) as [v| |] eqn:E;
    [| vm_compute in E; discriminate ..].
  exists v. split; [reflexivity|].
  assert (Hv : v = scatter_set_vis
                 (mkScatter 8 8 (fresh_canvas 8 8) 8 0 1 1) (scatter_vis v)).
  { unfold generateScatterVisualization in E. apply NewScatter_Ok in E.
    destruct E as [_ E]. apply scatter_drawGrid_fields in E.
    destruct E as [vis ->]. reflexivity. }
  rewrite Hv. simpl.
  split; [reflexivity|]. split; [reflexivity|].
  split; [vm_compute; reflexivity|]. split; [vm_compute; reflexivity|].
  destruct (generateSweepVisualization 65536 16 fl) as [v'| |] eqn:E';
    [| vm_compute in E'; discriminate ..].
  exists v'. split; [reflexivity|].
  apply generateSweepVisualization_time_bounds in E'. destruct E' as [-> ->].
  split; vm_compute; reflexivity.
Qed.

(** ** The sweep renderer: the walk *)

Lemma last_cons_default {A : Type} (l : list A) (a d d' : A) :
  List.last (a :: l) d = List.last (a :: l) d'.
Proof.
  revert a. induction l as [|b l IH]; intros a; [reflexivity|].
  change (List.last (b :: l) d = List.last (b :: l) d'). apply IH.
Qed.

Lemma descends_snoc (y z : Z) (ys : list Z) :
  descends y ys -> z = List.last ys y \/ z = List.last ys y - 1 ->
  descends y (ys ++ [z]).
Proof.
  revert y. induction ys as [|y1 ys IH]; intros y Hd Hz; simpl in *.
  - split; [exact Hz | exact I].
  - destruct Hd as [H1 Hd]. split; [exact H1|].
    apply IH; [exact Hd|].
    destruct ys as [|y2 ys]; [exact Hz|].
    rewrite (last_cons_default ys y2 y1 y). exact Hz.
Qed.

Lemma walk_from_snoc (start z : Z) (ys : list Z) :
  walk_from start ys ->
  (ys = [] -> z = start) ->
  (ys <> [] -> z = List.last ys start \/ z = List.last ys start - 1) ->
  walk_from start (ys ++ [z]).
Proof.
  destruct ys as [|y0 ys]; simpl; intros Hw Hnil Hcons.
  - split; [apply Hnil; reflexivity | exact I].
  - destruct Hw as [-> Hd]. split; [reflexivity|].
    apply descends_snoc; [exact Hd|].
    specialize (Hcons ltac:(discriminate)).
    destruct ys as [|y1 ys]; exact Hcons.
Qed.

Lemma last_snoc {A : Type} (l : list A) (a d : A) : List.last (l ++ [a]) d = a.
Proof. apply List.last_last. Qed.

Section SweepWalk.
Variable Log2 : float -> float.
Variable v : sweep.
Variable e : EventDataPoint.

Lemma sweep_paint_inv (x yMin : Z) (s s' : sweep_state * Z) :
  min_int64 <= yMin -> paint_inv v e s -> (yMin <? snd s) = true ->
  sweep_paint v e x s = Ok s' -> paint_inv v e s'.
Proof.
  intros HyMin (ys & Hw & Hp & Hy & Hmax & Hy') Hc Hs.
  destruct s as [st y']. simpl in *. apply Z.ltb_lt in Hc.
  assert (Hnext : int64 (y' - 1) = y' - 1) by (apply int64_id; lia).
  assert (Hwalk : walk_from (int_div (sweep_h v) 2) (ys ++ [y'])).
  { apply walk_from_snoc; [exact Hw | |].
    - intros ->. simpl in Hy. destruct Hy' as [-> | [_ Hne]]; [exact Hy | congruence].
    - intros _. rewrite <- Hy. lia. }
  assert (Hfin : forall vis,
             paint_inv v e (mkSweepState vis y' (st_painted st ++ [(x, sweep_row v e y')]),
                        int64 (y' - 1))).
  { intros vis. exists (ys ++ [y']). simpl.
    rewrite !map_app, Hp, last_snoc. simpl.
    split; [exact Hwalk|]. split; [reflexivity|]. split; [reflexivity|].
    split; [lia|]. right. split; [lia|].
    intros Hnil. apply app_eq_nil in Hnil. destruct Hnil. discriminate. }
  unfold sweep_paint in Hs. unfold sweep_row in Hfin.
  destruct (Status e =? 0);
    destruct (getRGBA _ _ _) as [c| |]; simpl in Hs; try discriminate;
    injection Hs as <-; apply Hfin.
Qed.

Lemma sweep_step_inv (fuel : nat) (tMin : float) (s s' : sweep_state * float) :
  walk_inv v e (fst s) -> sweep_step Log2 fuel v e tMin s = Ok s' -> walk_inv v e (fst s').
Proof.
  destruct s as [st t]. simpl. intros (ys & Hw & Hp & Hy & Hmax) Hs.
  unfold sweep_step in Hs.
  destruct (while _ _ _ _) as [r| |] eqn:Hr; simpl in Hs; try discriminate.
  injection Hs as <-. simpl.
  apply (while_invariant (paint_inv v e)) in Hr.
  - destruct Hr as [(ys' & Hw' & Hp' & Hy' & Hmax' & _) _].
    exists ys'. repeat split; assumption.
  - intros s1 s2 H1 Hc H2. eapply sweep_paint_inv; [| exact H1 | exact Hc | exact H2].
    apply int64_range.
  - exists ys. simpl. repeat split; try assumption. left. reflexivity.
Qed.

Lemma sweep_Record_traced_walk (fuel : nat) (st : sweep_state) :
  sweep_Record_traced Log2 fuel v e = Ok st -> walk_inv v e st.
Proof.
  unfold sweep_Record_traced. intros H.
  destruct (while _ _ _ _) as [r| |] eqn:Hr; simpl in H; try discriminate.
  injection H as <-.
  apply (while_invariant (fun s => walk_inv v e (fst s))) in Hr; [apply Hr | |].
  - intros s1 s2 H1 _ H2. eapply sweep_step_inv; eassumption.
  - exists []. simpl. repeat split. apply int64_range.
Qed.
End SweepWalk.

(** C5, as it holds.  Within one [sweep.Record(e)] the walk over the rows
    never turns back and skips no row: the rows [y] of the painted pixels, in
    the order they are painted, start on the centre line [v.h/2], and every
    further one is the row before it or the next one outward (the pixel is
    at row [y] for a success, at the mirrored row [v.h-y] for a failure).
    Nothing is said of how often a row is painted, nor of the columns. *)
Theorem sweep_Record_walk (Log2 : float -> float) (fuel : nat) (v : sweep)
    (e : EventDataPoint) (painted : list (Z * Z)) :
  sweep_painted Log2 fuel v e = Ok painted ->
  exists ys, walk_from (int_div (sweep_h v) 2) ys
    /\ map snd painted = map (sweep_row v e) ys.
Proof.
  unfold sweep_painted. intros H.
  destruct (sweep_Record_traced Log2 fuel v e) as [st| |] eqn:Hst;
    simpl in H; try discriminate.
  injection H as <-.
  destruct (sweep_Record_traced_walk Log2 v e fuel st Hst) as (ys & Hw & Hp & _).
  exists ys. split; assumption.
Qed.

(** The renderers the examples run on: an 8 by 8 canvas, the time range 0
    to 8 (or 0 to 80), one pixel per doubling, one colour step, no vertical
    grid lines. *)
Lemma sweep_Record_walk_witness :
  exists v painted,
    generateSweepVisualization 65536 16 (mkFlags 0 8 0 1 8 8 1) = Ok v
    /\ sweep_painted math_Log2 16 v (mkEvent 0 4 1) = Ok painted
    /\ exists ys, walk_from 4 ys /\ map snd painted = map (fun y => int64 (8 - y)) ys.
Proof.
  destruct (generateSweepVisualization 65536 16 (mkFlags 0 8 0 1 8 8 1)) as [v| |] eqn:E;
    [| vm_compute in E; discriminate ..].
  vm_compute in E. injection E as <-.
  match goal with |- exists v painted, Ok ?a = _ /\ _ => set (v := a) end.
  destruct (sweep_painted math_Log2 16 v (mkEvent 0 4 1)) as [painted| |] eqn:P;
    [| vm_compute in P; discriminate ..].
  exists v, painted. split; [reflexivity|]. split; [exact P|].
  exact (sweep_Record_walk math_Log2 16 v (mkEvent 0 4 1) painted P).
Defined.

(** C5 as stated fails.  A row is painted more than once: an event that
    runs 4 seconds paints the centre row 4 at the times 2, 3 and 4 before it
    reaches row 3; with the time range 0 to 8 that is in three columns, with
    the time range 0 to 80 it is three times the same pixel.  And the painted
    pixels are no connected arc: on a canvas 64 pixels wide for the time
    range 0 to 8, the pixels of the event that starts at time 4 lie 8 columns
    apart, the last two in column 64, outside the canvas. *)
Lemma sweep_Record_paints_row_again :
  exists v v' v'',
    generateSweepVisualization 65536 16 (mkFlags 0 8 0 1 8 8 1) = Ok v
    /\ sweep_painted math_Log2 16 v (mkEvent 0 4 0) = Ok [(2, 4); (3, 4); (4, 4); (4, 3)]
    /\ generateSweepVisualization 65536 16 (mkFlags 0 80 0 1 8 8 1) = Ok v'
    /\ sweep_painted math_Log2 16 v' (mkEvent 0 4 0) = Ok [(0, 4); (0, 4); (0, 4); (0, 3)]
    /\ generateSweepVisualization 65536 16 (mkFlags 0 8 0 1 64 8 1) = Ok v''
    /\ sweep_painted math_Log2 16 v'' (mkEvent 4 4 0)
       = Ok [(48, 4); (56, 4); (64, 4); (64, 3)].
Proof.
  destruct (generateSweepVisualization 65536 16 (mkFlags 0 8 0 1 8 8 1)) as [v| |] eqn:E;
    [| vm_compute in E; discriminate ..].
  destruct (generateSweepVisualization 65536 16 (mkFlags 0 80 0 1 8 8 1)) as [v'| |] eqn:E';
    [| vm_compute in E'; discriminate ..].
  destruct (generateSweepVisualization 65536 16 (mkFlags 0 8 0 1 64 8 1))
    as [v''| |] eqn:E''; [| vm_compute in E''; discriminate ..].
  exists v, v', v''. split; [reflexivity|].
  split; [vm_compute in E; injection E as <-; vm_compute; reflexivity|].
  split; [reflexivity|].
  split; [vm_compute in E'; injection E' as <-; vm_compute; reflexivity|].
  split; [reflexivity|].
  vm_compute in E''. injection E'' as <-. vm_compute. reflexivity.
Qed.

(** ** Blending through a pointer *)

Lemma touches_only_refl (x y : Z) (i : RGBA) : RGBA_wf i -> touches_only x y i i.
Proof. intros Hwf. repeat split; try assumption; apply Hwf. Qed.

Lemma touches_only_trans (x y : Z) (i1 i2 i3 : RGBA) :
  touches_only x y i1 i2 -> touches_only x y i2 i3 -> touches_only x y i1 i3.
Proof.
  intros (Hwf2 & Hr2 & Hs2 & Hf2 & Ho2) (Hwf3 & Hr3 & Hs3 & Hf3 & Ho3).
  split; [exact Hwf3|]. split; [congruence|]. split; [congruence|]. split.
  - intros x' y' Hne. rewrite Hf3, Hf2 by assumption. reflexivity.
  - intros Hout. rewrite Ho3, Ho2; [reflexivity | exact Hout |].
    rewrite Hr2. exact Hout.
Qed.

Lemma blend_InPix (Δ : float) (ch : channel) (i : RGBA) (x y : Z) :
  RGBA_wf i -> Point_In (mkPoint x y) (Rect i) = true ->
  exists i', blend Δ ch (i, InPix (PixOffset i x y)) = (i', InPix (PixOffset i' x y))
    /\ Point_In (mkPoint x y) (Rect i') = true /\ touches_only x y i i'.
Proof.
  intros Hwf Hin. unfold blend, store. eexists. split.
  - rewrite PixOffset_set_byte. reflexivity.
  - rewrite set_byte_Rect. split; [exact Hin|].
    split; [apply set_byte_wf; exact Hwf|].
    split; [apply set_byte_Rect|]. split; [apply set_byte_Stride|]. split.
    + intros x' y' Hne. apply RGBAAt_set_byte_other; try assumption.
      apply channel_index_range.
    + intros Hout. congruence.
Qed.

Lemma blend_Fresh (Δ : float) (ch : channel) (i : RGBA) (c : color_RGBA) :
  exists c', blend Δ ch (i, Fresh c) = (i, Fresh c').
Proof. unfold blend, store. eexists. reflexivity. Qed.

(** The blends of [Record] change at most the pixel the pointer was asked
    for, and nothing when that lies outside the canvas. *)
Lemma blend_success_touches (Δ : float) (i : RGBA) (x y : Z) (c : pixel_ptr) :
  RGBA_wf i -> getRGBA i x y = Ok c -> touches_only x y i (blend_success Δ i c).
Proof.
  intros Hwf Hc. unfold blend_success.
  destruct (Point_In (mkPoint x y) (Rect i)) eqn:Hin.
  - rewrite getRGBA_inside in Hc by assumption. injection Hc as <-.
    destruct (blend_InPix (Δ / 4) chR i x y Hwf Hin) as (i1 & -> & Hin1 & H1).
    destruct (blend_InPix (Δ / 4) chG i1 x y (proj1 H1) Hin1) as (i2 & -> & Hin2 & H2).
    destruct (blend_InPix Δ chB i2 x y (proj1 H2) Hin2) as (i3 & -> & Hin3 & H3).
    simpl. eapply touches_only_trans; [|exact H3].
    eapply touches_only_trans; eassumption.
  - rewrite getRGBA_outside in Hc by assumption. injection Hc as <-.
    destruct (blend_Fresh (Δ / 4) chR i (mkColor 0 0 0 0)) as [c1 ->].
    destruct (blend_Fresh (Δ / 4) chG i c1) as [c2 ->].
    destruct (blend_Fresh Δ chB i c2) as [c3 ->].
    simpl. apply touches_only_refl. exact Hwf.
Qed.

Lemma blend_failure_touches (Δ : float) (i : RGBA) (x y : Z) (c : pixel_ptr) :
  RGBA_wf i -> getRGBA i x y = Ok c -> touches_only x y i (blend_failure Δ i c).
Proof.
  intros Hwf Hc. unfold blend_failure.
  destruct (Point_In (mkPoint x y) (Rect i)) eqn:Hin.
  - rewrite getRGBA_inside in Hc by assumption. injection Hc as <-.
    destruct (blend_InPix Δ chR i x y Hwf Hin) as (i1 & -> & Hin1 & H1).
    simpl. exact H1.
  - rewrite getRGBA_outside in Hc by assumption. injection Hc as <-.
    destruct (blend_Fresh Δ chR i (mkColor 0 0 0 0)) as [c1 ->].
    simpl. apply touches_only_refl. exact Hwf.
Qed.

(** Recording a scatter event changes no pixel but the one it is plotted
    at. *)
Lemma scatter_Record_touches (Log2 : float -> float) (v v' : scatter)
    (e : EventDataPoint) :
  RGBA_wf (scatter_vis v) -> scatter_Record Log2 v e = Ok v' ->
  touches_only (fst (scatter_point Log2 v e)) (snd (scatter_point Log2 v e))
    (scatter_vis v) (scatter_vis v').
Proof.
  intros Hwf H. unfold scatter_Record in H.
  destruct (scatter_point Log2 v e) as [x y]. simpl.
  destruct (getRGBA (scatter_vis v) x y) as [c| |] eqn:Hc; simpl in H; try discriminate.
  destruct (Status e =? 0); injection H as <-; simpl.
  - apply blend_success_touches; assumption.
  - apply blend_failure_touches; assumption.
Qed.

(** ** The sweep renderer: which rows a call can change *)

Lemma descends_last_le (y : Z) (ys : list Z) : descends y ys -> List.last ys y <= y.
Proof.
  revert y. induction ys as [|y1 ys IH]; intros y; simpl; [lia|].
  intros [H1 Hd]. specialize (IH y1 Hd).
  destruct ys as [|y2 ys]; [lia|].
  rewrite (last_cons_default ys y2 y y1). lia.
Qed.

Lemma walk_from_last_le (start : Z) (ys : list Z) :
  walk_from start ys -> List.last ys start <= start.
Proof.
  destruct ys as [|y0 ys]; simpl; [lia|]. intros [Hy0 Hd]. subst start.
  pose proof (descends_last_le y0 ys Hd) as H.
  destruct ys as [|y1 ys]; [lia|]. exact H.
Qed.

Lemma int64_above (z : Z) :
  max_int64 < z <= max_int64 - min_int64 -> int64 z = z - 2 ^ 64.
Proof.
  unfold max_int64, min_int64, int64, wrap. intros Hz.
  replace (z + 2 ^ (64 - 1)) with ((z - 2 ^ 63) + 1 * 2 ^ 64) by (simpl; lia).
  rewrite Z.mod_add by lia. rewrite Z.mod_small by lia. simpl. lia.
Qed.

Section SweepFrame.
Variable Log2 : float -> float.
Variable v : sweep.
Variable e : EventDataPoint.
Hypothesis Hwf : sweep_wf v.

Lemma rows_kept_step (vis vis' : RGBA) (x ρ : Z) :
  rows_kept v e vis -> touches_only x ρ vis vis' ->
  (never_painted v e ρ -> Point_In (mkPoint x ρ) (Rect vis) = false) ->
  rows_kept v e vis'.
Proof.
  intros (Hw & Hr & Hk) (Hw' & Hr' & _ & Hf & Ho) Hout.
  split; [exact Hw'|]. split; [congruence|].
  intros x' r Hn. rewrite <- Hk by exact Hn.
  destruct (decide ((x', r) = (x, ρ))) as [Heq | Hne].
  - injection Heq as -> ->. rewrite Ho; [reflexivity|]. apply Hout. exact Hn.
  - apply Hf. exact Hne.
Qed.

Lemma sweep_paint_rows (x yMin : Z) (s s' : sweep_state * Z) :
  min_int64 <= yMin -> paint_inv v e s -> rows_kept v e (st_vis (fst s)) ->
  (yMin <? snd s) = true -> sweep_paint v e x s = Ok s' ->
  rows_kept v e (st_vis (fst s')).
Proof.
  intros HyMin (ys & Hw & _ & Hy & _ & Hy') Hk Hc Hs.
  destruct s as [st y']. simpl in *. apply Z.ltb_lt in Hc.
  pose proof (walk_from_last_le _ _ Hw) as Hle. rewrite <- Hy in Hle.
  assert (Hy'le : y' <= int_div (sweep_h v) 2) by lia.
  destruct Hwf as (_ & Hmin & Hmaxr & Hh).
  assert (Hhalf : 0 <= sweep_h v / 2 <= sweep_h v).
  { split; [apply Z.div_pos; lia | apply Z.div_le_upper_bound; lia]. }
  assert (Hdiv : int_div (sweep_h v) 2 = sweep_h v / 2).
  { unfold int_div. rewrite Z.quot_div_nonneg by lia.
    apply int64_id. unfold min_int64, max_int64 in *. lia. }
  unfold sweep_paint in Hs.
  destruct (Status e =? 0) eqn:Hst;
    destruct (getRGBA _ _ _) as [c| |] eqn:Hget; simpl in Hs; try discriminate;
    injection Hs as <-; simpl.
  - eapply rows_kept_step; [exact Hk | apply blend_success_touches;
                                        [apply Hk | exact Hget] |].
    unfold never_painted. rewrite Hst. intros Hn. lia.
  - eapply rows_kept_step; [exact Hk | apply blend_failure_touches;
                                        [apply Hk | exact Hget] |].
    unfold never_painted. rewrite Hst.
    intros Hn. destruct Hk as (_ & Hr & _). rewrite Hr.
    unfold Point_In. simpl. rewrite Hmin.
    assert (Hwrap : max_int64 < sweep_h v - y').
    { destruct (Z.le_gt_cases (sweep_h v - y') max_int64) as [Hfit | Hbig]; [|exact Hbig].
      rewrite int64_id in Hn by (unfold min_int64, max_int64 in *; lia). lia. }
    rewrite int64_above by (unfold min_int64, max_int64 in *; lia).
    destruct (Z.leb_spec 0 (sweep_h v - y' - 2 ^ 64)) as [Hpos | Hneg].
    + unfold min_int64, max_int64 in *. lia.
    + rewrite andb_false_r. reflexivity.
Qed.

Lemma sweep_Record_traced_rows (fuel : nat) (st : sweep_state) :
  sweep_Record_traced Log2 fuel v e = Ok st -> rows_kept v e (st_vis st).
Proof.
  unfold sweep_Record_traced. intros H.
  destruct (while _ _ _ _) as [r| |] eqn:Hr; simpl in H; try discriminate.
  injection H as <-.
  apply (while_invariant (fun s => walk_inv v e (fst s) /\ rows_kept v e (st_vis (fst s))))
    in Hr; [apply Hr | |].
  - intros [st1 t1] s2 [Hw1 Hk1] _ H2. simpl in *.
    split; [eapply (sweep_step_inv Log2 v e fuel _ (st1, t1)); eassumption|].
    unfold sweep_step in H2.
    destruct (while fuel _ (sweep_paint v e _) _) as [r2| |] eqn:Hr2;
      simpl in H2; try discriminate.
    injection H2 as <-. simpl.
    apply (while_invariant (fun s => paint_inv v e s /\ rows_kept v e (st_vis (fst s))))
      in Hr2; [apply Hr2 | |].
    + intros s3 s4 [Hp3 Hk3] Hc3 H4. split.
      * eapply sweep_paint_inv; [| exact Hp3 | exact Hc3 | exact H4]. apply int64_range.
      * eapply sweep_paint_rows; [| exact Hp3 | exact Hk3 | exact Hc3 | exact H4].
        apply int64_range.
    + split; [|exact Hk1]. destruct Hw1 as (ys & Hw & Hp & Hy & Hmax).
      exists ys. simpl. repeat split; try assumption. left. reflexivity.
  - simpl. split.
    + exists []. simpl. repeat split. apply int64_range.
    + split; [apply Hwf|]. split; reflexivity.
Qed.
End SweepFrame.

Lemma sweep_Record_rows (Log2 : float -> float) (fuel : nat) (v v' : sweep)
    (e : EventDataPoint) :
  sweep_wf v -> sweep_Record Log2 fuel v e = Ok v' ->
  forall x r, never_painted v e r ->
    RGBAAt (sweep_vis v') x r = RGBAAt (sweep_vis v) x r.
Proof.
  intros Hwf H. unfold sweep_Record in H.
  destruct (sweep_Record_traced Log2 fuel v e) as [st| |] eqn:Hst;
    simpl in H; try discriminate.
  injection H as <-. simpl.
  apply (sweep_Record_traced_rows Log2 v e Hwf fuel st Hst).
Qed.

(** C6, as it holds.  On a sweep renderer, a success pixel at row [y] (a
    row from the centre line [v.h/2] upward) and its mirrored failure pixel
    at row [v.h - y] are independent whenever they are two pixels, that is
    unless [y = v.h - y], the centre row of a canvas of even height:
    recording a success changes no channel of the pixel at row [v.h - y],
    recording a failure changes no channel of the pixel at row [y].  On a
    scatter renderer, recording an event changes no channel of any pixel
    but the one the event is plotted at. *)
Theorem mirrored_pixels_independent (Log2 : float -> float) :
  (forall fuel v v' e x y,
      sweep_wf v -> sweep_Record Log2 fuel v e = Ok v' ->
      y <= int_div (sweep_h v) 2 -> y <> sweep_h v - y ->
      if Status e =? 0
      then RGBAAt (sweep_vis v') x (sweep_h v - y) = RGBAAt (sweep_vis v) x (sweep_h v - y)
      else RGBAAt (sweep_vis v') x y = RGBAAt (sweep_vis v) x y)
  /\ (forall v v' e x y,
      RGBA_wf (scatter_vis v) -> scatter_Record Log2 v e = Ok v' ->
      (x, y) <> scatter_point Log2 v e ->
      RGBAAt (scatter_vis v') x y = RGBAAt (scatter_vis v) x y).
Proof.
  split.
  - intros fuel v v' e x y Hwf H Hy Hne.
    pose proof (sweep_Record_rows Log2 fuel v v' e Hwf H) as Hrows.
    destruct Hwf as (_ & _ & _ & Hh).
    assert (Hdiv : int_div (sweep_h v) 2 = sweep_h v / 2).
    { unfold int_div. rewrite Z.quot_div_nonneg by lia.
      apply int64_id. unfold min_int64, max_int64 in *.
      pose proof (Z.div_pos (sweep_h v) 2).
      assert (sweep_h v / 2 <= sweep_h v) by (apply Z.div_le_upper_bound; lia). lia. }
    assert (Hhalf : 2 * (sweep_h v / 2) <= sweep_h v).
    { apply Z.mul_div_le. lia. }
    unfold never_painted in Hrows.
    destruct (Status e =? 0); apply Hrows; lia.
  - intros v v' e x y Hwf H Hne.
    destruct (scatter_Record_touches Log2 v v' e Hwf H) as (_ & _ & _ & Hf & _).
    apply Hf. destruct (scatter_point Log2 v e). exact Hne.
Qed.

Lemma mirrored_pixels_independent_witness :
  exists v v' w w',
    generateSweepVisualization 65536 16 (mkFlags 0 8 0 1 8 8 1) = Ok v
    /\ sweep_Record math_Log2 16 v (mkEvent 0 8 0) = Ok v'
    /\ RGBAAt (sweep_vis v') 5 (8 - 3) = RGBAAt (sweep_vis v) 5 (8 - 3)
    /\ generateScatterVisualization 65536 16 (mkFlags 0 8 0 1 8 8 1) = Ok w
    /\ scatter_Record math_Log2 w (mkEvent 2 4 0) = Ok w'
    /\ RGBAAt (scatter_vis w') 6 (8 - 6) = RGBAAt (scatter_vis w) 6 (8 - 6).
Proof.
  destruct (generateSweepVisualization 65536 16 (mkFlags 0 8 0 1 8 8 1)) as [v| |] eqn:E;
    [| vm_compute in E; discriminate ..].
  destruct (generateScatterVisualization 65536 16 (mkFlags 0 8 0 1 8 8 1)) as [w| |] eqn:F;
    [| vm_compute in F; discriminate ..].
  vm_compute in E. injection E as <-. vm_compute in F. injection F as <-.
  match goal with |- exists v v' w w', Ok ?a = _ /\ _ /\ _ /\ Ok ?b = _ /\ _ =>
    set (v := a); set (w := b) end.
  destruct (sweep_Record math_Log2 16 v (mkEvent 0 8 0)) as [v'| |] eqn:R;
    [| vm_compute in R; discriminate ..].
  destruct (scatter_Record math_Log2 w (mkEvent 2 4 0)) as [w'| |] eqn:S;
    [| vm_compute in S; discriminate ..].
  exists v, v', w, w'.
  destruct (mirrored_pixels_independent math_Log2) as [Hsweep Hscatter].
  split; [reflexivity|]. split; [exact R|]. split.
  - apply (Hsweep 16%nat v v' (mkEvent 0 8 0) 5 3); [| exact R | | ].
    + unfold sweep_wf, RGBA_wf. vm_compute. repeat split; discriminate.
    + vm_compute. discriminate.
    + vm_compute. discriminate.
  - split; [reflexivity|]. split; [exact S|].
    apply (Hscatter w w' (mkEvent 2 4 0) 6 2); [| exact S |].
    + unfold RGBA_wf. vm_compute. repeat split; discriminate.
    + vm_compute. discriminate.
Defined.

(** C6 as stated fails on the centre row.  On the 8 by 8 canvas a success
    and a failure that start at time 0 and run 4 seconds are both painted
    first at the pixel (2, 4), the centre row being its own mirror image
    [8 - 4]; recording the success turns that pixel of the failure from
    (45, 45, 45) to (108, 108, 255). *)
Lemma sweep_centre_row_is_shared :
  exists v v',
    generateSweepVisualization 65536 16 (mkFlags 0 8 0 1 8 8 1) = Ok v
    /\ sweep_painted math_Log2 16 v (mkEvent 0 4 0) = Ok [(2, 4); (3, 4); (4, 4); (4, 3)]
    /\ sweep_painted math_Log2 16 v (mkEvent 0 4 1) = Ok [(2, 4); (3, 4); (4, 4); (4, 5)]
    /\ sweep_Record math_Log2 16 v (mkEvent 0 4 0) = Ok v'
    /\ RGBAAt (sweep_vis v) 2 (8 - 4) = mkColor 45 45 45 255
    /\ RGBAAt (sweep_vis v') 2 (8 - 4) = mkColor 108 108 255 255.
Proof.
  destruct (generateSweepVisualization 65536 16 (mkFlags 0 8 0 1 8 8 1)) as [v| |] eqn:E;
    [| vm_compute in E; discriminate ..].
  vm_compute in E. injection E as <-.
  match goal with |- exists v v', Ok ?a = _ /\ _ => set (v := a) end.
  destruct (sweep_Record math_Log2 16 v (mkEvent 0 4 0)) as [v'| |] eqn:R;
    [| vm_compute in R; discriminate ..].
  exists v, v'. split; [reflexivity|].
  split; [vm_compute; reflexivity|]. split; [vm_compute; reflexivity|].
  split; [exact R|]. split; [vm_compute; reflexivity|].
  vm_compute in R. injection R as <-. vm_compute. reflexivity.
Qed.

(** ** The fuel does not show in a result *)

Lemma agree_Ok_map {A B : Type} (m1 m2 : outcome A) (f : A -> B) :
  agree m1 m2 -> agree (a ← m1; Ok (f a)) (a ← m2; Ok (f a)).
Proof.
  intros H. apply agree_bind; [exact H|]. intros a x y Hx Hy. congruence.
Qed.

Lemma wave_Record_agree (plot : RGBA -> Z -> Z -> Z -> Z -> Z -> RGBA)
    (n m : nat) (v : wave) (e : EventDataPoint) :
  agree (wave_Record plot n v e) (wave_Record plot m v e).
Proof.
  unfold wave_Record. destruct (Status e =? 0); simpl;
    apply while_agree; intros s; apply agree_refl_fun.
Qed.

Lemma sweep_step_agree (Log2 : float -> float) (n m : nat) (v : sweep)
    (e : EventDataPoint) (tMin : float) (s : sweep_state * float) :
  agree (sweep_step Log2 n v e tMin s) (sweep_step Log2 m v e tMin s).
Proof.
  destruct s as [st t]. unfold sweep_step.
  apply (agree_Ok_map _ _ (fun r => (fst r, (t + 1)%float))).
  apply while_agree. intros s. apply agree_refl_fun.
Qed.

Lemma sweep_Record_agree (Log2 : float -> float) (n m : nat) (v : sweep)
    (e : EventDataPoint) :
  agree (sweep_Record Log2 n v e) (sweep_Record Log2 m v e).
Proof.
  unfold sweep_Record, sweep_Record_traced.
  apply (agree_Ok_map _ _ (fun st => sweep_set_vis v (st_vis st))).
  apply (agree_Ok_map _ _ fst).
  apply while_agree. intros s. apply sweep_step_agree.
Qed.

Lemma draw_x_lines_agree (n m : nat) (w xGrid : Z) (vis : RGBA) :
  agree (draw_x_lines n w xGrid vis) (draw_x_lines m w xGrid vis).
Proof.
  unfold draw_x_lines. destruct (0 <? xGrid); [|apply agree_refl].
  apply (agree_Ok_map _ _ fst). apply while_agree. intros s. apply agree_refl_fun.
Qed.

Lemma scatter_drawGrid_agree (n m : nat) (v : scatter) (xGrid : Z) :
  agree (scatter_drawGrid n v xGrid) (scatter_drawGrid m v xGrid).
Proof.
  unfold scatter_drawGrid.
  apply agree_bind; [apply draw_x_lines_agree|]. intros vis.
  apply agree_bind; [apply while_agree; intros s; apply agree_refl_fun|].
  intros s. apply agree_refl.
Qed.

Lemma sweep_drawGrid_agree (n m : nat) (v : sweep) (xGrid : Z) :
  agree (sweep_drawGrid n v xGrid) (sweep_drawGrid m v xGrid).
Proof.
  unfold sweep_drawGrid.
  apply agree_bind; [apply draw_x_lines_agree|]. intros vis.
  apply agree_bind; [apply while_agree; intros s; apply agree_refl_fun|].
  intros s. apply agree_refl.
Qed.

(** A renderer whose [Record] gives one result, whatever fuel lets it
    return, renders one image. *)
Lemma renders_functional {V : Type} `{Visualizer V} :
  (forall n m v e, agree (Record n v e) (Record m v e)) ->
  forall v es img1 img2, renders v es img1 -> renders v es img2 -> img1 = img2.
Proof.
  intros Hagree v es img1 img2 H1. revert img2.
  induction H1 as [v | n v v1 e es img1 Hr1 H1 IH]; intros img2 H2.
  - inversion H2. reflexivity.
  - inversion H2 as [| m v0 v2 e0 es0 img0 Hr2 H2']. subst.
    rewrite (Hagree n m v e v1 v2 Hr1 Hr2) in IH. apply IH. exact H2'.
Qed.

(** A run of the pipeline with one fuel for all the calls is a run. *)
Lemma run_renders {V : Type} `{Visualizer V} (fuel : nat) (v : V)
    (es : list EventDataPoint) (img : RGBA) :
  run fuel v es = Ok img -> renders v es img.
Proof.
  revert v. induction es as [|e es IH]; intros v; simpl.
  - intros Himg. injection Himg as <-. apply renders_nil.
  - destruct (Record fuel v e) as [v'| |] eqn:Hr; simpl; try discriminate.
    intros Hrun. eapply renders_cons; [exact Hr | apply IH; exact Hrun].
Qed.

(** ** Grid lines and the termination of construction *)

Lemma while_diverges {S : Type} (I : S -> Prop) (cond : S -> bool)
    (body : S -> outcome S) :
  (forall s, I s -> cond s = true /\ exists s', body s = Ok s' /\ I s') ->
  forall n s, I s -> while n cond body s = OutOfFuel.
Proof.
  intros Hstep n. induction n as [|n IH]; intros s Hs; simpl; [reflexivity|].
  destruct (Hstep s Hs) as (-> & s' & -> & Hs'). simpl. apply IH. exact Hs'.
Qed.

Lemma while_safe {S : Type} (I : S -> Prop) (cond : S -> bool)
    (body : S -> outcome S) :
  (forall s, I s -> cond s = true -> exists s', body s = Ok s' /\ I s') ->
  forall n s, I s ->
    (exists r, while n cond body s = Ok r /\ I r) \/ while n cond body s = OutOfFuel.
Proof.
  intros Hstep n. induction n as [|n IH]; intros s Hs; simpl; [right; reflexivity|].
  destruct (cond s) eqn:Hc; [|left; exists s; split; [reflexivity | exact Hs]].
  destruct (Hstep s Hs Hc) as (s' & -> & Hs'). simpl. apply IH. exact Hs'.
Qed.

Lemma while_terminates {S : Type} (I : S -> Prop) (measure : S -> Z)
    (cond : S -> bool) (body : S -> outcome S) :
  (forall s, I s -> cond s = true ->
     0 < measure s /\ exists s', body s = Ok s' /\ I s' /\ measure s' < measure s) ->
  forall s, I s -> exists n r, while n cond body s = Ok r /\ I r.
Proof.
  intros Hstep.
  assert (H : forall k s, I s -> measure s <= Z.of_nat k ->
                exists r, while (Datatypes.S k) cond body s = Ok r /\ I r).
  { induction k as [|k IH]; intros s Hs Hm; cbn [while];
      (destruct (cond s) eqn:Hc; [|exists s; split; [reflexivity | exact Hs]]);
      destruct (Hstep s Hs Hc) as (Hpos & s' & Hb & Hs' & Hlt); [lia|].
    rewrite Hb. cbn [mbind outcome_bind]. apply IH; [exact Hs' | lia]. }
  intros s Hs. exists (Datatypes.S (Z.to_nat (measure s))).
  apply H; [exact Hs | lia].
Qed.

Lemma RGBA_Set_returns (i : RGBA) (x y : Z) (c : color_RGBA) :
  RGBA_wf i -> exists i', RGBA_Set i x y c = Ok i' /\ same_frame i i'.
Proof.
  intros Hwf. unfold RGBA_Set.
  destruct (Point_In (mkPoint x y) (Rect i)) eqn:Hin;
    [|exists i; split; [reflexivity | split; [exact Hwf | reflexivity]]].
  pose proof (PixOffset_in_buffer i x y Hwf Hin) as [H0 H4]. unfold len in H4.
  destruct (Z.leb_spec 0 (PixOffset i x y)); [|lia].
  destruct (Z.leb_spec (PixOffset i x y + 4) (Z.of_nat (length (Pix i)))); [|lia].
  simpl. eexists. split; [reflexivity|]. split.
  - repeat apply set_byte_wf. exact Hwf.
  - rewrite !set_byte_Rect. reflexivity.
Qed.

Lemma draw_line_returns (n : Z) (body : Z -> RGBA -> outcome RGBA) (vis : RGBA) :
  RGBA_wf vis ->
  (forall k i, RGBA_wf i -> exists i', body k i = Ok i' /\ same_frame i i') ->
  exists vis', for_range n body vis = Ok vis' /\ same_frame vis vis'.
Proof.
  intros Hwf Hbody. destruct (Z.le_gt_cases n 0) as [Hn | Hn].
  - rewrite for_range_nonpos by exact Hn. exists vis.
    split; [reflexivity | split; [exact Hwf | reflexivity]].
  - destruct (for_range_invariant (fun _ i => same_frame vis i) n body vis)
      as (vis' & Hv & Hf); [lia | split; [exact Hwf | reflexivity] | |].
    + intros k i _ [Hi Hr]. destruct (Hbody k i Hi) as (i' & Hb & Hi' & Hr').
      exists i'. split; [exact Hb|]. split; [exact Hi' | congruence].
    + exists vis'. split; assumption.
Qed.

Lemma drawXGridLine_returns (vis : RGBA) (x : Z) :
  RGBA_wf vis -> exists vis', drawXGridLine vis x = Ok vis' /\ same_frame vis vis'.
Proof.
  intros Hwf. unfold drawXGridLine. apply draw_line_returns; [exact Hwf|].
  intros k i Hi. apply RGBA_Set_returns. exact Hi.
Qed.

Lemma drawYGridLine_returns (vis : RGBA) (y : Z) :
  RGBA_wf vis -> exists vis', drawYGridLine vis y = Ok vis' /\ same_frame vis vis'.
Proof.
  intros Hwf. unfold drawYGridLine. apply draw_line_returns; [exact Hwf|].
  intros k i Hi. apply RGBA_Set_returns. exact Hi.
Qed.

(** The body of the vertical-line loop returns. *)
Lemma x_lines_body (w xGrid : Z) (s : RGBA * Z) :
  RGBA_wf (fst s) ->
  exists vis', (vis ← drawXGridLine (fst s) (snd s);
                Ok (vis, int64 (snd s + int_div w xGrid)))
               = Ok (vis', int64 (snd s + int_div w xGrid))
    /\ RGBA_wf vis'.
Proof.
  intros Hwf. destruct (drawXGridLine_returns (fst s) (snd s) Hwf) as (vis' & -> & Hf & _).
  exists vis'. split; [reflexivity | exact Hf].
Qed.

(** The vertical-line loop never panics on a well-formed canvas. *)
Lemma draw_x_lines_safe (fuel : nat) (w xGrid : Z) (vis : RGBA) :
  RGBA_wf vis ->
  (exists vis', draw_x_lines fuel w xGrid vis = Ok vis' /\ RGBA_wf vis')
  \/ draw_x_lines fuel w xGrid vis = OutOfFuel.
Proof.
  intros Hwf. unfold draw_x_lines.
  destruct (0 <? xGrid); [|left; exists vis; split; [reflexivity | exact Hwf]].
  destruct (while_safe (fun s : RGBA * Z => RGBA_wf (fst s))
              (fun s : RGBA * Z => snd s <? w)
              (fun s => vis ← drawXGridLine (fst s) (snd s);
                        Ok (vis, int64 (snd s + int_div w xGrid)))) with (n := fuel) (s := (vis, 0))
    as [(r & -> & Hr) | ->].
  - intros s Hs _. destruct (x_lines_body w xGrid s Hs) as (vis' & Hb & Hw').
    eexists. split; [exact Hb | exact Hw'].
  - exact Hwf.
  - left. exists (fst r). split; [reflexivity | exact Hr].
  - right. reflexivity.
Qed.

(** With [0 < w < xGrid] the step [w / xGrid] is 0 and the vertical-line
    loop never ends. *)
Lemma draw_x_lines_diverges (fuel : nat) (w xGrid : Z) (vis : RGBA) :
  RGBA_wf vis -> 0 < w < xGrid -> draw_x_lines fuel w xGrid vis = OutOfFuel.
Proof.
  intros Hwf Hw. unfold draw_x_lines.
  destruct (Z.ltb_spec 0 xGrid); [|lia].
  assert (Hstep : int_div w xGrid = 0).
  { unfold int_div. rewrite Z.quot_small by lia. reflexivity. }
  rewrite (while_diverges (fun s : RGBA * Z => RGBA_wf (fst s) /\ snd s = 0));
    [reflexivity | | split; [exact Hwf | reflexivity]].
  intros s [Hs Hx]. split.
  - rewrite Hx. apply Z.ltb_lt. lia.
  - destruct (x_lines_body w xGrid s Hs) as (vis' & Hb & Hw').
    eexists. split; [exact Hb|]. split; [exact Hw'|].
    simpl. rewrite Hx, Hstep. reflexivity.
Qed.

(** The vertical-line loop ends when it is not entered or its step is
    positive (the counter staying an int64). *)
Lemma draw_x_lines_terminates (w xGrid : Z) (vis : RGBA) :
  RGBA_wf vis ->
  xGrid <= 0 \/ w <= 0 \/ (1 <= int_div w xGrid /\ w + int_div w xGrid <= max_int64) ->
  exists fuel vis', draw_x_lines fuel w xGrid vis = Ok vis' /\ RGBA_wf vis'.
Proof.
  intros Hwf Hcase. unfold draw_x_lines.
  destruct (Z.ltb_spec 0 xGrid) as [Hx | Hx];
    [|exists 0%nat, vis; split; [reflexivity | exact Hwf]].
  destruct Hcase as [Hc | [Hc | [Hstep Hmax]]]; [lia | |].
  - exists 1%nat, vis. simpl. destruct (Z.ltb_spec 0 w); [lia|].
    split; [reflexivity | exact Hwf].
  - destruct (while_terminates (fun s : RGBA * Z => RGBA_wf (fst s) /\ 0 <= snd s)
                (fun s => w - snd s) (fun s : RGBA * Z => snd s <? w)
                (fun s => vis ← drawXGridLine (fst s) (snd s);
                          Ok (vis, int64 (snd s + int_div w xGrid)))) with (s := (vis, 0))
      as (n & r & Hn & Hr & _).
    + intros s [Hs H0] Hc. apply Z.ltb_lt in Hc. split; [lia|].
      destruct (x_lines_body w xGrid s Hs) as (vis' & Hb & Hw').
      eexists. split; [exact Hb|]. simpl.
      rewrite int64_id by (unfold min_int64, max_int64 in *; lia).
      split; [split; [exact Hw' | lia] | lia].
    + split; [exact Hwf | simpl; lia].
    + exists n, (fst r). rewrite Hn. split; [reflexivity | exact Hr].
Qed.

Lemma int_div_2 (h : Z) :
  min_int64 <= h <= max_int64 ->
  int_div h 2 = Z.quot h 2 /\ (0 < h -> 0 <= int_div h 2 < h) /\ (h <= 0 -> h <= int_div h 2).
Proof.
  intros Hh. unfold int_div.
  pose proof (Z.quot_rem' h 2) as Hq. pose proof (Z.rem_bound_abs h 2 ltac:(lia)) as Hr.
  assert (Hid : int64 (Z.quot h 2) = Z.quot h 2).
  { apply int64_id. unfold min_int64, max_int64 in *. lia. }
  rewrite Hid. split; [reflexivity|].
  split; intros Hs.
  - pose proof (Z.rem_nonneg h 2 ltac:(lia) ltac:(lia)). lia.
  - pose proof (Z.rem_nonpos h 2 ltac:(lia) Hs). lia.
Qed.

Section GridLoops.
Variable h : Z.
Variable yLog2 : float.
Hypothesis Hh : min_int64 <= h <= max_int64.

Lemma scatter_y_body_returns (s : RGBA * Z) :
  RGBA_wf (fst s) ->
  exists vis', (scatter_y_body h yLog2) s = Ok (vis', int64 (snd s - y_step h yLog2))
    /\ RGBA_wf vis'.
Proof.
  intros Hwf. unfold scatter_y_body.
  destruct (drawYGridLine_returns (fst s) (snd s) Hwf) as (vis' & -> & Hf & _).
  exists vis'. split; [reflexivity | exact Hf].
Qed.

Lemma sweep_y_body_returns (s : RGBA * Z) :
  RGBA_wf (fst s) ->
  exists vis', (sweep_y_body h yLog2) s = Ok (vis', int64 (snd s + y_step h yLog2))
    /\ RGBA_wf vis'.
Proof.
  intros Hwf. unfold sweep_y_body.
  destruct (drawYGridLine_returns (fst s) (snd s) Hwf) as (vis1 & -> & Hf1 & _).
  cbn [mbind outcome_bind].
  destruct (drawYGridLine_returns vis1 (int64 (h - snd s)) Hf1) as (vis2 & -> & Hf2 & _).
  exists vis2. split; [reflexivity | exact Hf2].
Qed.

(** With a step of 0 the horizontal-line loops, once entered, never end. *)
Lemma scatter_y_loop_diverges (fuel : nat) (vis : RGBA) :
  RGBA_wf vis -> 0 < h -> y_step h yLog2 = 0 ->
  while fuel (fun s : RGBA * Z => 0 <? snd s) (scatter_y_body h yLog2) (vis, h) = OutOfFuel.
Proof.
  intros Hwf Hpos Hstep.
  apply (while_diverges (fun s : RGBA * Z => RGBA_wf (fst s) /\ snd s = h));
    [|split; [exact Hwf | reflexivity]].
  intros s [Hs Hy]. split; [rewrite Hy; apply Z.ltb_lt; exact Hpos|].
  destruct (scatter_y_body_returns s Hs) as (vis' & Hb & Hw').
  eexists. split; [exact Hb|]. split; [exact Hw'|]. simpl.
  rewrite Hy, Hstep, Z.sub_0_r. apply int64_id. exact Hh.
Qed.

Lemma sweep_y_loop_diverges (fuel : nat) (vis : RGBA) :
  RGBA_wf vis -> 0 < h -> y_step h yLog2 = 0 ->
  while fuel (fun s : RGBA * Z => snd s <? h) (sweep_y_body h yLog2) (vis, int_div h 2) = OutOfFuel.
Proof.
  intros Hwf Hpos Hstep. destruct (int_div_2 h Hh) as (_ & Hhalf & _).
  specialize (Hhalf Hpos).
  apply (while_diverges (fun s : RGBA * Z => RGBA_wf (fst s) /\ snd s = int_div h 2));
    [|split; [exact Hwf | reflexivity]].
  intros s [Hs Hy]. split; [rewrite Hy; apply Z.ltb_lt; lia|].
  destruct (sweep_y_body_returns s Hs) as (vis' & Hb & Hw').
  eexists. split; [exact Hb|]. split; [exact Hw'|]. simpl.
  rewrite Hy, Hstep, Z.add_0_r. apply int64_id. unfold min_int64, max_int64 in *. lia.
Qed.

(** They end when they are not entered or their step is positive. *)
Lemma scatter_y_loop_terminates (vis : RGBA) :
  RGBA_wf vis -> h <= 0 \/ 1 <= y_step h yLog2 ->
  exists fuel r, while fuel (fun s : RGBA * Z => 0 <? snd s) (scatter_y_body h yLog2) (vis, h) = Ok r
    /\ RGBA_wf (fst r).
Proof.
  intros Hwf Hcase.
  destruct (while_terminates (fun s : RGBA * Z => RGBA_wf (fst s) /\ snd s <= h
                                                   /\ (0 < h -> 1 <= y_step h yLog2))
              (fun s => snd s) (fun s : RGBA * Z => 0 <? snd s) (scatter_y_body h yLog2))
    with (s := (vis, h)) as (n & r & Hn & Hr & _).
  - intros s (Hs & Hy & Hst) Hc. apply Z.ltb_lt in Hc. split; [exact Hc|].
    destruct (scatter_y_body_returns s Hs) as (vis' & Hb & Hw').
    eexists. split; [exact Hb|]. simpl.
    pose proof (int_of_float64_range (float64_of_int h / yLog2)) as Hr.
    fold (y_step h yLog2) in Hr. specialize (Hst ltac:(lia)).
    rewrite int64_id by (unfold min_int64, max_int64 in *; lia).
    split; [split; [exact Hw' | split; [lia | intros _; exact Hst]] | lia].
  - simpl. split; [exact Hwf|]. split; [lia|]. intros Hpos. destruct Hcase; [lia | assumption].
  - exists n, r. split; assumption.
Qed.

Lemma sweep_y_loop_terminates (vis : RGBA) :
  RGBA_wf vis ->
  h <= 0 \/ (1 <= y_step h yLog2 /\ h + y_step h yLog2 <= max_int64) ->
  exists fuel r, while fuel (fun s : RGBA * Z => snd s <? h) (sweep_y_body h yLog2) (vis, int_div h 2) = Ok r
    /\ RGBA_wf (fst r).
Proof.
  intros Hwf Hcase. destruct (int_div_2 h Hh) as (_ & Hhalf & Hneg).
  destruct (while_terminates (fun s : RGBA * Z => RGBA_wf (fst s) /\ min_int64 <= snd s
                 /\ (0 < h -> 1 <= y_step h yLog2 /\ h + y_step h yLog2 <= max_int64)
                 /\ (h <= 0 -> h <= snd s))
              (fun s => h - snd s) (fun s : RGBA * Z => snd s <? h) (sweep_y_body h yLog2))
    with (s := (vis, int_div h 2)) as (n & r & Hn & Hr & _).
  - intros s (Hs & Hy & Hst & Hnp) Hc. apply Z.ltb_lt in Hc.
    assert (Hpos : 0 < h) by lia. specialize (Hst Hpos). split; [lia|].
    destruct (sweep_y_body_returns s Hs) as (vis' & Hb & Hw').
    eexists. split; [exact Hb|]. simpl.
    rewrite int64_id by (unfold min_int64, max_int64 in *; lia).
    split; [|lia]. split; [exact Hw'|]. split; [lia|]. split; [intros _; exact Hst | lia].
  - simpl. split; [exact Hwf|]. split; [apply int64_range|].
    split; [intros Hpos; destruct Hcase; [lia | assumption] | exact Hneg].
  - exists n, r. split; assumption.
Qed.
End GridLoops.

Lemma draw_x_lines_fuel_mono (n m : nat) (w xGrid : Z) (vis vis' : RGBA) :
  (n <= m)%nat -> draw_x_lines n w xGrid vis = Ok vis' ->
  draw_x_lines m w xGrid vis = Ok vis'.
Proof.
  unfold draw_x_lines. intros Hle. destruct (0 <? xGrid); [|trivial].
  destruct (while n _ _ _) as [r| |] eqn:Hr; simpl; try discriminate.
  rewrite (while_fuel_mono _ _ n m _ r Hle Hr). trivial.
Qed.

Lemma scatter_drawGrid_diverges (fuel : nat) (v : scatter) (xGrid : Z) :
  RGBA_wf (scatter_vis v) -> min_int64 <= scatter_h v <= max_int64 ->
  0 < scatter_w v < xGrid
  \/ (0 < scatter_h v /\ y_step (scatter_h v) (scatter_yLog2 v) = 0) ->
  scatter_drawGrid fuel v xGrid = OutOfFuel.
Proof.
  intros Hwf Hh Hcase. unfold scatter_drawGrid.
  destruct Hcase as [Hx | [Hpos Hstep]].
  - rewrite draw_x_lines_diverges by assumption. reflexivity.
  - destruct (draw_x_lines_safe fuel (scatter_w v) xGrid (scatter_vis v) Hwf)
      as [(vis1 & -> & Hw1) | ->]; [|reflexivity].
    cbn [mbind outcome_bind].
    pose proof (scatter_y_loop_diverges (scatter_h v) (scatter_yLog2 v) Hh fuel vis1
                  Hw1 Hpos Hstep) as Hd.
    unfold scatter_y_body in Hd. rewrite Hd. reflexivity.
Qed.

Lemma sweep_drawGrid_diverges (fuel : nat) (v : sweep) (xGrid : Z) :
  RGBA_wf (sweep_vis v) -> min_int64 <= sweep_h v <= max_int64 ->
  0 < sweep_w v < xGrid
  \/ (0 < sweep_h v /\ y_step (sweep_h v) (sweep_yLog2 v) = 0) ->
  sweep_drawGrid fuel v xGrid = OutOfFuel.
Proof.
  intros Hwf Hh Hcase. unfold sweep_drawGrid.
  destruct Hcase as [Hx | [Hpos Hstep]].
  - rewrite draw_x_lines_diverges by assumption. reflexivity.
  - destruct (draw_x_lines_safe fuel (sweep_w v) xGrid (sweep_vis v) Hwf)
      as [(vis1 & -> & Hw1) | ->]; [|reflexivity].
    cbn [mbind outcome_bind].
    pose proof (sweep_y_loop_diverges (sweep_h v) (sweep_yLog2 v) Hh fuel vis1
                  Hw1 Hpos Hstep) as Hd.
    unfold sweep_y_body in Hd. rewrite Hd. reflexivity.
Qed.

Lemma scatter_drawGrid_terminates (v : scatter) (xGrid : Z) :
  RGBA_wf (scatter_vis v) -> min_int64 <= scatter_h v <= max_int64 ->
  xGrid <= 0 \/ scatter_w v <= 0
  \/ (1 <= int_div (scatter_w v) xGrid
      /\ scatter_w v + int_div (scatter_w v) xGrid <= max_int64) ->
  scatter_h v <= 0 \/ 1 <= y_step (scatter_h v) (scatter_yLog2 v) ->
  exists fuel v', scatter_drawGrid fuel v xGrid = Ok v'.
Proof.
  intros Hwf Hh Hx Hy.
  destruct (draw_x_lines_terminates (scatter_w v) xGrid (scatter_vis v) Hwf Hx)
    as (n1 & vis1 & H1 & Hw1).
  destruct (scatter_y_loop_terminates (scatter_h v) (scatter_yLog2 v) Hh vis1 Hw1 Hy)
    as (n2 & r & H2 & Hw2).
  destruct (drawYGridLine_returns (fst r) 0 Hw2) as (vis3 & H3 & _).
  exists (Nat.max n1 n2). eexists. unfold scatter_drawGrid.
  rewrite (draw_x_lines_fuel_mono n1 (Nat.max n1 n2) _ _ _ vis1 ltac:(lia) H1).
  cbn [mbind outcome_bind].
  unfold scatter_y_body in H2.
  rewrite (while_fuel_mono _ _ n2 (Nat.max n1 n2) _ r ltac:(lia) H2).
  cbn [mbind outcome_bind]. rewrite H3. reflexivity.
Qed.

Lemma sweep_drawGrid_terminates (v : sweep) (xGrid : Z) :
  RGBA_wf (sweep_vis v) -> min_int64 <= sweep_h v <= max_int64 ->
  xGrid <= 0 \/ sweep_w v <= 0
  \/ (1 <= int_div (sweep_w v) xGrid
      /\ sweep_w v + int_div (sweep_w v) xGrid <= max_int64) ->
  sweep_h v <= 0
  \/ (1 <= y_step (sweep_h v) (sweep_yLog2 v)
      /\ sweep_h v + y_step (sweep_h v) (sweep_yLog2 v) <= max_int64) ->
  exists fuel v', sweep_drawGrid fuel v xGrid = Ok v'.
Proof.
  intros Hwf Hh Hx Hy.
  destruct (draw_x_lines_terminates (sweep_w v) xGrid (sweep_vis v) Hwf Hx)
    as (n1 & vis1 & H1 & Hw1).
  destruct (sweep_y_loop_terminates (sweep_h v) (sweep_yLog2 v) Hh vis1 Hw1 Hy)
    as (n2 & r & H2 & Hw2).
  destruct (drawYGridLine_returns (fst r) 0 Hw2) as (vis3 & H3 & _).
  exists (Nat.max n1 n2). eexists. unfold sweep_drawGrid.
  rewrite (draw_x_lines_fuel_mono n1 (Nat.max n1 n2) _ _ _ vis1 ltac:(lia) H1).
  cbn [mbind outcome_bind].
  unfold sweep_y_body in H2.
  rewrite (while_fuel_mono _ _ n2 (Nat.max n1 n2) _ r ltac:(lia) H2).
  cbn [mbind outcome_bind]. rewrite H3. reflexivity.
Qed.

Lemma Dx_image_Rect (width height : Z) :
  Dx (image_Rect 0 0 width height) = Z.abs width
  /\ Dy (image_Rect 0 0 width height) = Z.abs height.
Proof.
  unfold image_Rect, Dx, Dy.
  destruct (Z.ltb_spec width 0); destruct (Z.ltb_spec height 0); simpl; lia.
Qed.

Lemma int64_abs (z : Z) :
  min_int64 <= z <= max_int64 ->
  (Z.abs z < 2 ^ 63 /\ int64 (Z.abs z) = Z.abs z)
  \/ (Z.abs z = 2 ^ 63 /\ int64 (Z.abs z) = - 2 ^ 63).
Proof.
  intros Hz. unfold min_int64, max_int64 in Hz.
  destruct (Z.eq_dec z (- 2 ^ 63)) as [-> | Hne].
  - right. split; reflexivity.
  - left. split; [lia|]. apply int64_id. unfold min_int64, max_int64. lia.
Qed.

Lemma mul3NonNeg_spec (x y z : Z) :
  (0 <= x /\ 0 <= y /\ 0 <= z /\ x * y < 2 ^ 64 /\ x * y * z < 2 ^ 63
   /\ mul3NonNeg x y z = x * y * z)
  \/ (mul3NonNeg x y z = -1
      /\ (x < 0 \/ y < 0 \/ z < 0 \/ 2 ^ 64 <= x * y \/ 2 ^ 63 <= x * y * z)).
Proof.
  unfold mul3NonNeg.
  destruct (Z.ltb_spec x 0); [right; split; [reflexivity | lia]|].
  destruct (Z.ltb_spec y 0); [right; split; [reflexivity | lia]|].
  destruct (Z.ltb_spec z 0); [right; split; [reflexivity | lia]|].
  cbn [orb].
  destruct (Z.leb_spec (2 ^ 64) (x * y)); [right; split; [reflexivity | lia]|].
  destruct (Z.leb_spec (2 ^ 64) (x * y * z)); [right; split; [reflexivity | lia]|].
  destruct (Z.leb_spec (2 ^ 63) (x * y * z)); [right; split; [reflexivity | lia]|].
  left. repeat split; assumption.
Qed.

(** [initializeVisualization] returns the canvas when it can be allocated,
    and panics when it cannot. *)
Lemma initializeVisualization_allocatable (avail width height : Z) :
  min_int64 <= width <= max_int64 -> min_int64 <= height <= max_int64 ->
  (allocatable avail width height ->
     initializeVisualization avail width height = Ok (fresh_canvas width height))
  /\ (~ allocatable avail width height ->
     initializeVisualization avail width height = Panic).
Proof.
  intros Hw Hh. unfold initializeVisualization, allocatable.
  destruct (Dx_image_Rect width height) as [-> ->].
  cbv zeta.
  set (dx := int64 (Z.abs width)). set (dy := int64 (Z.abs height)).
  set (p := 4 * Z.abs width * Z.abs height).
  assert (Hp : 0 <= p /\ (1 <= Z.abs height -> 4 * Z.abs width <= p)) by (unfold p; nia).
  assert (H63 : 2 ^ 64 = 2 * 2 ^ 63) by reflexivity.
  assert (H62 : 2 ^ 63 = 2 * 2 ^ 62) by reflexivity.
  destruct (mul3NonNeg_spec 4 dx dy) as [(_ & Hdx & Hdy & H4 & H3 & ->) | [-> Hbad]].
  - (* the length was computed: no side wrapped *)
    destruct (int64_abs width Hw) as [[Hw1 Hwe] | [_ Hwe]];
      [|fold dx in Hwe; lia].
    destruct (int64_abs height Hh) as [[Hh1 Hhe] | [_ Hhe]];
      [|fold dy in Hhe; lia].
    fold dx in Hwe. fold dy in Hhe. rewrite Hwe, Hhe in *. fold p in H3 |- *.
    replace (p <? 0) with false by (symmetry; apply Z.ltb_ge; lia).
    destruct (Z.ltb_spec maxAlloc p) as [Hmax | Hmax].
    { split; [intros (_ & _ & _ & Ha & _); lia | reflexivity]. }
    destruct (Z.ltb_spec (Z.max 0 avail) p) as [Hav | Hav].
    + split; [intros (_ & _ & _ & _ & Ha); lia | reflexivity].
    + split; [reflexivity|]. intros Hn. exfalso. apply Hn. lia.
  - split; [|reflexivity].
    intros (Hw62 & Hh63 & Hp63 & _). exfalso.
    destruct (int64_abs width Hw) as [[_ Hwe] | [Hwe _]]; [|lia].
    destruct (int64_abs height Hh) as [[_ Hhe] | [Hhe _]]; [|lia].
    fold dx in Hwe. fold dy in Hhe. rewrite Hwe, Hhe in Hbad. fold p in Hbad. lia.
Qed.

Lemma allocatable_dec (avail width height : Z) :
  allocatable avail width height \/ ~ allocatable avail width height.
Proof.
  unfold allocatable.
  destruct (Z.lt_ge_cases (Z.abs width) (2 ^ 62)); [|right; lia].
  destruct (Z.lt_ge_cases (Z.abs height) (2 ^ 63)); [|right; lia].
  destruct (Z.lt_ge_cases (4 * Z.abs width * Z.abs height) (2 ^ 63)); [|right; lia].
  destruct (Z.le_gt_cases (4 * Z.abs width * Z.abs height) maxAlloc); [|right; lia].
  destruct (Z.le_gt_cases (4 * Z.abs width * Z.abs height) (Z.max 0 avail));
    [left | right]; lia.
Qed.

(** A canvas that is returned could be allocated. *)
Lemma initializeVisualization_Ok_allocatable (avail width height : Z) (vis : RGBA) :
  min_int64 <= width <= max_int64 -> min_int64 <= height <= max_int64 ->
  initializeVisualization avail width height = Ok vis ->
  allocatable avail width height.
Proof.
  intros Hw Hh Hv.
  destruct (allocatable_dec avail width height) as [Hal | Hno]; [exact Hal|].
  destruct (initializeVisualization_allocatable avail width height Hw Hh) as [_ Hp].
  rewrite (Hp Hno) in Hv. discriminate.
Qed.

(** The stride [4 * r.Dx()] of a canvas with a row is the one Go computes
    on [int]: it wraps only on a canvas without rows, where no pixel offset
    is computed from it. *)
Lemma initializeVisualization_Stride (avail width height : Z) (vis : RGBA) :
  min_int64 <= width <= max_int64 -> min_int64 <= height <= max_int64 ->
  initializeVisualization avail width height = Ok vis -> height <> 0 ->
  Stride vis = int64 (4 * int64 (Dx (Rect vis))).
Proof.
  intros Hw Hh Hv Hne.
  destruct (initializeVisualization_Ok_allocatable _ _ _ _ Hw Hh Hv)
    as (Hw62 & Hh63 & Hp & _).
  apply initializeVisualization_Ok in Hv. subst vis.
  unfold fresh_canvas. cbn [Stride Rect].
  destruct (Dx_image_Rect width height) as [-> _].
  assert (H62 : 2 ^ 63 = 2 * 2 ^ 62) by reflexivity.
  rewrite (int64_id (Z.abs width)) by (unfold min_int64, max_int64; lia).
  assert (4 * Z.abs width < 2 ^ 63) by nia.
  rewrite int64_id by (unfold min_int64, max_int64; lia). reflexivity.
Qed.

Lemma int_div_le (w xGrid : Z) :
  0 < w < 2 ^ 62 -> 0 < xGrid -> int_div w xGrid <= w.
Proof.
  intros Hw Hx. unfold int_div.
  assert (Hq : 0 <= Z.quot w xGrid <= w).
  { rewrite Z.quot_div_nonneg by lia. split; [apply Z.div_pos; lia|].
    apply Z.div_le_upper_bound; [lia | nia]. }
  rewrite int64_id; [lia | unfold min_int64, max_int64; lia].
Qed.

(** C10, as it holds.  [NewScatter] and [NewSweep] allocate the canvas
    first: when it cannot be allocated ([4 * width * height] does not fit an
    [int], or is more than [make] or the machine can give), they panic
    before any grid loop.  When it can, they return if each grid loop is either not
    entered (the vertical one with [xGrid <= 0] or [width <= 0], the
    horizontal one with [height <= 0]) or has a step of at least 1, the
    counter of the sweep's horizontal loop staying an int64; and they never
    return when [0 < width < xGrid] (the vertical step [width / xGrid] is
    0), nor when [0 < height] and the horizontal step
    [int(float64(height) / yLog2)] is 0. *)
Theorem grid_construction_termination (avail width height minTime maxTime : Z)
    (yLog2 : float) (colorSteps xGrid : Z) :
  min_int64 <= width <= max_int64 -> min_int64 <= height <= max_int64 ->
  (~ allocatable avail width height ->
     forall fuel,
       NewScatter avail fuel width height minTime maxTime yLog2 colorSteps xGrid = Panic
       /\ NewSweep avail fuel width height minTime maxTime yLog2 colorSteps xGrid = Panic)
  /\ (allocatable avail width height ->
      (0 < width < xGrid \/ (0 < height /\ y_step height yLog2 = 0) ->
         forall fuel,
           NewScatter avail fuel width height minTime maxTime yLog2 colorSteps xGrid
           = OutOfFuel
           /\ NewSweep avail fuel width height minTime maxTime yLog2 colorSteps xGrid
              = OutOfFuel)
      /\ (xGrid <= 0 \/ width <= 0 \/ 1 <= int_div width xGrid ->
          height <= 0
          \/ (1 <= y_step height yLog2 /\ height + y_step height yLog2 <= max_int64) ->
          (exists fuel v,
             NewScatter avail fuel width height minTime maxTime yLog2 colorSteps xGrid
             = Ok v)
          /\ (exists fuel v,
             NewSweep avail fuel width height minTime maxTime yLog2 colorSteps xGrid
             = Ok v))).
Proof.
  intros Hw Hh.
  destruct (initializeVisualization_allocatable avail width height Hw Hh) as [Hok Hpanic].
  pose proof (fresh_canvas_wf width height) as Hwf. split.
  - intros Hno fuel. unfold NewScatter, NewSweep. rewrite (Hpanic Hno).
    split; reflexivity.
  - intros Hal. unfold NewScatter, NewSweep. rewrite (Hok Hal).
    cbn [mbind outcome_bind]. split.
    + intros Hcase fuel. split.
      * apply scatter_drawGrid_diverges; assumption.
      * apply sweep_drawGrid_diverges; assumption.
    + intros Hx Hy.
      assert (Hx' : xGrid <= 0 \/ width <= 0
                    \/ (1 <= int_div width xGrid
                        /\ width + int_div width xGrid <= max_int64)).
      { destruct Hx as [Hx | [Hx | Hx]]; [left; exact Hx | right; left; exact Hx |].
        destruct (Z.le_gt_cases xGrid 0) as [Hg | Hg]; [left; exact Hg|].
        destruct (Z.le_gt_cases width 0) as [Hw0 | Hw0]; [right; left; exact Hw0|].
        right. right. split; [exact Hx|].
        destruct Hal as (Hw62 & _). rewrite Z.abs_eq in Hw62 by lia.
        pose proof (int_div_le width xGrid ltac:(lia) Hg).
        unfold max_int64. lia. }
      split.
      * apply scatter_drawGrid_terminates; try assumption. simpl. tauto.
      * apply sweep_drawGrid_terminates; assumption.
Qed.

Lemma grid_construction_termination_witness :
  (forall fuel,
      NewScatter 65536 fuel 8 8 0 8 200 1 0 = OutOfFuel
      /\ NewSweep 65536 fuel 8 8 0 8 200 1 0 = OutOfFuel)
  /\ (forall fuel,
      NewScatter 65536 fuel 8 8 0 8 1 1 9 = OutOfFuel
      /\ NewSweep 65536 fuel 8 8 0 8 1 1 9 = OutOfFuel)
  /\ (exists fuel v, NewScatter 65536 fuel 8 8 0 8 1 1 4 = Ok v)
  /\ (exists fuel v, NewSweep 65536 fuel 8 8 0 8 1 1 4 = Ok v)
  /\ (forall fuel,
      NewScatter (2 ^ 62) fuel (2 ^ 31) (2 ^ 31) 0 8 1 1 4 = Panic
      /\ NewSweep (2 ^ 62) fuel (2 ^ 31) (2 ^ 31) 0 8 1 1 4 = Panic)
  /\ (forall fuel,
      NewScatter (2 ^ 62) fuel 1 (2 ^ 62) 0 8 1 1 0 = Panic
      /\ NewSweep (2 ^ 62) fuel 1 (2 ^ 62) 0 8 1 1 0 = Panic)
  /\ (forall fuel,
      NewScatter (2 ^ 62) fuel (2 ^ 24) (2 ^ 24) 0 8 1 1 4 = Panic
      /\ NewSweep (2 ^ 62) fuel (2 ^ 24) (2 ^ 24) 0 8 1 1 4 = Panic)
  /\ (forall fuel,
      NewScatter 65536 fuel 1024 1024 0 8 1 1 4 = Panic
      /\ NewSweep 65536 fuel 1024 1024 0 8 1 1 4 = Panic).
Proof.
  assert (H8 : min_int64 <= 8 <= max_int64) by (unfold min_int64, max_int64; lia).
  assert (Hal : allocatable 65536 8 8) by (unfold allocatable, maxAlloc; simpl; lia).
  split; [|split; [|split; [|split; [|split; [|split; [|split]]]]]].
  - destruct (grid_construction_termination 65536 8 8 0 8 200 1 0 H8 H8) as [_ H].
    destruct (H Hal) as [Hd _]. apply Hd. right. split; [lia | vm_compute; reflexivity].
  - destruct (grid_construction_termination 65536 8 8 0 8 1 1 9 H8 H8) as [_ H].
    destruct (H Hal) as [Hd _]. apply Hd. left. lia.
  - destruct (grid_construction_termination 65536 8 8 0 8 1 1 4 H8 H8) as [_ H].
    destruct (H Hal) as [_ Ht]. apply Ht.
    + right. right. vm_compute. discriminate.
    + right. vm_compute. split; discriminate.
  - destruct (grid_construction_termination 65536 8 8 0 8 1 1 4 H8 H8) as [_ H].
    destruct (H Hal) as [_ Ht]. apply Ht.
    + right. right. vm_compute. discriminate.
    + right. vm_compute. split; discriminate.
  - destruct (grid_construction_termination (2 ^ 62) (2 ^ 31) (2 ^ 31) 0 8 1 1 4)
      as [Hp _]; [unfold min_int64, max_int64; lia .. |].
    apply Hp. unfold allocatable, maxAlloc. simpl. lia.
  - destruct (grid_construction_termination (2 ^ 62) 1 (2 ^ 62) 0 8 1 1 0)
      as [Hp _]; [unfold min_int64, max_int64; lia .. |].
    apply Hp. unfold allocatable, maxAlloc. simpl. lia.
  - destruct (grid_construction_termination (2 ^ 62) (2 ^ 24) (2 ^ 24) 0 8 1 1 4)
      as [Hp _]; [unfold min_int64, max_int64; lia .. |].
    apply Hp. unfold allocatable, maxAlloc. simpl. lia.
  - destruct (grid_construction_termination 65536 1024 1024 0 8 1 1 4)
      as [Hp _]; [unfold min_int64, max_int64; lia .. |].
    apply Hp. unfold allocatable, maxAlloc. simpl. lia.
Defined.

(** C10 as stated fails where a loop is not entered: with width 0 the
    vertical step [0 / 4] is 0, with height 0 the horizontal step
    [int(0 / 1)] is 0 (and [yLog2 = 1 > height]), and construction
    returns. *)
Lemma construction_returns_with_zero_step :
  int_div 0 4 = 0
  /\ (exists v, NewScatter 65536 16 0 8 0 8 1 1 4 = Ok v)
  /\ (exists v, NewSweep 65536 16 0 8 0 8 1 1 4 = Ok v)
  /\ y_step 0 1 = 0
  /\ (exists v, NewScatter 65536 16 8 0 0 8 1 1 0 = Ok v)
  /\ (exists v, NewSweep 65536 16 8 0 0 8 1 1 0 = Ok v).
Proof.
  split; [reflexivity|].
  split; [eexists; vm_compute; reflexivity|].
  split; [eexists; vm_compute; reflexivity|].
  split; [vm_compute; reflexivity|].
  split; eexists; vm_compute; reflexivity.
Qed.

(** ** Rounding in binary64 *)

Lemma digits2_pos_bounds (p : positive) :
  2 ^ (Z.pos (digits2_pos p) - 1) <= Z.pos p < 2 ^ Z.pos (digits2_pos p).
Proof.
  induction p as [p IH | p IH |]; simpl digits2_pos.
  - rewrite Pos2Z.inj_succ.
    replace (Z.succ (Z.pos (digits2_pos p)) - 1) with (Z.succ (Z.pos (digits2_pos p) - 1)) by lia.
    rewrite !Z.pow_succ_r by lia. lia.
  - rewrite Pos2Z.inj_succ.
    replace (Z.succ (Z.pos (digits2_pos p)) - 1) with (Z.succ (Z.pos (digits2_pos p) - 1)) by lia.
    rewrite !Z.pow_succ_r by lia. lia.
  - simpl. lia.
Qed.

Lemma shr_1_m (mrs : shr_record) :
  0 <= shr_m mrs -> shr_m (shr_1 mrs) = shr_m mrs / 2.
Proof.
  destruct mrs as [m r s]. simpl. intros Hm.
  destruct m as [|p|p]; [reflexivity | | lia].
  destruct p as [p|p|]; simpl.
  - rewrite Pos2Z.inj_xI. apply Z.div_unique with 1; lia.
  - rewrite Pos2Z.inj_xO. apply Z.div_unique with 0; lia.
  - reflexivity.
Qed.

Lemma iter_shr_1_m (p : positive) (mrs : shr_record) :
  0 <= shr_m mrs ->
  shr_m (SpecFloat.iter_pos shr_1 p mrs) = shr_m mrs / 2 ^ Z.pos p.
Proof.
  revert mrs. induction p as [p IH | p IH |]; intros mrs Hm; simpl SpecFloat.iter_pos.
  - assert (H1 : 0 <= shr_m (shr_1 mrs)).
    { rewrite shr_1_m by exact Hm. apply Z.div_pos; lia. }
    assert (H2 : 0 <= shr_m (SpecFloat.iter_pos shr_1 p (shr_1 mrs))).
    { rewrite IH by exact H1. apply Z.div_pos; [exact H1 | lia]. }
    rewrite IH by exact H2. rewrite IH by exact H1. rewrite shr_1_m by exact Hm.
    rewrite !Z.div_div by lia. f_equal.
    change (Z.pos p~1) with (2 * Z.pos p + 1).
    replace (2 * Z.pos p + 1) with (1 + Z.pos p + Z.pos p) by lia.
    rewrite !Z.pow_add_r by lia. change (2 ^ 1) with 2. lia.
  - assert (H2 : 0 <= shr_m (SpecFloat.iter_pos shr_1 p mrs)).
    { rewrite IH by exact Hm. apply Z.div_pos; [exact Hm | lia]. }
    rewrite IH by exact H2. rewrite IH by exact Hm.
    rewrite Z.div_div by lia. f_equal.
    change (Z.pos p~0) with (2 * Z.pos p).
    replace (2 * Z.pos p) with (Z.pos p + Z.pos p) by lia.
    rewrite Z.pow_add_r by lia. reflexivity.
  - rewrite shr_1_m by exact Hm. reflexivity.
Qed.

Lemma shr_record_of_loc_m (m : Z) (l : location) : shr_m (shr_record_of_loc m l) = m.
Proof. destruct l as [|[| |]]; reflexivity. Qed.

Lemma fexp_binary64 (x : Z) : fexp prec emax x = Z.max (x - 53) (-1074).
Proof. reflexivity. Qed.

(** The right shift of rounding: either nothing moves, or the mantissa is
    divided by the power of two that brings the exponent to [fexp]; either
    way the new exponent is at least [-1074]. *)
Lemma shr_fexp_m (m e : Z) (l : location) :
  0 <= m ->
  let '(mrs, e') := shr_fexp prec emax m e l in
  -1074 <= e' /\
  ((e' = e /\ shr_m mrs = m)
   \/ (e < e' /\ e' = Z.max (Zdigits2 m + e - 53) (-1074)
       /\ shr_m mrs = m / 2 ^ (e' - e))).
Proof.
  intros Hm. unfold shr_fexp, shr. rewrite fexp_binary64.
  destruct (Z.max (Zdigits2 m + e - 53) (-1074) - e) as [|p|p] eqn:Hk.
  - split; [lia|]. left. split; [reflexivity | apply shr_record_of_loc_m].
  - split; [lia|]. right. split; [lia|]. split; [lia|].
    rewrite iter_shr_1_m by (rewrite shr_record_of_loc_m; exact Hm).
    rewrite shr_record_of_loc_m. f_equal. f_equal. lia.
  - split; [lia|]. left. split; [reflexivity | apply shr_record_of_loc_m].
Qed.

Lemma pow2_pos (k : Z) : 0 <= k -> 0 < 2 ^ k.
Proof. intros Hk. apply Z.pow_pos_nonneg; lia. Qed.

Lemma pow2_split (a b : Z) : 0 <= a -> 0 <= b -> 2 ^ (a + b) = 2 ^ a * 2 ^ b.
Proof. intros Ha Hb. apply Z.pow_add_r; assumption. Qed.

(** The right shift of rounding keeps a value above an integer [c] of at
    most 53 bits above it. *)
Lemma shr_fexp_ge (c m e : Z) (l : location) :
  0 <= c <= 2 ^ 52 -> 0 <= m -> -1074 <= e -> c * 2 ^ 1074 <= scaled m e ->
  let '(mrs, e') := shr_fexp prec emax m e l in
  -1074 <= e' /\ 0 <= shr_m mrs /\ c * 2 ^ 1074 <= scaled (shr_m mrs) e'.
Proof.
  intros Hc Hm He Hle. pose proof (shr_fexp_m m e l Hm) as H.
  destruct (shr_fexp prec emax m e l) as [mrs e'].
  destruct H as [He' [[-> ->] | (Hlt & Hfexp & ->)]]; [repeat split; assumption|].
  split; [exact He'|].
  assert (Hk : 0 < 2 ^ (e' - e)) by (apply pow2_pos; lia).
  split; [apply Z.div_pos; assumption|].
  unfold scaled in *.
  destruct (Z.le_gt_cases e' 0) as [Hneg | Hpos].
  - (* the integer [c] is a multiple of the new unit *)
    assert (H1 : 2 ^ 1074 = 2 ^ (- e') * 2 ^ (e' + 1074)).
    { rewrite <- pow2_split by lia. f_equal. lia. }
    assert (H2 : 2 ^ 1074 = 2 ^ (- e') * 2 ^ (e' - e) * 2 ^ (e + 1074)).
    { rewrite <- !pow2_split by lia. f_equal. lia. }
    assert (H3 : 0 < 2 ^ (e + 1074)) by (apply pow2_pos; lia).
    assert (H4 : 0 < 2 ^ (e' + 1074)) by (apply pow2_pos; lia).
    assert (H5 : c * 2 ^ (- e') * 2 ^ (e' - e) <= m).
    { rewrite H2 in Hle. nia. }
    assert (H6 : c * 2 ^ (- e') <= m / 2 ^ (e' - e)).
    { apply Z.div_le_lower_bound; [exact Hk | lia]. }
    rewrite H1. nia.
  - (* the result has 53 bits and a positive exponent *)
    destruct m as [|p|p]; [| | lia].
    + simpl in Hfexp. lia.
    + simpl Zdigits2 in Hfexp. pose proof (digits2_pos_bounds p) as [Hd _].
      assert (He'eq : e' - e = Z.pos (digits2_pos p) - 53) by lia.
      assert (H1 : 2 ^ (Z.pos (digits2_pos p) - 1) = 2 ^ 52 * 2 ^ (e' - e)).
      { rewrite <- pow2_split by lia. f_equal. lia. }
      assert (H2 : 2 ^ 52 <= Z.pos p / 2 ^ (e' - e)).
      { apply Z.div_le_lower_bound; [exact Hk | lia]. }
      assert (H3 : 2 ^ 1074 <= 2 ^ (e' + 1074)).
      { apply Z.pow_le_mono_r; lia. }
      assert (H4 : 0 < 2 ^ 1074) by (apply pow2_pos; lia).
      nia.
Qed.

Lemma round_nearest_even_ge (m : Z) (l : location) : m <= round_nearest_even m l.
Proof.
  unfold round_nearest_even. destruct l as [|[| |]]; try lia.
  destruct (Z.even m); lia.
Qed.

(** Rounding to nearest keeps a value above an integer of at most 53 bits
    above it, and gives no NaN. *)
Lemma binary_round_aux_ge (c m e : Z) (l : location) :
  0 <= c <= 2 ^ 52 -> 0 <= m -> -1074 <= e -> c * 2 ^ 1074 <= scaled m e ->
  SFge c (binary_round_aux prec emax false m e l).
Proof.
  intros Hc Hm He Hle. unfold binary_round_aux.
  pose proof (shr_fexp_ge c m e l Hc Hm He Hle) as H1.
  destruct (shr_fexp prec emax m e l) as [mrs1 e1].
  destruct H1 as (He1 & Hm1 & Hle1).
  pose proof (round_nearest_even_ge (shr_m mrs1) (loc_of_shr_record mrs1)) as Hr.
  set (m2 := round_nearest_even (shr_m mrs1) (loc_of_shr_record mrs1)) in *.
  assert (Hle2 : c * 2 ^ 1074 <= scaled m2 e1).
  { unfold scaled in *. assert (0 < 2 ^ (e1 + 1074)) by (apply pow2_pos; lia). nia. }
  pose proof (shr_fexp_ge c m2 e1 loc_Exact Hc ltac:(lia) He1 Hle2) as H3.
  destruct (shr_fexp prec emax m2 e1 loc_Exact) as [mrs3 e3].
  destruct H3 as (He3 & Hm3 & Hle3).
  destruct (shr_m mrs3) as [|p|p]; simpl.
  - unfold scaled in Hle3. assert (0 < 2 ^ 1074) by (apply pow2_pos; lia). nia.
  - destruct (e3 <=? emax - prec); simpl; [|reflexivity].
    split; [reflexivity|]. split; [exact He3 | exact Hle3].
  - lia.
Qed.

Lemma iter_xO_pow2 (m d : positive) : Z.pos (Pos.iter xO m d) = Z.pos m * 2 ^ Z.pos d.
Proof.
  induction d as [|d IH] using Pos.peano_ind.
  - simpl. lia.
  - rewrite Pos.iter_succ, Pos2Z.inj_succ, Z.pow_succ_r by lia.
    change (Z.pos (Pos.iter xO m d)~0) with (2 * Z.pos (Pos.iter xO m d)).
    rewrite IH. lia.
Qed.

(** The left shift that aligns a mantissa keeps the value. *)
Lemma shl_align_scaled (mx : positive) (ex ex' : Z) :
  -1074 <= ex -> -1074 <= ex' ->
  -1074 <= snd (shl_align mx ex ex') <= ex
  /\ scaled (Z.pos (fst (shl_align mx ex ex'))) (snd (shl_align mx ex ex'))
     = scaled (Z.pos mx) ex
  /\ (ex' <= ex -> snd (shl_align mx ex ex') = ex').
Proof.
  intros He He'. unfold shl_align.
  destruct (ex' - ex) as [|d|d] eqn:Hd; simpl.
  - split; [lia|]. split; [reflexivity | lia].
  - split; [lia|]. split; [reflexivity | lia].
  - split; [lia|]. split; [|reflexivity].
    unfold scaled. rewrite iter_xO_pow2.
    replace (ex + 1074) with (Z.pos d + (ex' + 1074)) by lia.
    rewrite (pow2_split (Z.pos d) (ex' + 1074)) by lia. ring.
Qed.

Lemma binary_round_ge (c : Z) (mx : positive) (ex : Z) :
  0 <= c <= 2 ^ 52 -> -1074 <= ex -> c * 2 ^ 1074 <= scaled (Z.pos mx) ex ->
  SFge c (binary_round prec emax false mx ex).
Proof.
  intros Hc He Hle. unfold binary_round.
  pose proof (shl_align_scaled mx ex (fexp prec emax (Z.pos (digits2_pos mx) + ex)) He
                ltac:(rewrite fexp_binary64; lia)) as (Hez & Hs & _).
  destruct (shl_align mx ex _) as [mz ez]. simpl in *.
  apply binary_round_aux_ge; [exact Hc | lia | lia | rewrite Hs; exact Hle].
Qed.

(** The sum of a value that is at least [c] and of one that is not negative
    is at least [c]: rounding the sum does not take it below the integer. *)
Lemma SFadd_ge (c : Z) (x y : spec_float) :
  0 <= c <= 2 ^ 52 -> SFge c x -> SFge 0 y -> SFge c (SFadd prec emax x y).
Proof.
  intros Hc Hx Hy.
  destruct x as [sx|sx| |sx mx ex]; destruct y as [sy|sy| |sy my ey];
    simpl in Hx, Hy; try contradiction; subst; simpl.
  - destruct sx, sy; simpl; exact Hx.
  - reflexivity.
  - destruct Hy as (-> & Hey & Hle). simpl. split; [reflexivity|]. split; [exact Hey|].
    assert (0 < 2 ^ 1074) by (apply pow2_pos; lia). nia.
  - reflexivity.
  - reflexivity.
  - destruct Hy as (-> & _). reflexivity.
  - exact Hx.
  - reflexivity.
  - destruct Hx as (-> & Hex & Hlex). destruct Hy as (-> & Hey & _).
    pose proof (shl_align_scaled mx ex (Z.min ex ey) Hex ltac:(lia)) as (_ & Hsx & Hzx).
    pose proof (shl_align_scaled my ey (Z.min ex ey) Hey ltac:(lia)) as (_ & _ & Hzy).
    specialize (Hzx ltac:(lia)). specialize (Hzy ltac:(lia)).
    rewrite Hzx in Hsx. unfold binary_normalize. simpl cond_Zopp.
    change (Z.pos (fst (shl_align mx ex (Z.min ex ey)))
            + Z.pos (fst (shl_align my ey (Z.min ex ey))))
      with (Z.pos (fst (shl_align mx ex (Z.min ex ey))
                   + fst (shl_align my ey (Z.min ex ey)))).
    apply binary_round_ge; [exact Hc | lia |].
    rewrite Pos2Z.inj_add. unfold scaled in *.
    assert (0 < 2 ^ (Z.min ex ey + 1074)) by (apply pow2_pos; lia).
    nia.
Qed.

(** ** Go's float64 through its binary64 specification *)

Lemma Prim2SF_float64_of_int (z : Z) :
  0 <= z < 2 ^ 63 ->
  Prim2SF (float64_of_int z) = binary_normalize prec emax z 0 false.
Proof.
  intros Hz. unfold float64_of_int. apply Prim2SF_SF2Prim.
  pose proof (of_uint63_spec (Uint63.of_Z z)) as Hspec.
  rewrite Uint63.of_Z_spec, Z.mod_small in Hspec by (exact Hz).
  rewrite <- Hspec. apply Prim2SF_valid.
Qed.

Lemma SFge_float64_of_int (c : Z) :
  0 <= c <= 2 ^ 52 -> SFge c (Prim2SF (float64_of_int c)).
Proof.
  intros Hc. rewrite Prim2SF_float64_of_int by lia.
  destruct c as [|p|p]; simpl binary_normalize; [simpl; lia | | lia].
  apply binary_round_ge; [exact Hc | lia | unfold scaled; simpl Z.add; lia].
Qed.

(** The integer part of a value that is at least [c]. *)
Lemma SFge_trunc (c : Z) (m : positive) (e : Z) :
  -1074 <= e -> c * 2 ^ 1074 <= scaled (Z.pos m) e -> c <= Z.shiftl (Z.pos m) e.
Proof.
  intros He Hle. unfold scaled in Hle.
  destruct (Z.le_gt_cases 0 e) as [Hpos | Hneg].
  - rewrite Z.shiftl_mul_pow2 by exact Hpos.
    rewrite (Z.add_comm e), (pow2_split 1074 e) in Hle by lia.
    assert (0 < 2 ^ 1074) by (apply pow2_pos; lia). nia.
  - rewrite Z.shiftl_div_pow2 by lia.
    assert (H1 : 2 ^ 1074 = 2 ^ (- e) * 2 ^ (e + 1074)).
    { rewrite <- pow2_split by lia. f_equal. lia. }
    assert (H2 : 0 < 2 ^ (e + 1074)) by (apply pow2_pos; lia).
    apply Z.div_le_lower_bound; [apply pow2_pos; lia|].
    rewrite H1 in Hle. nia.
Qed.

Lemma SFcompare_refl (x : spec_float) :
  x <> S754_nan -> SFcompare x x = Some Eq.
Proof.
  destruct x as [s|s| |s m e]; intros Hx; try congruence; simpl.
  - reflexivity.
  - destruct s; reflexivity.
  - rewrite Z.compare_refl, Pcompare_refl. destruct s; reflexivity.
Qed.

Lemma SFge_not_nan (c : Z) (x : spec_float) : SFge c x -> x <> S754_nan.
Proof. intros H ->. exact H. Qed.

Lemma is_nan_SFge (c : Z) (s : float) : SFge c (Prim2SF s) -> is_nan s = false.
Proof.
  intros H. unfold is_nan. rewrite FloatAxioms.eqb_spec. unfold SFeqb.
  rewrite SFcompare_refl by (eapply SFge_not_nan; exact H). reflexivity.
Qed.

Lemma is_neg_inf_SFge (c : Z) (s : float) : SFge c (Prim2SF s) -> is_neg_inf s = false.
Proof.
  intros H. unfold is_neg_inf, is_infinity, get_sign, is_zero.
  rewrite !FloatAxioms.eqb_spec, FloatAxioms.abs_spec.
  change (Prim2SF infinity) with (S754_infinity false).
  change (Prim2SF PrimFloat.zero) with (S754_zero false).
  destruct (Prim2SF s) as [sx|sx| |sx mx ex] eqn:Hs; simpl in H; try contradiction.
  - reflexivity.
  - subst sx. simpl. rewrite FloatAxioms.ltb_spec, Hs. reflexivity.
  - reflexivity.
Qed.

(** [math.Min(saturated, s)] for a sum [s] that is neither negative nor
    NaN. *)
Lemma math_Min_saturated (c : Z) (s : float) :
  SFge c (Prim2SF s) ->
  math_Min (float64_of_int saturated) s = if (255 <? s)%float then 255%float else s.
Proof.
  intros H. unfold math_Min.
  change (float64_of_int saturated) with 255%float.
  change (is_neg_inf 255) with false. change (is_nan 255) with false.
  change (255 =? 0)%float with false.
  rewrite (is_neg_inf_SFge c s H), (is_nan_SFge c s H). reflexivity.
Qed.

(** What is not above 255 has an integer part of at most 255. *)
Lemma SFltb_255_false (m : positive) (e : Z) :
  valid_binary (S754_finite false m e) = true ->
  SFltb (Prim2SF 255) (S754_finite false m e) = false ->
  Z.shiftl (Z.pos m) e <= 255.
Proof.
  intros Hvalid Hlt.
  change (Prim2SF 255) with (S754_finite false 8972014882652160 (-45)) in Hlt.
  unfold SFltb, SFcompare in Hlt.
  unfold valid_binary, bounded, canonical_mantissa in Hvalid.
  apply andb_prop in Hvalid. destruct Hvalid as [Hcanon _].
  apply Z.eqb_eq in Hcanon. rewrite fexp_binary64 in Hcanon.
  assert (Hm53 : Z.pos m < 2 ^ 53).
  { pose proof (digits2_pos_bounds m) as [_ Hm].
    eapply Z.lt_le_trans; [exact Hm|]. apply Z.pow_le_mono_r; lia. }
  clear Hcanon.
  destruct (Z.compare_spec (-45) e) as [Heq | Hgt | Hlt'].
  - subst e. assert (Hle : Z.pos m <= 8972014882652160).
    { destruct (Pos.compare_cont Eq 8972014882652160 m) eqn:Hc; try discriminate.
      - apply Pcompare_Eq_eq in Hc. subst m. apply Z.le_refl.
      - change (Pos.compare_cont Eq 8972014882652160 m)
          with (8972014882652160 ?= m)%positive in Hc.
        apply Pos.compare_gt_iff in Hc. apply Pos2Z.pos_lt_pos in Hc.
        apply Z.lt_le_incl. exact Hc. }
    clear Hlt Hm53.
    rewrite Z.shiftl_div_pow2 by (clear; lia).
    apply Z.lt_succ_r. apply Z.div_lt_upper_bound; [reflexivity|].
    change (2 ^ (- (-45)) * Z.succ 255) with 9007199254740992. lia.
  - discriminate.
  - clear Hlt.
    rewrite Z.shiftl_div_pow2 by lia.
    assert (H46 : 2 ^ 46 <= 2 ^ (- e)) by (apply Z.pow_le_mono_r; lia).
    apply Z.lt_succ_r. apply Z.div_lt_upper_bound; [apply pow2_pos; lia|].
    change (2 ^ 53) with 9007199254740992 in Hm53.
    change (2 ^ 46) with 70368744177664 in H46.
    change (Z.succ 255) with 256. lia.
Qed.

(** ** The additive blend *)

(** One blend of a channel with an increment that is not negative: the new
    value is at least the old one and at most 255, and the conversion to
    uint8 is exact. *)
Lemma blend_value_range (old : Z) (Δ : float) :
  0 <= old <= 255 -> nonneg Δ ->
  old <= uint8_of_float64
           (math_Min (float64_of_int saturated) (float64_of_int old + Δ)%float) <= 255.
Proof.
  intros Hold HΔ.
  assert (Hc : 0 <= old <= 2 ^ 52) by (change (2 ^ 52) with 4503599627370496; lia).
  set (s := (float64_of_int old + Δ)%float).
  assert (Hs : SFge old (Prim2SF s)).
  { unfold s. rewrite FloatAxioms.add_spec. apply SFadd_ge; [exact Hc | | exact HΔ].
    apply SFge_float64_of_int. exact Hc. }
  rewrite (math_Min_saturated old s Hs).
  destruct (255 <? s)%float eqn:Hlt.
  - change (uint8_of_float64 255) with 255. lia.
  - rewrite FloatAxioms.ltb_spec in Hlt. pose proof (Prim2SF_valid s) as Hvalid.
    unfold uint8_of_float64, trunc.
    destruct (Prim2SF s) as [sx|sx| |sx m e]; simpl in Hs; try contradiction.
    + change (uint8 0) with 0. simpl. lia.
    + subst sx. discriminate.
    + destruct Hs as (-> & He & Hle). simpl cond_Zopp.
      pose proof (SFge_trunc old m e He Hle) as Hlow.
      pose proof (SFltb_255_false m e Hvalid Hlt) as Hhigh.
      destruct (Z.leb_spec (- 2 ^ 31) (Z.shiftl (Z.pos m) e)) as [_ | Hbad];
        [|change (- 2 ^ 31) with (-2147483648) in Hbad; lia].
      destruct (Z.ltb_spec (Z.shiftl (Z.pos m) e) (2 ^ 31)) as [_ | Hbad];
        [|change (2 ^ 31) with 2147483648 in Hbad; lia].
      simpl andb. cbv iota. unfold uint8. change (2 ^ 8) with 256.
      rewrite Z.mod_small by lia. lia.
Qed.

Lemma SFplus_ge (f : spec_float) : SFplus f -> SFge 0 f.
Proof.
  destruct f as [s|s| |s m e]; simpl; try tauto; [lia|].
  intros [-> He]. split; [reflexivity|]. split; [exact He|].
  assert (0 < 2 ^ (e + 1074)) by (apply pow2_pos; lia). lia.
Qed.

Lemma binary_round_aux_plus (m e : Z) (l : location) :
  0 <= m -> SFplus (binary_round_aux prec emax false m e l).
Proof.
  intros Hm. unfold binary_round_aux.
  pose proof (shr_fexp_m m e l Hm) as H1.
  destruct (shr_fexp prec emax m e l) as [mrs1 e1].
  assert (Hm1 : 0 <= shr_m mrs1).
  { destruct H1 as [_ [[_ ->] | (Hlt & _ & ->)]]; [exact Hm|].
    apply Z.div_pos; [exact Hm | apply pow2_pos; lia]. }
  pose proof (round_nearest_even_ge (shr_m mrs1) (loc_of_shr_record mrs1)) as Hr.
  set (m2 := round_nearest_even (shr_m mrs1) (loc_of_shr_record mrs1)) in *.
  pose proof (shr_fexp_m m2 e1 loc_Exact ltac:(lia)) as H3.
  destruct (shr_fexp prec emax m2 e1 loc_Exact) as [mrs3 e3].
  assert (Hm3 : 0 <= shr_m mrs3).
  { destruct H3 as [_ [[_ ->] | (Hlt & _ & ->)]]; [lia|].
    apply Z.div_pos; [lia | apply pow2_pos; lia]. }
  destruct H3 as [He3 _].
  destruct (shr_m mrs3) as [|p|p]; simpl; [reflexivity | | lia].
  destruct (e3 <=? emax - prec); simpl; [split; [reflexivity | exact He3] | reflexivity].
Qed.

Lemma SFdiv_core_binary_nonneg (m1 m2 : positive) (e1 e2 : Z) :
  let '(q, _, _) := SFdiv_core_binary prec emax (Z.pos m1) e1 (Z.pos m2) e2 in 0 <= q.
Proof.
  unfold SFdiv_core_binary.
  set (s := e1 - e2 - _).
  set (m' := match s with Z.pos _ => Z.shiftl (Z.pos m1) s | 0 => Z.pos m1 | Z.neg _ => 0 end).
  assert (Hm' : 0 <= m').
  { unfold m'. destruct s; [lia | apply Z.shiftl_nonneg; lia | lia]. }
  pose proof (Z_div_mod m' (Z.pos m2) ltac:(lia)) as Hdm.
  destruct (Z.div_eucl m' (Z.pos m2)) as [q r]. destruct Hdm as [Heq Hr].
  nia.
Qed.

(** A quotient of values with the sign of a count has that sign, unless it
    is 0/0 or an infinity by an infinity. *)
Lemma SFdiv_plus (x y : spec_float) :
  SFplus x -> SFplus y ->
  match x, y with
  | S754_zero _, S754_zero _ | S754_infinity _, S754_infinity _ => True
  | _, _ => SFplus (SFdiv prec emax x y)
  end.
Proof.
  intros Hx Hy.
  destruct x as [sx|sx| |sx mx ex]; simpl in Hx; try contradiction;
    destruct y as [sy|sy| |sy my ey]; simpl in Hy; try contradiction;
    try exact I;
    repeat match goal with H : _ /\ _ |- _ => destruct H end; subst; simpl;
    try reflexivity.
  pose proof (SFdiv_core_binary_nonneg mx my ex ey) as Hq.
  destruct (SFdiv_core_binary prec emax (Z.pos mx) ex (Z.pos my) ey) as [[q e'] l].
  apply binary_round_aux_plus. exact Hq.
Qed.

(** [saturated / float64(colorSteps)] for a step count that is not
    negative, and a quarter of it: increments that are not negative. *)
Lemma nonneg_delta (colorSteps : Z) :
  0 <= colorSteps <= max_int64 ->
  nonneg (float64_of_int saturated / float64_of_int colorSteps)%float
  /\ nonneg (float64_of_int saturated / float64_of_int colorSteps / 4)%float.
Proof.
  intros Hcs. unfold nonneg.
  assert (Hsteps : SFplus (Prim2SF (float64_of_int colorSteps))).
  { rewrite Prim2SF_float64_of_int by (unfold max_int64 in Hcs; lia).
    destruct colorSteps as [|p|p]; [reflexivity | | lia].
    unfold binary_normalize, binary_round.
    destruct (shl_align p 0 _) as [mz ez]. apply binary_round_aux_plus. lia. }
  assert (Hdelta : SFplus (Prim2SF (float64_of_int saturated / float64_of_int colorSteps)%float)).
  { rewrite FloatAxioms.div_spec.
    change (Prim2SF (float64_of_int saturated)) with (S754_finite false 8972014882652160 (-45)).
    pose proof (SFdiv_plus (S754_finite false 8972014882652160 (-45))
                  (Prim2SF (float64_of_int colorSteps))
                  ltac:(simpl; split; [reflexivity | lia]) Hsteps) as H.
    destruct (Prim2SF (float64_of_int colorSteps)); exact H. }
  split; [apply SFplus_ge; exact Hdelta|].
  apply SFplus_ge. rewrite FloatAxioms.div_spec.
  change (Prim2SF 4) with (S754_finite false 4503599627370496 (-50)).
  pose proof (SFdiv_plus _ (S754_finite false 4503599627370496 (-50)) Hdelta
                ltac:(simpl; split; [reflexivity | lia])) as H.
  destruct (Prim2SF (float64_of_int saturated / float64_of_int colorSteps)%float); exact H.
Qed.

Lemma byte_at_range (i : RGBA) (o : Z) : bytes_ok i -> 0 <= byte_at i o <= 255.
Proof.
  intros Hok. unfold byte_at. destruct (o <? 0); [lia|].
  destruct (Pix i !! Z.to_nat o) as [b|] eqn:Hb; simpl; [|lia].
  unfold bytes_ok in Hok. rewrite Forall_lookup in Hok.
  specialize (Hok _ _ Hb). simpl in Hok. lia.
Qed.

Lemma byte_at_set_byte_out (i : RGBA) (o v o' : Z) :
  len (Pix i) <= o -> byte_at (set_byte i o v) o' = byte_at i o'.
Proof.
  intros Ho. unfold byte_at, set_byte, len in *.
  destruct (o <? 0); [reflexivity|]. destruct (o' <? 0); [reflexivity|]. simpl.
  rewrite list_insert_ge by lia. reflexivity.
Qed.

Lemma brighter_refl (i : RGBA) : bytes_ok i -> brighter i i.
Proof.
  intros Hok. split; [exact Hok|]. intros o.
  pose proof (byte_at_range i o Hok). lia.
Qed.

Lemma brighter_trans (i1 i2 i3 : RGBA) :
  brighter i1 i2 -> brighter i2 i3 -> brighter i1 i3.
Proof.
  intros [_ H12] [Hok3 H23]. split; [exact Hok3|]. intros o.
  specialize (H12 o). specialize (H23 o). lia.
Qed.

(** A byte replaced by one that is not smaller (and a uint8). *)
Lemma set_byte_brighter (i : RGBA) (o v : Z) :
  bytes_ok i -> byte_at i o <= v <= 255 -> brighter i (set_byte i o v).
Proof.
  intros Hok Hv. pose proof (byte_at_range i o Hok) as Hr. split.
  - apply set_byte_bytes_ok; [exact Hok | lia].
  - intros o'. pose proof (byte_at_range i o' Hok) as Hr'.
    destruct (Z.eq_dec o o') as [<- | Hne].
    + destruct (Z.lt_ge_cases o 0) as [Hneg | Hpos].
      * unfold set_byte. destruct (Z.ltb_spec o 0); [lia | lia].
      * destruct (Z.lt_ge_cases o (len (Pix i))) as [Hin | Hout].
        -- rewrite byte_at_set_byte_same by lia. lia.
        -- rewrite byte_at_set_byte_out by lia. lia.
    + rewrite byte_at_set_byte_other by exact Hne. lia.
Qed.

Lemma blend_brighter (Δ : float) (ch : channel) (i : RGBA) (c : pixel_ptr) :
  bytes_ok i -> nonneg Δ -> brighter i (fst (blend Δ ch (i, c))).
Proof.
  intros Hok HΔ. unfold blend, store. destruct c as [o|cell]; simpl.
  - apply set_byte_brighter; [exact Hok|].
    apply blend_value_range; [apply byte_at_range; exact Hok | exact HΔ].
  - apply brighter_refl. exact Hok.
Qed.

Lemma blend_pointer (Δ : float) (ch : channel) (i : RGBA) (c : pixel_ptr) :
  blend Δ ch (i, c) = (fst (blend Δ ch (i, c)), snd (blend Δ ch (i, c))).
Proof. destruct (blend Δ ch (i, c)). reflexivity. Qed.

Lemma blend_success_brighter (Δ : float) (i : RGBA) (c : pixel_ptr) :
  bytes_ok i -> nonneg Δ -> nonneg (Δ / 4)%float -> brighter i (blend_success Δ i c).
Proof.
  intros Hok HΔ HΔ4. unfold blend_success.
  pose proof (blend_brighter (Δ / 4) chR i c Hok HΔ4) as H1.
  rewrite (blend_pointer (Δ / 4) chR i c).
  pose proof (blend_brighter (Δ / 4) chG _ (snd (blend (Δ / 4) chR (i, c)))
                (proj1 H1) HΔ4) as H2.
  rewrite (blend_pointer (Δ / 4) chG).
  pose proof (blend_brighter Δ chB _ (snd (blend (Δ / 4) chG
                (fst (blend (Δ / 4) chR (i, c)), snd (blend (Δ / 4) chR (i, c)))))
                (proj1 H2) HΔ) as H3.
  eapply brighter_trans; [exact H1|]. eapply brighter_trans; [exact H2 | exact H3].
Qed.

Lemma blend_failure_brighter (Δ : float) (i : RGBA) (c : pixel_ptr) :
  bytes_ok i -> nonneg Δ -> brighter i (blend_failure Δ i c).
Proof. intros Hok HΔ. unfold blend_failure. apply blend_brighter; assumption. Qed.

Lemma scatter_Record_brighter (Log2 : float -> float) (v v' : scatter)
    (e : EventDataPoint) :
  bytes_ok (scatter_vis v) ->
  nonneg (float64_of_int saturated / scatter_colors v)%float ->
  nonneg (float64_of_int saturated / scatter_colors v / 4)%float ->
  scatter_Record Log2 v e = Ok v' ->
  brighter (scatter_vis v) (scatter_vis v') /\ scatter_colors v' = scatter_colors v.
Proof.
  intros Hok HΔ HΔ4 H. unfold scatter_Record in H.
  destruct (scatter_point Log2 v e) as [x y].
  destruct (getRGBA (scatter_vis v) x y) as [c| |]; simpl in H; try discriminate.
  destruct (Status e =? 0); injection H as <-; simpl; (split; [|reflexivity]).
  - apply blend_success_brighter; assumption.
  - apply blend_failure_brighter; assumption.
Qed.

Lemma sweep_paint_brighter (v : sweep) (e : EventDataPoint) (x : Z) (vis0 : RGBA)
    (s s' : sweep_state * Z) :
  nonneg (sweep_cΔ v) -> nonneg (sweep_cΔ v / 4)%float ->
  brighter vis0 (st_vis (fst s)) -> sweep_paint v e x s = Ok s' ->
  brighter vis0 (st_vis (fst s')).
Proof.
  intros HΔ HΔ4 Hb Hs. destruct s as [st y']. simpl in *.
  unfold sweep_paint in Hs.
  destruct (Status e =? 0);
    destruct (getRGBA _ _ _) as [c| |]; simpl in Hs; try discriminate;
    injection Hs as <-; simpl; (eapply brighter_trans; [exact Hb|]).
  - apply blend_success_brighter; [apply Hb | assumption | assumption].
  - apply blend_failure_brighter; [apply Hb | assumption].
Qed.

Lemma sweep_Record_brighter (Log2 : float -> float) (fuel : nat) (v v' : sweep)
    (e : EventDataPoint) :
  bytes_ok (sweep_vis v) -> nonneg (sweep_cΔ v) -> nonneg (sweep_cΔ v / 4)%float ->
  sweep_Record Log2 fuel v e = Ok v' ->
  brighter (sweep_vis v) (sweep_vis v') /\ sweep_cΔ v' = sweep_cΔ v.
Proof.
  intros Hok HΔ HΔ4 H. unfold sweep_Record, sweep_Record_traced in H.
  destruct (while fuel _ (sweep_step Log2 fuel v e _) _) as [r| |] eqn:Hr;
    simpl in H; try discriminate.
  injection H as <-. simpl. split; [|reflexivity].
  apply (while_invariant (fun s => brighter (sweep_vis v) (st_vis (fst s)))) in Hr;
    [apply Hr | | apply brighter_refl; exact Hok].
  intros [st1 t1] s2 Hb1 _ H2. simpl in Hb1. unfold sweep_step in H2.
  destruct (while fuel _ (sweep_paint v e _) _) as [r2| |] eqn:Hr2;
    simpl in H2; try discriminate.
  injection H2 as <-. simpl.
  apply (while_invariant (fun s => brighter (sweep_vis v) (st_vis (fst s)))) in Hr2;
    [apply Hr2 | | exact Hb1].
  intros s3 s4 Hb3 _ H4. eapply sweep_paint_brighter; eassumption.
Qed.

Lemma sweep_renders_brighter (Log2 : float -> float) (es : list EventDataPoint)
    (v : sweep) (img : RGBA) :
  bytes_ok (sweep_vis v) -> nonneg (sweep_cΔ v) -> nonneg (sweep_cΔ v / 4)%float ->
  @renders sweep (sweep_Visualizer Log2) v es img -> brighter (sweep_vis v) img.
Proof.
  intros Hok HΔ HΔ4 Hr.
  induction Hr as [v | fuel v v' e es img Hrec Hr IH].
  - apply brighter_refl. exact Hok.
  - destruct (sweep_Record_brighter Log2 fuel v v' e Hok HΔ HΔ4 Hrec) as [Hb Hc].
    eapply brighter_trans; [exact Hb|].
    apply IH; [apply Hb | rewrite Hc; exact HΔ | rewrite Hc; exact HΔ4].
Qed.

Lemma scatter_renders_brighter (Log2 : float -> float) (es : list EventDataPoint)
    (v : scatter) (img : RGBA) :
  bytes_ok (scatter_vis v) ->
  nonneg (float64_of_int saturated / scatter_colors v)%float ->
  nonneg (float64_of_int saturated / scatter_colors v / 4)%float ->
  @renders scatter (scatter_Visualizer Log2) v es img -> brighter (scatter_vis v) img.
Proof.
  intros Hok HΔ HΔ4 Hr.
  induction Hr as [v | fuel v v' e es img Hrec Hr IH].
  - apply brighter_refl. exact Hok.
  - destruct (scatter_Record_brighter Log2 v v' e Hok HΔ HΔ4 Hrec) as [Hb Hc].
    eapply brighter_trans; [exact Hb|].
    apply IH; [apply Hb | rewrite Hc; exact HΔ | rewrite Hc; exact HΔ4].
Qed.

(** C2, as it holds.  On a sweep or a scatter renderer with a number of
    colour steps that is not negative, whatever events are recorded and
    however many blends accumulate, every byte of the canvas (every channel
    of every pixel) stays a value from 0 to 255 and is never below what it
    was before: each blend adds an increment that is not negative, clamps
    the sum to 255, and its conversion to uint8 is exact. *)
Theorem blends_saturate (Log2 : float -> float) (colorSteps : Z)
    (es : list EventDataPoint) (img : RGBA) :
  0 <= colorSteps <= max_int64 ->
  (forall v : sweep,
      sweep_cΔ v = (float64_of_int saturated / float64_of_int colorSteps)%float ->
      bytes_ok (sweep_vis v) ->
      @renders sweep (sweep_Visualizer Log2) v es img ->
      bytes_ok img /\ forall o, byte_at (sweep_vis v) o <= byte_at img o <= 255)
  /\ (forall v : scatter,
      scatter_colors v = float64_of_int colorSteps ->
      bytes_ok (scatter_vis v) ->
      @renders scatter (scatter_Visualizer Log2) v es img ->
      bytes_ok img /\ forall o, byte_at (scatter_vis v) o <= byte_at img o <= 255).
Proof.
  intros Hcs. destruct (nonneg_delta colorSteps Hcs) as [HΔ HΔ4]. split.
  - intros v Hv Hok Hr. apply (sweep_renders_brighter Log2 es v img Hok); [| | exact Hr];
      rewrite Hv; assumption.
  - intros v Hv Hok Hr. apply (scatter_renders_brighter Log2 es v img Hok); [| | exact Hr];
      rewrite Hv; assumption.
Qed.

Lemma blends_saturate_witness :
  exists v img,
    NewSweep 65536 16 8 8 0 8 1 2 0 = Ok v
    /\ @renders sweep (sweep_Visualizer math_Log2) v
         [mkEvent 0 4 0; mkEvent 0 4 0; mkEvent 0 4 0; mkEvent 1 3 1] img
    /\ bytes_ok img /\ forall o, byte_at (sweep_vis v) o <= byte_at img o <= 255.
Proof.
  destruct (NewSweep 65536 16 8 8 0 8 1 2 0) as [v| |] eqn:E;
    [| vm_compute in E; discriminate ..].
  destruct (@run sweep (sweep_Visualizer math_Log2) 16 v
              [mkEvent 0 4 0; mkEvent 0 4 0; mkEvent 0 4 0; mkEvent 1 3 1])
    as [img| |] eqn:H;
    [| vm_compute in E; injection E as <-; vm_compute in H; discriminate ..].
  apply (@run_renders sweep (sweep_Visualizer math_Log2)) in H.
  exists v, img. split; [reflexivity|]. split; [exact H|].
  destruct (blends_saturate math_Log2 2
              [mkEvent 0 4 0; mkEvent 0 4 0; mkEvent 0 4 0; mkEvent 1 3 1] img
              ltac:(unfold max_int64; lia)) as [Hsweep _].
  apply (Hsweep v); [| | exact H].
  - apply NewSweep_Ok in E. destruct E as [_ E].
    apply sweep_drawGrid_fields in E. destruct E as [vis ->].
    reflexivity.
  - vm_compute in E. injection E as <-. unfold bytes_ok. simpl Pix.
    repeat (apply Forall_cons; split; [lia|]). apply Forall_nil. exact I.
Defined.

(** C2 as stated fails for a negative number of colour steps: with -255
    steps the increment is -1, and recording a success takes the pixel
    (2, 4) from (45, 45, 45) down to (44, 44, 44). *)
Lemma negative_color_steps_darken :
  exists v v',
    NewSweep 65536 16 8 8 0 8 1 (-255) 0 = Ok v
    /\ sweep_cΔ v = (-1)%float
    /\ sweep_Record math_Log2 16 v (mkEvent 0 4 0) = Ok v'
    /\ RGBAAt (sweep_vis v) 2 4 = mkColor 45 45 45 255
    /\ RGBAAt (sweep_vis v') 2 4 = mkColor 44 44 44 255.
Proof.
  destruct (NewSweep 65536 16 8 8 0 8 1 (-255) 0) as [v| |] eqn:E;
    [| vm_compute in E; discriminate ..].
  vm_compute in E. injection E as <-.
  match goal with |- exists v v', Ok ?a = _ /\ _ => set (v := a) end.
  destruct (sweep_Record math_Log2 16 v (mkEvent 0 4 0)) as [v'| |] eqn:R;
    [| vm_compute in R; discriminate ..].
  exists v, v'. split; [reflexivity|]. split; [reflexivity|]. split; [exact R|].
  split; [vm_compute; reflexivity|].
  vm_compute in R. injection R as <-. vm_compute. reflexivity.
Qed.

(** * Further properties of the code *)

(** ** Error codes *)

(** With at most 126 filters the error code is never 0 and never negative:
    it lies between 1 and one past the number of filters. *)
Lemma getErrorCode_range (r : String.string) (filters : list Regexp) :
  len filters <= 126 ->
  1 <= getErrorCode r filters <= len filters + 1.
Proof.
  intros Hlen. unfold getErrorCode. rewrite getErrorCode_from_first_match.
  assert (Hidx : 0 <= match first_match r filters with
                      | Some i => Z.of_nat i
                      | None => len filters
                      end <= len filters).
  { destruct (first_match r filters) as [i|] eqn:Hi; [|unfold len; lia].
    assert (Hlt : (i < length filters)%nat).
    { clear Hlen. revert i Hi. induction filters as [|f fs IH]; intros i Hi; simpl in *;
        [discriminate|].
      destruct (f r); [injection Hi as <-; lia|].
      destruct (first_match r fs) as [j|]; simpl in Hi; [|discriminate].
      injection Hi as <-. specialize (IH j eq_refl). lia. }
    unfold len. lia. }
  unfold int8. rewrite wrap_id; simpl; lia.
Qed.

(** X1.  The status written for a row keeps the sense of its exit status
    (with at most 126 filters): a failure gets a positive code, a success
    stays 0 and an event in progress keeps its negative value, so no failure
    is recorded as a success. *)
Theorem csv_status_sign (signedValue : Z) (r : String.string) (filters : list Regexp) :
  len filters <= 126 -> -128 <= signedValue <= 127 ->
  (0 < signedValue -> 1 <= csv_status signedValue r filters <= len filters + 1)
  /\ (signedValue <= 0 -> csv_status signedValue r filters = signedValue)
  /\ (csv_status signedValue r filters = 0 <-> signedValue = 0).
Proof.
  intros Hlen Hv. unfold csv_status.
  pose proof (getErrorCode_range r filters Hlen) as Hb.
  assert (Hid : int8 signedValue = signedValue) by (apply wrap_id; simpl; lia).
  destruct (Z.ltb_spec 0 signedValue) as [Hpos | Hneg].
  - split; [intros _; exact Hb|]. split; [lia|]. split; lia.
  - rewrite Hid. split; [lia|]. split; [reflexivity|]. split; lia.
Qed.

Lemma csv_status_sign_witness :
  1 <= csv_status 2 "boom" [blank_filter] <= 2
  /\ csv_status (-1) "" [blank_filter] = -1.
Proof.
  destruct (csv_status_sign 2 "boom" [blank_filter]) as (Hpos & _ & _);
    [vm_compute; discriminate | lia |].
  destruct (csv_status_sign (-1) "" [blank_filter]) as (_ & Hneg & _);
    [vm_compute; discriminate | lia |].
  split; [apply Hpos; lia | apply Hneg; lia].
Defined.

(** ** The wave renderer: cursor and active sets *)

Lemma wave_column_fields (plot : RGBA -> Z -> Z -> Z -> Z -> Z -> RGBA)
    (e : EventDataPoint) (v v' : wave) :
  wave_column plot e v = Ok v' ->
  wave_w v' = wave_w v /\ wave_h v' = wave_h v
  /\ wave_tA v' = wave_tA v /\ wave_tΩ v' = wave_tΩ v
  /\ wave_x v' = int64 (wave_x v + 1).
Proof.
  unfold wave_column. intros H.
  destruct (for_range (len (wave_p _)) _ _) as [sP| |]; simpl in H; try discriminate.
  destruct (for_range (len (wave_f _)) _ _) as [sF| |]; simpl in H; try discriminate.
  injection H as <-. simpl. repeat split.
Qed.

Lemma while_cond_false {S : Type} (cond : S -> bool) (body : S -> outcome S)
    (n : nat) (s r : S) :
  cond s = false -> while n cond body s = Ok r -> r = s.
Proof.
  intros Hc H. destruct n as [|n]; simpl in H; [discriminate|].
  rewrite Hc in H. injection H as <-. reflexivity.
Qed.

(** X2.  [wave.Record] moves the draw cursor to the column of the event's
    start time when that lies to the right of it, and leaves it where it is
    otherwise: the cursor never moves back, even for events that arrive out
    of order, and an event that does not move it draws nothing.  The size
    and the time range are unchanged. *)
Theorem wave_Record_cursor (plot : RGBA -> Z -> Z -> Z -> Z -> Z -> RGBA)
    (fuel : nat) (v v' : wave) (e : EventDataPoint) :
  min_int64 <= wave_x v ->
  wave_Record plot fuel v e = Ok v' ->
  wave_x v' = Z.max (wave_x v)
                (time_column (wave_w v) (wave_tA v) (wave_tΩ v) (float64_of_int (Start e)))
  /\ wave_w v' = wave_w v /\ wave_h v' = wave_h v
  /\ wave_tA v' = wave_tA v /\ wave_tΩ v' = wave_tΩ v
  /\ (time_column (wave_w v) (wave_tA v) (wave_tΩ v) (float64_of_int (Start e))
        <= wave_x v -> wave_vis v' = wave_vis v).
Proof.
  intros Hmin H. unfold wave_Record in H.
  set (x' := time_column (wave_w v) (wave_tA v) (wave_tΩ v) (float64_of_int (Start e))) in *.
  assert (Hstay : x' <= wave_x v -> wave_vis v' = wave_vis v).
  { intros Hle. destruct (Status e =? 0); cbv beta iota zeta in H;
      (apply while_cond_false in H; [subst v'; reflexivity | apply Z.ltb_ge; exact Hle]). }
  pose proof (int_of_float64_range
                (float64_of_int (wave_w v) * (float64_of_int (Start e) - wave_tA v)
                 / (wave_tΩ v - wave_tA v))) as Hx'.
  fold (time_column (wave_w v) (wave_tA v) (wave_tΩ v) (float64_of_int (Start e))) in Hx'.
  fold x' in Hx'.
  assert (Hinv : forall v0 r,
             wave_w v0 = wave_w v /\ wave_h v0 = wave_h v
             /\ wave_tA v0 = wave_tA v /\ wave_tΩ v0 = wave_tΩ v /\ wave_x v0 = wave_x v ->
             while fuel (fun v => wave_x v <? x') (wave_column plot e) v0 = Ok r ->
             (wave_w r = wave_w v /\ wave_h r = wave_h v
              /\ wave_tA r = wave_tA v /\ wave_tΩ r = wave_tΩ v
              /\ wave_x v <= wave_x r /\ (wave_x r = wave_x v \/ wave_x r <= x'))
             /\ (wave_x r <? x') = false).
  { intros v0 r (Hw & Hh & HtA & HtΩ & Hx0) Hr.
    apply (while_invariant
             (fun s => wave_w s = wave_w v /\ wave_h s = wave_h v
                       /\ wave_tA s = wave_tA v /\ wave_tΩ s = wave_tΩ v
                       /\ wave_x v <= wave_x s /\ (wave_x s = wave_x v \/ wave_x s <= x')))
      in Hr; [exact Hr | |].
    - intros s s' (Hw1 & Hh1 & HtA1 & HtΩ1 & Hle & Hor) Hc Hs.
      apply Z.ltb_lt in Hc.
      apply wave_column_fields in Hs. destruct Hs as (-> & -> & -> & -> & ->).
      rewrite int64_id by (unfold max_int64 in *; lia).
      repeat split; try assumption; lia.
    - repeat split; try assumption; lia. }
  destruct (Status e =? 0); simpl in H;
    (apply Hinv in H; [|simpl; repeat split]);
    destruct H as [(Hw & Hh & HtA & HtΩ & Hle & Hor) Hc];
    apply Z.ltb_ge in Hc; (split; [lia|]); repeat split; assumption.
Qed.

Lemma wave_Record_cursor_witness :
  exists v v',
    NewWave 65536 4 4 0 8 = Ok v
    /\ wave_Record plot_high_bytes 10 v (mkEvent 4 2 0) = Ok v'
    /\ wave_x v' = 2.
Proof.
  destruct (NewWave 65536 4 4 0 8) as [v| |] eqn:E0;
    [| vm_compute in E0; discriminate ..].
  pose proof (NewWave_Ok _ _ _ _ _ _ E0) as Hv.
  destruct (wave_Record plot_high_bytes 10 v (mkEvent 4 2 0))
    as [v'| |] eqn:E; [| rewrite Hv in E; vm_compute in E; discriminate ..].
  exists v, v'. split; [reflexivity|]. split; [exact E|].
  destruct (wave_Record_cursor plot_high_bytes 10 v v' (mkEvent 4 2 0))
    as [Hx _]; [rewrite Hv; vm_compute; discriminate | exact E |].
  rewrite Hx, Hv. vm_compute. reflexivity.
Defined.

Lemma filter_sublist {A : Type} (f : A -> bool) (l : list A) :
  sublist (List.filter f l) l.
Proof.
  induction l as [|a l IH]; simpl; [constructor|].
  destruct (f a); [apply sublist_skip | apply sublist_cons]; exact IH.
Qed.

Lemma filter_Forall {A : Type} (P : A -> Prop) (f : A -> bool) (l : list A) :
  Forall P l -> Forall P (List.filter f l).
Proof.
  induction 1 as [|a l Ha Hl IH]; simpl; [constructor|].
  destruct (f a); [constructor; assumption | exact IH].
Qed.

(** X3.  The active sets stay partitioned by outcome and in arrival order.
    After any sequence of [Record] calls on a renderer, the passing set is a
    sublist of the former passing set followed by the recorded events of
    status 0, the failing set a sublist of the former failing set followed
    by the recorded events of another status; on a new renderer every
    passing event has status 0 and every failing one has not. *)
Theorem wave_active_sets_partition (plot : RGBA -> Z -> Z -> Z -> Z -> Z -> RGBA)
    (v v' : wave) (es : list EventDataPoint) :
  @records wave (wave_Visualizer plot) v es v' ->
  sublist (wave_p v') (wave_p v ++ List.filter (fun e => Status e =? 0) es)
  /\ sublist (wave_f v') (wave_f v ++ List.filter (fun e => negb (Status e =? 0)) es)
  /\ (Forall (fun q => Status q = 0) (wave_p v) ->
      Forall (fun q => Status q = 0) (wave_p v'))
  /\ (Forall (fun q => Status q <> 0) (wave_f v) ->
      Forall (fun q => Status q <> 0) (wave_f v')).
Proof.
  intros Hr. induction Hr as [v | fuel v v1 v2 e es Hrec Hr IH].
  - simpl. rewrite !app_nil_r. repeat split; trivial.
  - change (wave_Record plot fuel v e = Ok v1) in Hrec.
    apply wave_Record_sets in Hrec. destruct Hrec as [Hp Hf].
    destruct IH as (IHp & IHf & IHsp & IHsf).
    rewrite Hp in IHp, IHsp. rewrite Hf in IHf, IHsf. simpl List.filter.
    destruct (Z.eqb_spec (Status e) 0) as [Hs | Hs]; simpl negb; cbv iota;
      rewrite ?app_nil_r in *.
    + split; [|split; [|split]].
      * etransitivity; [exact IHp|]. rewrite <- app_assoc. simpl.
        apply sublist_app; [apply filter_sublist | reflexivity].
      * etransitivity; [exact IHf|].
        apply sublist_app; [apply filter_sublist | reflexivity].
      * intros Hall. apply IHsp. apply Forall_app. split.
        -- apply filter_Forall. exact Hall.
        -- constructor; [exact Hs | constructor].
      * intros Hall. apply IHsf. apply filter_Forall. exact Hall.
    + split; [|split; [|split]].
      * etransitivity; [exact IHp|].
        apply sublist_app; [apply filter_sublist | reflexivity].
      * etransitivity; [exact IHf|]. rewrite <- app_assoc. simpl.
        apply sublist_app; [apply filter_sublist | reflexivity].
      * intros Hall. apply IHsp. apply filter_Forall. exact Hall.
      * intros Hall. apply IHsf. apply Forall_app. split.
        -- apply filter_Forall. exact Hall.
        -- constructor; [exact Hs | constructor].
Qed.

Lemma wave_active_sets_partition_witness :
  exists v v',
    NewWave 65536 4 4 0 8 = Ok v
    /\ @records wave (wave_Visualizer plot_high_bytes) v
         [mkEvent 0 1 0; mkEvent 2 3 1; mkEvent 4 2 0] v'
    /\ sublist (wave_p v') [mkEvent 0 1 0; mkEvent 4 2 0]
    /\ sublist (wave_f v') [mkEvent 2 3 1].
Proof.
  destruct (NewWave 65536 4 4 0 8) as [v| |] eqn:E0;
    [| vm_compute in E0; discriminate ..].
  pose proof (NewWave_Ok _ _ _ _ _ _ E0) as Hv.
  destruct (wave_Record plot_high_bytes 10 v (mkEvent 0 1 0))
    as [v1| |] eqn:E1; [| rewrite Hv in E1; vm_compute in E1; discriminate ..].
  destruct (wave_Record plot_high_bytes 10 v1 (mkEvent 2 3 1))
    as [v2| |] eqn:E2;
    [| rewrite Hv in E1; vm_compute in E1; injection E1 as <-;
       vm_compute in E2; discriminate ..].
  destruct (wave_Record plot_high_bytes 10 v2 (mkEvent 4 2 0))
    as [v3| |] eqn:E3;
    [| rewrite Hv in E1; vm_compute in E1; injection E1 as <-;
       vm_compute in E2; injection E2 as <-;
       vm_compute in E3; discriminate ..].
  assert (Hr : @records wave (wave_Visualizer plot_high_bytes) v
                 [mkEvent 0 1 0; mkEvent 2 3 1; mkEvent 4 2 0] v3).
  { eapply records_cons; [exact E1|]. eapply records_cons; [exact E2|].
    eapply records_cons; [exact E3|]. apply records_nil. }
  exists v, v3. split; [reflexivity|]. split; [exact Hr|].
  destruct (wave_active_sets_partition plot_high_bytes _ _ _ Hr) as (Hp & Hf & Hsp & _).
  rewrite Hv in Hp, Hf. split; [exact Hp | exact Hf].
Defined.

(** ** Grid lines *)

Lemma RGBAAt_outside (i : RGBA) (x y : Z) :
  Point_In (mkPoint x y) (Rect i) = false -> RGBAAt i x y = mkColor 0 0 0 0.
Proof. intros H. unfold RGBAAt. rewrite H. reflexivity. Qed.

Lemma RGBAAt_same_frame_outside (i i' : RGBA) (x y : Z) :
  same_frame i i' -> Point_In (mkPoint x y) (Rect i) = false ->
  RGBAAt i' x y = RGBAAt i x y.
Proof.
  intros [_ HR] H. rewrite (RGBAAt_outside i), (RGBAAt_outside i'); [reflexivity | | exact H].
  rewrite HR. exact H.
Qed.

(** [Set] makes the pixel the colour and changes no other pixel. *)
Lemma RGBA_Set_pixels (i i' : RGBA) (x y : Z) (c : color_RGBA) :
  RGBA_wf i -> RGBA_Set i x y c = Ok i' ->
  same_frame i i'
  /\ forall x' y', RGBAAt i' x' y'
       = if Point_In (mkPoint x' y') (Rect i) && (x' =? x) && (y' =? y) then c
         else RGBAAt i x' y'.
Proof.
  intros Hwf H. unfold RGBA_Set in H.
  destruct (Point_In (mkPoint x y) (Rect i)) eqn:Hin.
  - pose proof (PixOffset_in_buffer i x y Hwf Hin) as [H0 H4]. unfold len in H4.
    replace ((0 <=? PixOffset i x y)
             && (PixOffset i x y + 4 <=? Z.of_nat (length (Pix i)))) with true in H
      by (symmetry; apply andb_true_iff; split; [apply Z.leb_le | apply Z.leb_le]; lia).
    injection H as <-.
    set (o := PixOffset i x y).
    set (i1 := set_byte i o (cR c)).
    set (i2 := set_byte i1 (o + 1) (cG c)).
    set (i3 := set_byte i2 (o + 2) (cB c)).
    assert (Hwf1 : RGBA_wf i1) by (apply set_byte_wf; exact Hwf).
    assert (Hwf2 : RGBA_wf i2) by (apply set_byte_wf; exact Hwf1).
    assert (Hwf3 : RGBA_wf i3) by (apply set_byte_wf; exact Hwf2).
    assert (HR1 : Rect i1 = Rect i) by apply set_byte_Rect.
    assert (HR2 : Rect i2 = Rect i) by (unfold i2; rewrite set_byte_Rect; exact HR1).
    assert (HR3 : Rect i3 = Rect i) by (unfold i3; rewrite set_byte_Rect; exact HR2).
    assert (Ho1 : PixOffset i1 x y = o) by apply PixOffset_set_byte.
    assert (Ho2 : PixOffset i2 x y = o)
      by (unfold i2; rewrite PixOffset_set_byte; exact Ho1).
    assert (Ho3 : PixOffset i3 x y = o)
      by (unfold i3; rewrite PixOffset_set_byte; exact Ho2).
    split.
    { split; [apply set_byte_wf; exact Hwf3 | rewrite set_byte_Rect; exact HR3]. }
    intros x' y'.
    destruct (Point_In (mkPoint x' y') (Rect i)) eqn:Hin'; simpl.
    + destruct (Z.eqb_spec x' x) as [-> | Hx]; simpl;
        [destruct (Z.eqb_spec y' y) as [-> | Hy] |].
      * rewrite <- Ho3. rewrite (RGBAAt_set_byte_same i3 chA) by (rewrite ?HR3; assumption).
        unfold i3. rewrite <- Ho2.
        rewrite (RGBAAt_set_byte_same i2 chB) by (rewrite ?HR2; assumption).
        unfold i2. rewrite <- Ho1.
        rewrite (RGBAAt_set_byte_same i1 chG) by (rewrite ?HR1; assumption).
        unfold i1. replace o with (PixOffset i x y + channel_index chR)
          by (unfold o; simpl; lia).
        rewrite (RGBAAt_set_byte_same i chR) by assumption.
        destruct c; reflexivity.
      * rewrite <- Ho3, RGBAAt_set_byte_other by (rewrite ?HR3; (assumption || lia || congruence)).
        unfold i3. rewrite <- Ho2, RGBAAt_set_byte_other
          by (rewrite ?HR2; (assumption || lia || congruence)).
        unfold i2. rewrite <- Ho1, RGBAAt_set_byte_other
          by (rewrite ?HR1; (assumption || lia || congruence)).
        unfold i1. replace o with (PixOffset i x y + 0) by (unfold o; lia).
        apply RGBAAt_set_byte_other; (assumption || lia || congruence).
      * rewrite <- Ho3, RGBAAt_set_byte_other by (rewrite ?HR3; (assumption || lia || congruence)).
        unfold i3. rewrite <- Ho2, RGBAAt_set_byte_other
          by (rewrite ?HR2; (assumption || lia || congruence)).
        unfold i2. rewrite <- Ho1, RGBAAt_set_byte_other
          by (rewrite ?HR1; (assumption || lia || congruence)).
        unfold i1. replace o with (PixOffset i x y + 0) by (unfold o; lia).
        apply RGBAAt_set_byte_other; (assumption || lia || congruence).
    + rewrite !RGBAAt_outside; [reflexivity | exact Hin' |].
      rewrite set_byte_Rect, HR3. exact Hin'.
  - injection H as <-. split; [split; [exact Hwf | reflexivity]|].
    intros x' y'.
    destruct (Point_In (mkPoint x' y') (Rect i)) eqn:Hin'; simpl; [|reflexivity].
    destruct (Z.eqb_spec x' x) as [-> | Hx]; simpl; [|reflexivity].
    destruct (Z.eqb_spec y' y) as [-> | Hy]; [congruence | reflexivity].
Qed.

Lemma drawYGridLine_pixels (vis : RGBA) (y : Z) :
  RGBA_wf vis ->
  exists vis', drawYGridLine vis y = Ok vis' /\ same_frame vis vis'
    /\ forall x' y', RGBAAt vis' x' y'
         = if Point_In (mkPoint x' y') (Rect vis) && (y' =? y) && (0 <=? x')
           then grid_colour else RGBAAt vis x' y'.
Proof.
  intros Hwf. unfold drawYGridLine.
  set (w := ptX (rMax (Rect vis))).
  destruct (Z.le_gt_cases 0 w) as [Hw | Hw].
  - destruct (for_range_invariant
                (fun k s => same_frame vis s
                   /\ forall x' y', RGBAAt s x' y'
                        = if Point_In (mkPoint x' y') (Rect vis) && (y' =? y)
                             && (0 <=? x') && (x' <? k)
                          then grid_colour else RGBAAt vis x' y')
                w (fun x vis => RGBA_Set vis x y (mkColor grid grid grid opaque)) vis)
      as (vis' & Hv & Hf & Hpix).
    + exact Hw.
    + split; [split; [exact Hwf | reflexivity]|]. intros x' y'.
      destruct (Point_In _ _ && (y' =? y) && (0 <=? x')) eqn:Hc; simpl; [|reflexivity].
      apply andb_true_iff in Hc. destruct Hc as [_ Hc]. apply Z.leb_le in Hc.
      replace (x' <? 0) with false by (symmetry; apply Z.ltb_ge; lia). reflexivity.
    + intros k s Hk [[Hwfs HRs] Hs].
      destruct (RGBA_Set_returns s k y (mkColor grid grid grid opaque) Hwfs)
        as (s' & Hs' & _).
      exists s'. split; [exact Hs'|].
      destruct (RGBA_Set_pixels s s' k y _ Hwfs Hs') as [[Hwf' HR'] Hpix].
      split; [split; [exact Hwf' | congruence]|].
      intros x' y'. rewrite Hpix, Hs, HRs.
      destruct (Point_In (mkPoint x' y') (Rect vis)); simpl; [|reflexivity].
      destruct (Z.eqb_spec y' y) as [-> | Hy]; simpl;
        [|rewrite andb_false_r; reflexivity].
      destruct (Z.eqb_spec x' k) as [-> | Hx]; simpl.
      * replace (0 <=? k) with true by (symmetry; apply Z.leb_le; lia).
        replace (k <? k + 1) with true by (symmetry; apply Z.ltb_lt; lia).
        reflexivity.
      * destruct (0 <=? x'); simpl; [|reflexivity].
        destruct (Z.ltb_spec x' k), (Z.ltb_spec x' (k + 1)); (reflexivity || lia).
    + exists vis'. split; [exact Hv|]. split; [exact Hf|].
      intros x' y'. rewrite Hpix.
      destruct (Point_In (mkPoint x' y') (Rect vis)) eqn:Hin; simpl; [|reflexivity].
      unfold Point_In in Hin. simpl in Hin.
      apply andb_true_iff in Hin. destruct Hin as [Hin _].
      apply andb_true_iff in Hin. destruct Hin as [Hin _].
      apply andb_true_iff in Hin. destruct Hin as [_ Hin].
      fold w in Hin. rewrite Hin, andb_true_r. reflexivity.
  - rewrite for_range_nonpos by lia. exists vis.
    split; [reflexivity|]. split; [split; [exact Hwf | reflexivity]|].
    intros x' y'.
    destruct (Point_In (mkPoint x' y') (Rect vis)) eqn:Hin; simpl; [|reflexivity].
    unfold Point_In in Hin. simpl in Hin.
    apply andb_true_iff in Hin. destruct Hin as [Hin _].
    apply andb_true_iff in Hin. destruct Hin as [Hin _].
    apply andb_true_iff in Hin. destruct Hin as [_ Hin].
    apply Z.ltb_lt in Hin. fold w in Hin.
    replace (0 <=? x') with false by (symmetry; apply Z.leb_gt; lia).
    rewrite andb_false_r. reflexivity.
Qed.

Lemma drawXGridLine_pixels (vis : RGBA) (x : Z) :
  RGBA_wf vis ->
  exists vis', drawXGridLine vis x = Ok vis' /\ same_frame vis vis'
    /\ forall x' y', RGBAAt vis' x' y'
         = if Point_In (mkPoint x' y') (Rect vis) && (x' =? x) && (0 <=? y')
           then grid_colour else RGBAAt vis x' y'.
Proof.
  intros Hwf. unfold drawXGridLine.
  set (h := ptY (rMax (Rect vis))).
  destruct (Z.le_gt_cases 0 h) as [Hh | Hh].
  - destruct (for_range_invariant
                (fun k s => same_frame vis s
                   /\ forall x' y', RGBAAt s x' y'
                        = if Point_In (mkPoint x' y') (Rect vis) && (x' =? x)
                             && (0 <=? y') && (y' <? k)
                          then grid_colour else RGBAAt vis x' y')
                h (fun y vis => RGBA_Set vis x y (mkColor grid grid grid opaque)) vis)
      as (vis' & Hv & Hf & Hpix).
    + exact Hh.
    + split; [split; [exact Hwf | reflexivity]|]. intros x' y'.
      destruct (Point_In _ _ && (x' =? x) && (0 <=? y')) eqn:Hc; simpl; [|reflexivity].
      apply andb_true_iff in Hc. destruct Hc as [_ Hc]. apply Z.leb_le in Hc.
      replace (y' <? 0) with false by (symmetry; apply Z.ltb_ge; lia). reflexivity.
    + intros k s Hk [[Hwfs HRs] Hs].
      destruct (RGBA_Set_returns s x k (mkColor grid grid grid opaque) Hwfs)
        as (s' & Hs' & _).
      exists s'. split; [exact Hs'|].
      destruct (RGBA_Set_pixels s s' x k _ Hwfs Hs') as [[Hwf' HR'] Hpix].
      split; [split; [exact Hwf' | congruence]|].
      intros x' y'. rewrite Hpix, Hs, HRs.
      destruct (Point_In (mkPoint x' y') (Rect vis)); simpl; [|reflexivity].
      destruct (Z.eqb_spec x' x) as [-> | Hx]; simpl; [|reflexivity].
      destruct (Z.eqb_spec y' k) as [-> | Hy]; simpl.
      * replace (0 <=? k) with true by (symmetry; apply Z.leb_le; lia).
        replace (k <? k + 1) with true by (symmetry; apply Z.ltb_lt; lia).
        reflexivity.
      * destruct (0 <=? y'); simpl; [|reflexivity].
        destruct (Z.ltb_spec y' k), (Z.ltb_spec y' (k + 1)); (reflexivity || lia).
    + exists vis'. split; [exact Hv|]. split; [exact Hf|].
      intros x' y'. rewrite Hpix.
      destruct (Point_In (mkPoint x' y') (Rect vis)) eqn:Hin; simpl; [|reflexivity].
      unfold Point_In in Hin. simpl in Hin.
      apply andb_true_iff in Hin. destruct Hin as [_ Hin].
      fold h in Hin. rewrite Hin, andb_true_r. reflexivity.
  - rewrite for_range_nonpos by lia. exists vis.
    split; [reflexivity|]. split; [split; [exact Hwf | reflexivity]|].
    intros x' y'.
    destruct (Point_In (mkPoint x' y') (Rect vis)) eqn:Hin; simpl; [|reflexivity].
    unfold Point_In in Hin. simpl in Hin.
    apply andb_true_iff in Hin. destruct Hin as [_ Hin].
    apply Z.ltb_lt in Hin. fold h in Hin.
    replace (0 <=? y') with false by (symmetry; apply Z.leb_gt; lia).
    rewrite andb_false_r. reflexivity.
Qed.

(** X4.  A grid line is drawn on exactly its row (its column) of the canvas.
    On a canvas whose bounds start at the origin, as [initializeVisualization]
    makes them, [drawYGridLine] at [k] returns a canvas of the same bounds
    where every pixel of row [k] is the opaque grid grey and every other
    pixel is as before, and [drawXGridLine] does the same for column [k].
    A horizontal line asked for at or below the lower edge, like the first
    one of [scatter.drawGrid] at [y = v.h], changes no pixel. *)
Theorem grid_line_pixels (vis : RGBA) (k : Z) :
  RGBA_wf vis ->
  ptX (rMin (Rect vis)) = 0 -> ptY (rMin (Rect vis)) = 0 ->
  (exists vis', drawYGridLine vis k = Ok vis' /\ RGBA_wf vis' /\ Rect vis' = Rect vis
     /\ forall x y, RGBAAt vis' x y
          = if Point_In (mkPoint x y) (Rect vis) && (y =? k) then grid_colour
            else RGBAAt vis x y)
  /\ (exists vis', drawXGridLine vis k = Ok vis' /\ RGBA_wf vis' /\ Rect vis' = Rect vis
     /\ forall x y, RGBAAt vis' x y
          = if Point_In (mkPoint x y) (Rect vis) && (x =? k) then grid_colour
            else RGBAAt vis x y)
  /\ (ptY (rMax (Rect vis)) <= k ->
     forall vis', drawYGridLine vis k = Ok vis' ->
     forall x y, RGBAAt vis' x y = RGBAAt vis x y).
Proof.
  intros Hwf HX HY. split; [|split].
  - destruct (drawYGridLine_pixels vis k Hwf) as (vis' & Hv & [Hwf' HR] & Hpix).
    exists vis'. split; [exact Hv|]. split; [exact Hwf'|]. split; [exact HR|].
    intros x y. rewrite Hpix.
    destruct (Point_In (mkPoint x y) (Rect vis)) eqn:Hin; simpl; [|reflexivity].
    unfold Point_In in Hin. simpl in Hin. rewrite HX in Hin.
    destruct (0 <=? x); [rewrite andb_true_r; reflexivity | discriminate].
  - destruct (drawXGridLine_pixels vis k Hwf) as (vis' & Hv & [Hwf' HR] & Hpix).
    exists vis'. split; [exact Hv|]. split; [exact Hwf'|]. split; [exact HR|].
    intros x y. rewrite Hpix.
    destruct (Point_In (mkPoint x y) (Rect vis)) eqn:Hin; simpl; [|reflexivity].
    unfold Point_In in Hin. simpl in Hin. rewrite HY in Hin.
    destruct (0 <=? y); [rewrite andb_true_r; reflexivity |].
    rewrite andb_false_r in Hin. discriminate.
  - intros Hk vis' Hv' x y.
    destruct (drawYGridLine_pixels vis k Hwf) as (vis1 & Hv & _ & Hpix).
    rewrite Hv in Hv'. injection Hv' as <-. rewrite Hpix.
    destruct (Point_In (mkPoint x y) (Rect vis)) eqn:Hin; simpl; [|reflexivity].
    unfold Point_In in Hin. simpl in Hin.
    apply andb_true_iff in Hin. destruct Hin as [_ Hin]. apply Z.ltb_lt in Hin.
    replace (y =? k) with false by (symmetry; apply Z.eqb_neq; lia). reflexivity.
Qed.

Lemma grid_line_pixels_witness :
  exists vis',
    drawYGridLine (fresh_canvas 3 2) 1 = Ok vis'
    /\ RGBAAt vis' 2 1 = grid_colour
    /\ RGBAAt vis' 2 0 = RGBAAt (fresh_canvas 3 2) 2 0.
Proof.
  destruct (grid_line_pixels (fresh_canvas 3 2) 1)
    as [(vis' & Hv & _ & _ & Hpix) _];
    [apply fresh_canvas_wf | reflexivity | reflexivity |].
  exists vis'. split; [exact Hv|].
  split; [rewrite (Hpix 2 1) | rewrite (Hpix 2 0)]; reflexivity.
Defined.

(** ** The canvas after construction *)

Lemma lookup_concat_replicate {A : Type} (l : list A) (n k j : nat) :
  (k < n)%nat -> (j < length l)%nat ->
  concat (replicate n l) !! (k * length l + j)%nat = l !! j.
Proof.
  revert n. induction k as [|k IH]; intros [|n] Hk Hj; try lia; simpl.
  - apply lookup_app_l. exact Hj.
  - rewrite lookup_app_r by lia.
    replace (length l + k * length l + j - length l)%nat with (k * length l + j)%nat by lia.
    apply IH; lia.
Qed.

Lemma fresh_canvas_byte (width height k j : Z) :
  0 <= k < Dx (image_Rect 0 0 width height) * Dy (image_Rect 0 0 width height) ->
  0 <= j < 4 ->
  byte_at (fresh_canvas width height) (4 * k + j)
  = default 0 ([bg; bg; bg; opaque] !! Z.to_nat j).
Proof.
  intros Hk Hj. unfold byte_at, fresh_canvas. cbn [Pix].
  replace (4 * k + j <? 0) with false by (symmetry; apply Z.ltb_ge; lia).
  replace (Z.to_nat (4 * k + j))
    with (Z.to_nat k * length [bg; bg; bg; opaque] + Z.to_nat j)%nat by (simpl; lia).
  rewrite lookup_concat_replicate; [reflexivity | lia | simpl; lia].
Qed.

Lemma fresh_canvas_pixels (width height x y : Z) :
  Point_In (mkPoint x y) (image_Rect 0 0 width height) = true ->
  RGBAAt (fresh_canvas width height) x y = background.
Proof.
  intros Hin. unfold RGBAAt.
  change (Rect (fresh_canvas width height)) with (image_Rect 0 0 width height).
  rewrite Hin. unfold color_at.
  set (r := image_Rect 0 0 width height) in *.
  assert (Ho : PixOffset (fresh_canvas width height) x y
               = 4 * ((y - ptY (rMin r)) * Dx r + (x - ptX (rMin r)))).
  { unfold PixOffset. cbn [Rect Stride fresh_canvas]. fold r. ring. }
  rewrite Ho.
  set (k := (y - ptY (rMin r)) * Dx r + (x - ptX (rMin r))).
  assert (Hk : 0 <= k < Dx r * Dy r).
  { unfold Point_In in Hin. cbn [ptX ptY] in Hin.
    apply andb_true_iff in Hin. destruct Hin as [Hin H4]. apply Z.ltb_lt in H4.
    apply andb_true_iff in Hin. destruct Hin as [Hin H3]. apply Z.leb_le in H3.
    apply andb_true_iff in Hin. destruct Hin as [H1 H2].
    apply Z.leb_le in H1. apply Z.ltb_lt in H2.
    unfold k, Dx, Dy. nia. }
  replace (4 * k) with (4 * k + 0) at 1 by lia.
  rewrite !fresh_canvas_byte by (assumption || lia).
  reflexivity.
Qed.

Lemma fresh_canvas_two_tone (width height : Z) :
  two_tone (image_Rect 0 0 width height) (fresh_canvas width height).
Proof.
  split; [apply fresh_canvas_wf|]. split; [reflexivity|].
  intros x y Hin. left. apply fresh_canvas_pixels. exact Hin.
Qed.

Lemma drawYGridLine_two_tone (r : Rectangle) (vis : RGBA) (y : Z) :
  two_tone r vis ->
  exists vis', drawYGridLine vis y = Ok vis' /\ two_tone r vis'
    /\ forall x, 0 <= x -> Point_In (mkPoint x y) r = true ->
         RGBAAt vis' x y = grid_colour.
Proof.
  intros (Hwf & HR & Hpix).
  destruct (drawYGridLine_pixels vis y Hwf) as (vis' & Hv & [Hwf' HR'] & Hpix').
  exists vis'. split; [exact Hv|]. subst r. split.
  - split; [exact Hwf'|]. split; [exact HR'|].
    intros x0 y0 Hin. rewrite Hpix', Hin. cbn [andb].
    destruct ((y0 =? y) && (0 <=? x0)); simpl; [right; reflexivity | apply Hpix; exact Hin].
  - intros x Hx Hin. rewrite Hpix', Hin, Z.eqb_refl.
    replace (0 <=? x) with true by (symmetry; apply Z.leb_le; exact Hx). reflexivity.
Qed.

Lemma drawXGridLine_two_tone (r : Rectangle) (vis : RGBA) (x : Z) :
  two_tone r vis ->
  exists vis', drawXGridLine vis x = Ok vis' /\ two_tone r vis'.
Proof.
  intros (Hwf & HR & Hpix).
  destruct (drawXGridLine_pixels vis x Hwf) as (vis' & Hv & [Hwf' HR'] & Hpix').
  exists vis'. split; [exact Hv|]. subst r.
  split; [exact Hwf'|]. split; [exact HR'|].
  intros x0 y0 Hin. rewrite Hpix', Hin. cbn [andb].
  destruct ((x0 =? x) && (0 <=? y0)); simpl; [right; reflexivity | apply Hpix; exact Hin].
Qed.

Lemma draw_x_lines_two_tone (r : Rectangle) (fuel : nat) (w xGrid : Z) (vis vis' : RGBA) :
  two_tone r vis -> draw_x_lines fuel w xGrid vis = Ok vis' -> two_tone r vis'.
Proof.
  intros Ht H. unfold draw_x_lines in H.
  destruct (0 <? xGrid); [|injection H as <-; exact Ht].
  destruct (while _ _ _ _) as [s| |] eqn:Hw; simpl in H; try discriminate.
  injection H as <-.
  apply (while_invariant (fun s : RGBA * Z => two_tone r (fst s))) in Hw;
    [apply Hw | | exact Ht].
  intros [v1 x1] s' H1 _ Hb. simpl in *.
  destruct (drawXGridLine_two_tone r v1 x1 H1) as (v2 & Hv2 & Ht2).
  rewrite Hv2 in Hb. simpl in Hb. injection Hb as <-. exact Ht2.
Qed.

Lemma NewScatter_canvas (avail : Z) (fuel : nat) (width height minTime maxTime : Z)
    (yLog2 : float) (colorSteps xGrid : Z) (v : scatter) :
  NewScatter avail fuel width height minTime maxTime yLog2 colorSteps xGrid = Ok v ->
  two_tone (image_Rect 0 0 width height) (scatter_vis v)
  /\ forall x, 0 <= x -> Point_In (mkPoint x 0) (image_Rect 0 0 width height) = true ->
       RGBAAt (scatter_vis v) x 0 = grid_colour.
Proof.
  set (r := image_Rect 0 0 width height).
  pose proof (fresh_canvas_two_tone width height) as H0. fold r in H0.
  intros H. apply NewScatter_Ok in H. destruct H as [_ H].
  unfold scatter_drawGrid in H.
  cbn [scatter_vis scatter_w scatter_h scatter_yLog2] in H.
  destruct (draw_x_lines _ _ _ _) as [vis1| |] eqn:H1; simpl in H; try discriminate.
  apply (draw_x_lines_two_tone r) in H1; [|exact H0].
  destruct (while _ _ _ _) as [s| |] eqn:Hw; simpl in H; try discriminate.
  apply (while_invariant (fun s : RGBA * Z => two_tone r (fst s))) in Hw;
    [| | exact H1].
  - destruct Hw as [Hs _].
    destruct (drawYGridLine_two_tone r (fst s) 0 Hs) as (vis2 & Hv2 & Ht2 & Htop).
    rewrite Hv2 in H. simpl in H. injection H as <-. simpl. split; assumption.
  - intros [v1 y1] s' Hv1 _ Hb. simpl in *.
    destruct (drawYGridLine_two_tone r v1 y1 Hv1) as (v2 & Hv2 & Ht2 & _).
    rewrite Hv2 in Hb. simpl in Hb. injection Hb as <-. exact Ht2.
Qed.

Lemma NewSweep_canvas (avail : Z) (fuel : nat) (width height minTime maxTime : Z)
    (yLog2 : float) (colorSteps xGrid : Z) (v : sweep) :
  NewSweep avail fuel width height minTime maxTime yLog2 colorSteps xGrid = Ok v ->
  two_tone (image_Rect 0 0 width height) (sweep_vis v)
  /\ forall x, 0 <= x -> Point_In (mkPoint x 0) (image_Rect 0 0 width height) = true ->
       RGBAAt (sweep_vis v) x 0 = grid_colour.
Proof.
  set (r := image_Rect 0 0 width height).
  pose proof (fresh_canvas_two_tone width height) as H0. fold r in H0.
  intros H. apply NewSweep_Ok in H. destruct H as [_ H].
  unfold sweep_drawGrid in H.
  cbn [sweep_vis sweep_w sweep_h sweep_yLog2] in H.
  destruct (draw_x_lines _ _ _ _) as [vis1| |] eqn:H1; simpl in H; try discriminate.
  apply (draw_x_lines_two_tone r) in H1; [|exact H0].
  destruct (while _ _ _ _) as [s| |] eqn:Hw; simpl in H; try discriminate.
  apply (while_invariant (fun s : RGBA * Z => two_tone r (fst s))) in Hw;
    [| | exact H1].
  - destruct Hw as [Hs _].
    destruct (drawYGridLine_two_tone r (fst s) 0 Hs) as (vis2 & Hv2 & Ht2 & Htop).
    rewrite Hv2 in H. simpl in H. injection H as <-. simpl. split; assumption.
  - intros [v1 y1] s' Hv1 _ Hb. simpl in *.
    destruct (drawYGridLine_two_tone r v1 y1 Hv1) as (v2 & Hv2 & Ht2 & _).
    rewrite Hv2 in Hb. simpl in Hb.
    destruct (drawYGridLine_two_tone r v2 (int64 (height - y1)) Ht2)
      as (v3 & Hv3 & Ht3 & _).
    rewrite Hv3 in Hb. simpl in Hb. injection Hb as <-. exact Ht3.
Qed.

(** X5.  What the constructors hand to [Record].  The canvas of a new scatter
    or sweep renderer has the bounds [image.Rect(0, 0, width, height)] with a
    buffer that fits them; every pixel is the opaque background or the
    opaque grid grey, whatever the grid loops drew; and the top row is a
    grid line.  The canvas of a new wave renderer is all background. *)
Theorem constructed_canvas (avail : Z) (fuel : nat)
    (width height minTime maxTime : Z)
    (yLog2 : float) (colorSteps xGrid : Z) :
  (forall v,
     NewScatter avail fuel width height minTime maxTime yLog2 colorSteps xGrid = Ok v ->
     two_tone (image_Rect 0 0 width height) (scatter_vis v)
     /\ forall x, 0 <= x -> Point_In (mkPoint x 0) (image_Rect 0 0 width height) = true ->
          RGBAAt (scatter_vis v) x 0 = grid_colour)
  /\ (forall v,
     NewSweep avail fuel width height minTime maxTime yLog2 colorSteps xGrid = Ok v ->
     two_tone (image_Rect 0 0 width height) (sweep_vis v)
     /\ forall x, 0 <= x -> Point_In (mkPoint x 0) (image_Rect 0 0 width height) = true ->
          RGBAAt (sweep_vis v) x 0 = grid_colour)
  /\ (forall v,
     NewWave avail width height minTime maxTime = Ok v ->
     forall x y, Point_In (mkPoint x y) (image_Rect 0 0 width height) = true ->
       RGBAAt (wave_vis v) x y = background).
Proof.
  split; [|split].
  - intros v. apply NewScatter_canvas.
  - intros v. apply NewSweep_canvas.
  - intros v Hv x y Hin. apply NewWave_Ok in Hv. subst v.
    apply fresh_canvas_pixels. exact Hin.
Qed.

Lemma constructed_canvas_witness :
  exists v,
    NewScatter 65536 16 8 8 0 8 1 1 2 = Ok v
    /\ RGBAAt (scatter_vis v) 3 0 = grid_colour
    /\ (RGBAAt (scatter_vis v) 3 3 = background \/ RGBAAt (scatter_vis v) 3 3 = grid_colour).
Proof.
  destruct (NewScatter 65536 16 8 8 0 8 1 1 2) as [v| |] eqn:E;
    [| vm_compute in E; discriminate ..].
  exists v. split; [reflexivity|].
  destruct (constructed_canvas 65536 16 8 8 0 8 1 1 2) as [Hs _].
  destruct (Hs v E) as [(_ & _ & Hpix) Htop].
  split; [apply Htop; [lia | reflexivity] | apply Hpix; reflexivity].
Defined.

(** ** What recording an event leaves alone *)

Lemma keeps_channel_refl (ch : channel) (i : RGBA) : RGBA_wf i -> keeps_channel ch i i.
Proof. intros Hwf. split; [split; [exact Hwf | reflexivity]|]. reflexivity. Qed.

Lemma keeps_channel_trans (ch : channel) (i1 i2 i3 : RGBA) :
  keeps_channel ch i1 i2 -> keeps_channel ch i2 i3 -> keeps_channel ch i1 i3.
Proof.
  intros [[Hwf2 HR2] H2] [[Hwf3 HR3] H3].
  split; [split; [exact Hwf3 | congruence]|].
  intros x y. rewrite H3. apply H2.
Qed.

Lemma get_set_channel_other (c : color_RGBA) (ch ch' : channel) (v : Z) :
  ch' <> ch -> get_channel (set_channel c ch v) ch' = get_channel c ch'.
Proof. intros Hne. destruct ch, ch'; simpl; congruence. Qed.

Lemma blend_InPix_channel (Δ : float) (ch ch' : channel) (i : RGBA) (x y : Z) :
  RGBA_wf i -> Point_In (mkPoint x y) (Rect i) = true -> ch' <> ch ->
  exists i', blend Δ ch (i, InPix (PixOffset i x y)) = (i', InPix (PixOffset i' x y))
    /\ Point_In (mkPoint x y) (Rect i') = true /\ keeps_channel ch' i i'.
Proof.
  intros Hwf Hin Hne. unfold blend, store. eexists. split.
  - rewrite PixOffset_set_byte. reflexivity.
  - rewrite set_byte_Rect. split; [exact Hin|].
    split; [split; [apply set_byte_wf; exact Hwf | apply set_byte_Rect]|].
    intros x' y'.
    destruct (Z.eq_dec x' x) as [-> | Hx]; [destruct (Z.eq_dec y' y) as [-> | Hy]|].
    + rewrite RGBAAt_set_byte_same by assumption.
      apply get_set_channel_other. exact Hne.
    + rewrite RGBAAt_set_byte_other;
        [reflexivity | assumption | assumption | apply channel_index_range | congruence].
    + rewrite RGBAAt_set_byte_other;
        [reflexivity | assumption | assumption | apply channel_index_range | congruence].
Qed.

Lemma getRGBA_returns (i : RGBA) (x y : Z) :
  RGBA_wf i -> exists c, getRGBA i x y = Ok c.
Proof.
  intros Hwf. destruct (Point_In (mkPoint x y) (Rect i)) eqn:Hin.
  - eexists. apply getRGBA_inside; assumption.
  - eexists. apply getRGBA_outside; assumption.
Qed.

Lemma blend_success_keeps (Δ : float) (i : RGBA) (x y : Z) (c : pixel_ptr) :
  RGBA_wf i -> getRGBA i x y = Ok c -> keeps_channel chA i (blend_success Δ i c).
Proof.
  intros Hwf Hc. unfold blend_success.
  destruct (Point_In (mkPoint x y) (Rect i)) eqn:Hin.
  - rewrite getRGBA_inside in Hc by assumption. injection Hc as <-.
    destruct (blend_InPix_channel (Δ / 4) chR chA i x y Hwf Hin) as (i1 & -> & Hin1 & H1);
      [discriminate|].
    destruct (blend_InPix_channel (Δ / 4) chG chA i1 x y (proj1 (proj1 H1)) Hin1)
      as (i2 & -> & Hin2 & H2); [discriminate|].
    destruct (blend_InPix_channel Δ chB chA i2 x y (proj1 (proj1 H2)) Hin2)
      as (i3 & -> & Hin3 & H3); [discriminate|].
    simpl. eapply keeps_channel_trans; [|exact H3].
    eapply keeps_channel_trans; eassumption.
  - rewrite getRGBA_outside in Hc by assumption. injection Hc as <-.
    destruct (blend_Fresh (Δ / 4) chR i (mkColor 0 0 0 0)) as [c1 ->].
    destruct (blend_Fresh (Δ / 4) chG i c1) as [c2 ->].
    destruct (blend_Fresh Δ chB i c2) as [c3 ->].
    simpl. apply keeps_channel_refl. exact Hwf.
Qed.

Lemma blend_failure_keeps (Δ : float) (ch : channel) (i : RGBA) (x y : Z)
    (c : pixel_ptr) :
  RGBA_wf i -> getRGBA i x y = Ok c -> ch <> chR ->
  keeps_channel ch i (blend_failure Δ i c).
Proof.
  intros Hwf Hc Hne. unfold blend_failure.
  destruct (Point_In (mkPoint x y) (Rect i)) eqn:Hin.
  - rewrite getRGBA_inside in Hc by assumption. injection Hc as <-.
    destruct (blend_InPix_channel Δ chR ch i x y Hwf Hin Hne) as (i1 & -> & Hin1 & H1).
    simpl. exact H1.
  - rewrite getRGBA_outside in Hc by assumption. injection Hc as <-.
    destruct (blend_Fresh Δ chR i (mkColor 0 0 0 0)) as [c1 ->].
    simpl. apply keeps_channel_refl. exact Hwf.
Qed.

Lemma scatter_Record_keeps (Log2 : float -> float) (v : scatter) (e : EventDataPoint)
    (ch : channel) :
  RGBA_wf (scatter_vis v) -> unblended e ch ->
  exists v', scatter_Record Log2 v e = Ok v'
    /\ keeps_channel ch (scatter_vis v) (scatter_vis v').
Proof.
  intros Hwf Hch. unfold scatter_Record.
  destruct (scatter_point Log2 v e) as [x y].
  destruct (getRGBA_returns (scatter_vis v) x y Hwf) as [c Hc]. rewrite Hc. simpl.
  destruct (Z.eqb_spec (Status e) 0) as [Hs | Hs]; eexists; (split; [reflexivity|]); simpl.
  - destruct Hch as [-> | [Hne _]]; [|contradiction].
    eapply blend_success_keeps; eassumption.
  - eapply blend_failure_keeps; try eassumption.
    destruct Hch as [-> | [_ Hne]]; [discriminate | exact Hne].
Qed.

(** X6.  [scatter.Record] on a canvas as [image.NewRGBA] makes them never
    panics, whatever the event and the time range, and what it changes is
    small: the bounds and the other fields of the renderer are kept, no pixel
    but the one the event is plotted at changes, nothing changes when that
    lies outside the canvas, the alpha channel of every pixel is kept, and a
    failure keeps the green and blue channels as well. *)
Theorem scatter_Record_effect (Log2 : float -> float) (v : scatter)
    (e : EventDataPoint) :
  RGBA_wf (scatter_vis v) ->
  exists v', scatter_Record Log2 v e = Ok v'
    /\ v' = scatter_set_vis v (scatter_vis v')
    /\ RGBA_wf (scatter_vis v') /\ Rect (scatter_vis v') = Rect (scatter_vis v)
    /\ (forall x y, (x, y) <> scatter_point Log2 v e ->
          RGBAAt (scatter_vis v') x y = RGBAAt (scatter_vis v) x y)
    /\ (Point_In (mkPoint (fst (scatter_point Log2 v e)) (snd (scatter_point Log2 v e)))
          (Rect (scatter_vis v)) = false -> scatter_vis v' = scatter_vis v)
    /\ (forall x y, cA (RGBAAt (scatter_vis v') x y) = cA (RGBAAt (scatter_vis v) x y))
    /\ (Status e <> 0 -> forall x y,
          cG (RGBAAt (scatter_vis v') x y) = cG (RGBAAt (scatter_vis v) x y)
          /\ cB (RGBAAt (scatter_vis v') x y) = cB (RGBAAt (scatter_vis v) x y)).
Proof.
  intros Hwf.
  destruct (scatter_Record_keeps Log2 v e chA Hwf) as (v' & Hv' & [Hwf' HR'] & HA);
    [left; reflexivity|].
  exists v'. split; [exact Hv'|].
  pose proof (scatter_Record_touches Log2 v v' e Hwf Hv') as (_ & _ & _ & Hframe & Hout).
  split.
  { unfold scatter_Record in Hv'. destruct (scatter_point Log2 v e) as [x y].
    destruct (getRGBA _ _ _); simpl in Hv'; try discriminate.
    destruct (Status e =? 0); injection Hv' as <-; reflexivity. }
  split; [exact Hwf'|]. split; [exact HR'|]. split.
  { intros x y Hne. apply Hframe. destruct (scatter_point Log2 v e). exact Hne. }
  split; [exact Hout|]. split; [exact HA|].
  intros Hs x y.
  destruct (scatter_Record_keeps Log2 v e chG Hwf) as (v1 & Hv1 & _ & HG);
    [right; split; [exact Hs | discriminate]|].
  destruct (scatter_Record_keeps Log2 v e chB Hwf) as (v2 & Hv2 & _ & HB);
    [right; split; [exact Hs | discriminate]|].
  assert (v1 = v') by congruence. assert (v2 = v') by congruence. subst v1 v2.
  split; [apply HG | apply HB].
Qed.

Lemma scatter_Record_effect_witness :
  exists v v',
    NewScatter 65536 16 8 8 0 8 1 1 2 = Ok v
    /\ scatter_Record math_Log2 v (mkEvent 2 3 1) = Ok v'
    /\ cA (RGBAAt (scatter_vis v') 2 6) = cA (RGBAAt (scatter_vis v) 2 6).
Proof.
  destruct (NewScatter 65536 16 8 8 0 8 1 1 2) as [v| |] eqn:E;
    [| vm_compute in E; discriminate ..].
  assert (Hwf : RGBA_wf (scatter_vis v)).
  { destruct (NewScatter_canvas 65536 16 8 8 0 8 1 1 2 v E) as [[Hwf _] _]. exact Hwf. }
  destruct (scatter_Record_effect math_Log2 v (mkEvent 2 3 1) Hwf)
    as (v' & Hv' & _ & _ & _ & _ & _ & HA & _).
  exists v, v'. split; [reflexivity|]. split; [exact Hv' | apply HA].
Defined.

Lemma while_no_panic {S : Type} (I : S -> Prop) (cond : S -> bool)
    (body : S -> outcome S) :
  (forall s, I s -> cond s = true ->
     (exists s', body s = Ok s' /\ I s') \/ body s = OutOfFuel) ->
  forall n s, I s ->
    (exists r, while n cond body s = Ok r /\ I r) \/ while n cond body s = OutOfFuel.
Proof.
  intros Hstep n. induction n as [|n IH]; intros s Hs; simpl; [right; reflexivity|].
  destruct (cond s) eqn:Hc; [|left; exists s; split; [reflexivity | exact Hs]].
  destruct (Hstep s Hs Hc) as [(s' & -> & Hs') | ->]; simpl;
    [apply IH; exact Hs' | right; reflexivity].
Qed.

Section SweepKeeps.
Variable Log2 : float -> float.
Variable v : sweep.
Variable e : EventDataPoint.
Variable ch : channel.
Hypothesis Hch : unblended e ch.

Lemma sweep_paint_keeps (x : Z) (s : sweep_state * Z) :
  keeps_channel ch (sweep_vis v) (st_vis (fst s)) ->
  exists s', sweep_paint v e x s = Ok s'
    /\ keeps_channel ch (sweep_vis v) (st_vis (fst s')).
Proof.
  destruct s as [st y']. simpl. intros Hk. unfold sweep_paint.
  pose proof (proj1 (proj1 Hk)) as Hwf.
  destruct (Z.eqb_spec (Status e) 0) as [Hs | Hs].
  - destruct (getRGBA_returns (st_vis st) x y' Hwf) as [c Hc]. rewrite Hc. simpl.
    eexists. split; [reflexivity|]. simpl.
    eapply keeps_channel_trans; [exact Hk|].
    destruct Hch as [-> | [Hne _]]; [|contradiction].
    eapply blend_success_keeps; eassumption.
  - destruct (getRGBA_returns (st_vis st) x (int64 (sweep_h v - y')) Hwf) as [c Hc].
    rewrite Hc. simpl. eexists. split; [reflexivity|]. simpl.
    eapply keeps_channel_trans; [exact Hk|].
    eapply blend_failure_keeps; try eassumption.
    destruct Hch as [-> | [_ Hne]]; [discriminate | exact Hne].
Qed.

Lemma sweep_step_keeps (fuel : nat) (tMin : float) (s : sweep_state * float) :
  keeps_channel ch (sweep_vis v) (st_vis (fst s)) ->
  (exists s', sweep_step Log2 fuel v e tMin s = Ok s'
     /\ keeps_channel ch (sweep_vis v) (st_vis (fst s')))
  \/ sweep_step Log2 fuel v e tMin s = OutOfFuel.
Proof.
  destruct s as [st t]. simpl. intros Hk. unfold sweep_step.
  set (x := time_column _ _ _ _). set (yMin := sweep_yMin _ _ _ _).
  destruct (while_no_panic
              (fun s : sweep_state * Z => keeps_channel ch (sweep_vis v) (st_vis (fst s)))
              (fun s : sweep_state * Z => yMin <? snd s) (sweep_paint v e x))
    with (n := fuel) (s := (st, st_y st)) as [(r & -> & Hr) | ->].
  - intros s Hs _. left. apply sweep_paint_keeps. exact Hs.
  - exact Hk.
  - left. simpl. eexists. split; [reflexivity | exact Hr].
  - right. reflexivity.
Qed.

Lemma sweep_Record_keeps (fuel : nat) :
  RGBA_wf (sweep_vis v) ->
  (exists v', sweep_Record Log2 fuel v e = Ok v'
     /\ v' = sweep_set_vis v (sweep_vis v')
     /\ keeps_channel ch (sweep_vis v) (sweep_vis v'))
  \/ sweep_Record Log2 fuel v e = OutOfFuel.
Proof.
  intros Hwf. unfold sweep_Record, sweep_Record_traced.
  set (tMin := float64_of_int (Start e)).
  set (tMax := float64_of_int (int32 (Start e + Run e))).
  destruct (while_no_panic
              (fun s : sweep_state * float =>
                 keeps_channel ch (sweep_vis v) (st_vis (fst s)))
              (fun s : sweep_state * float => (snd s <=? tMax)%float)
              (sweep_step Log2 fuel v e tMin))
    with (n := fuel) (s := (mkSweepState (sweep_vis v) (int_div (sweep_h v) 2) [], tMin))
    as [(r & -> & Hr) | ->].
  - intros s Hs _. apply sweep_step_keeps. exact Hs.
  - apply keeps_channel_refl. exact Hwf.
  - left. simpl. eexists. split; [reflexivity|]. split; [reflexivity | exact Hr].
  - right. reflexivity.
Qed.
End SweepKeeps.

(** X7.  [sweep.Record] on a canvas as [image.NewRGBA] makes them never
    panics: with any fuel the call returns or is still running.  When it
    returns, the bounds of the canvas and the other fields of the renderer
    are kept, the alpha channel of every pixel is kept, and a failure keeps
    the green and blue channels as well. *)
Theorem sweep_Record_effect (Log2 : float -> float) (fuel : nat) (v : sweep)
    (e : EventDataPoint) :
  RGBA_wf (sweep_vis v) ->
  ((exists v', sweep_Record Log2 fuel v e = Ok v')
   \/ sweep_Record Log2 fuel v e = OutOfFuel)
  /\ forall v', sweep_Record Log2 fuel v e = Ok v' ->
       v' = sweep_set_vis v (sweep_vis v')
       /\ RGBA_wf (sweep_vis v') /\ Rect (sweep_vis v') = Rect (sweep_vis v)
       /\ (forall x y, cA (RGBAAt (sweep_vis v') x y) = cA (RGBAAt (sweep_vis v) x y))
       /\ (Status e <> 0 -> forall x y,
             cG (RGBAAt (sweep_vis v') x y) = cG (RGBAAt (sweep_vis v) x y)
             /\ cB (RGBAAt (sweep_vis v') x y) = cB (RGBAAt (sweep_vis v) x y)).
Proof.
  intros Hwf.
  assert (HchA : unblended e chA) by (left; reflexivity).
  pose proof (sweep_Record_keeps Log2 v e chA HchA fuel Hwf) as HkA.
  split.
  - destruct HkA as [(v' & Hv' & _) | Hout];
      [left; exists v'; exact Hv' | right; exact Hout].
  - intros v' Hv'.
    destruct HkA as [(v1 & Hv1 & Hset & [Hwf' HR'] & HA) | Hout];
      [|rewrite Hout in Hv'; discriminate].
    rewrite Hv1 in Hv'. injection Hv' as <-.
    split; [exact Hset|]. split; [exact Hwf'|]. split; [exact HR'|].
    split; [exact HA|].
    intros Hs x y.
    assert (HchG : unblended e chG) by (right; split; [exact Hs | discriminate]).
    assert (HchB : unblended e chB) by (right; split; [exact Hs | discriminate]).
    destruct (sweep_Record_keeps Log2 v e chG HchG fuel Hwf)
      as [(v2 & Hv2 & _ & _ & HG) | Hout]; [|rewrite Hout in Hv1; discriminate].
    destruct (sweep_Record_keeps Log2 v e chB HchB fuel Hwf)
      as [(v3 & Hv3 & _ & _ & HB) | Hout]; [|rewrite Hout in Hv1; discriminate].
    rewrite Hv1 in Hv2, Hv3. injection Hv2 as <-. injection Hv3 as <-.
    split; [apply HG | apply HB].
Qed.

Lemma sweep_Record_effect_witness :
  exists v v',
    NewSweep 65536 16 8 8 0 8 1 1 0 = Ok v
    /\ sweep_Record math_Log2 16 v (mkEvent 2 3 1) = Ok v'
    /\ cG (RGBAAt (sweep_vis v') 2 5) = cG (RGBAAt (sweep_vis v) 2 5).
Proof.
  destruct (NewSweep 65536 16 8 8 0 8 1 1 0) as [v| |] eqn:E;
    [| vm_compute in E; discriminate ..].
  destruct (sweep_Record math_Log2 16 v (mkEvent 2 3 1)) as [v'| |] eqn:E';
    [| vm_compute in E; injection E as <-; vm_compute in E'; discriminate ..].
  assert (Hwf : RGBA_wf (sweep_vis v)).
  { destruct (NewSweep_canvas 65536 16 8 8 0 8 1 1 0 v E) as [[Hwf _] _]. exact Hwf. }
  destruct (sweep_Record_effect math_Log2 16 v (mkEvent 2 3 1) Hwf) as [_ H].
  destruct (H v' E') as (_ & _ & _ & _ & HGB).
  exists v, v'. split; [reflexivity|]. split; [exact E'|].
  apply HGB. simpl. discriminate.
Defined.

Lemma scatter_renders_alpha (Log2 : float -> float) (es : list EventDataPoint)
    (v : scatter) (img : RGBA) :
  @renders scatter (scatter_Visualizer Log2) v es img ->
  RGBA_wf (scatter_vis v) -> keeps_channel chA (scatter_vis v) img.
Proof.
  induction 1 as [v | fuel v v' e es img Hrec Hr IH]; intros Hwf.
  - apply keeps_channel_refl. exact Hwf.
  - change (scatter_Record Log2 v e = Ok v') in Hrec.
    destruct (scatter_Record_keeps Log2 v e chA Hwf) as (v1 & Hv1 & Hk);
      [left; reflexivity|].
    rewrite Hv1 in Hrec. injection Hrec as ->.
    eapply keeps_channel_trans; [exact Hk|]. apply IH. apply Hk.
Qed.

Lemma sweep_renders_alpha (Log2 : float -> float) (es : list EventDataPoint)
    (v : sweep) (img : RGBA) :
  @renders sweep (sweep_Visualizer Log2) v es img ->
  RGBA_wf (sweep_vis v) -> keeps_channel chA (sweep_vis v) img.
Proof.
  induction 1 as [v | fuel v v' e es img Hrec Hr IH]; intros Hwf.
  - apply keeps_channel_refl. exact Hwf.
  - change (sweep_Record Log2 fuel v e = Ok v') in Hrec.
    destruct (sweep_Record_keeps Log2 v e chA (or_introl eq_refl) fuel Hwf)
      as [(v1 & Hv1 & _ & Hk) | Hout]; [|rewrite Hout in Hrec; discriminate].
    rewrite Hv1 in Hrec. injection Hrec as ->.
    eapply keeps_channel_trans; [exact Hk|]. apply IH. apply Hk.
Qed.

Lemma two_tone_opaque (r : Rectangle) (i : RGBA) (x y : Z) :
  two_tone r i -> Point_In (mkPoint x y) r = true -> cA (RGBAAt i x y) = opaque.
Proof.
  intros (_ & _ & Hpix) Hin. destruct (Hpix x y Hin) as [-> | ->]; reflexivity.
Qed.

(** X8.  The image a scatter or sweep run renders is as large as asked for
    and fully opaque.  Whatever the events and however many, the image has
    the bounds [image.Rect(0, 0, width, height)] given to the constructor,
    and the alpha channel of every pixel inside them is 255: no blend ever
    writes it. *)
Theorem rendered_image_opaque (Log2 : float -> float) (avail : Z) (fuel : nat)
    (width height minTime maxTime : Z) (yLog2 : float) (colorSteps xGrid : Z)
    (es : list EventDataPoint) (img : RGBA) :
  (forall v,
     NewScatter avail fuel width height minTime maxTime yLog2 colorSteps xGrid = Ok v ->
     @renders scatter (scatter_Visualizer Log2) v es img ->
     Rect img = image_Rect 0 0 width height
     /\ forall x y, Point_In (mkPoint x y) (image_Rect 0 0 width height) = true ->
          cA (RGBAAt img x y) = opaque)
  /\ (forall v,
     NewSweep avail fuel width height minTime maxTime yLog2 colorSteps xGrid = Ok v ->
     @renders sweep (sweep_Visualizer Log2) v es img ->
     Rect img = image_Rect 0 0 width height
     /\ forall x y, Point_In (mkPoint x y) (image_Rect 0 0 width height) = true ->
          cA (RGBAAt img x y) = opaque).
Proof.
  split; intros v Hv Hr.
  - destruct (NewScatter_canvas _ _ _ _ _ _ _ _ _ _ Hv) as [Ht _].
    destruct (scatter_renders_alpha Log2 es v img Hr (proj1 Ht)) as [[_ HR] HA].
    split; [rewrite HR; apply Ht|].
    intros x y Hin. change (cA (RGBAAt img x y)) with (get_channel (RGBAAt img x y) chA).
    rewrite HA. eapply two_tone_opaque; eassumption.
  - destruct (NewSweep_canvas _ _ _ _ _ _ _ _ _ _ Hv) as [Ht _].
    destruct (sweep_renders_alpha Log2 es v img Hr (proj1 Ht)) as [[_ HR] HA].
    split; [rewrite HR; apply Ht|].
    intros x y Hin. change (cA (RGBAAt img x y)) with (get_channel (RGBAAt img x y) chA).
    rewrite HA. eapply two_tone_opaque; eassumption.
Qed.

Lemma rendered_image_opaque_witness :
  exists v img,
    NewSweep 65536 16 8 8 0 8 1 1 0 = Ok v
    /\ @renders sweep (sweep_Visualizer math_Log2) v [mkEvent 0 4 0; mkEvent 2 3 1] img
    /\ cA (RGBAAt img 0 3) = opaque.
Proof.
  destruct (NewSweep 65536 16 8 8 0 8 1 1 0) as [v| |] eqn:E;
    [| vm_compute in E; discriminate ..].
  destruct (@run sweep (sweep_Visualizer math_Log2) 16 v [mkEvent 0 4 0; mkEvent 2 3 1])
    as [img| |] eqn:H;
    [| vm_compute in E; injection E as <-; vm_compute in H; discriminate ..].
  apply (@run_renders sweep (sweep_Visualizer math_Log2)) in H.
  exists v, img. split; [reflexivity|]. split; [exact H|].
  destruct (rendered_image_opaque math_Log2 65536 16 8 8 0 8 1 1 0
              [mkEvent 0 4 0; mkEvent 2 3 1] img) as [_ Hsweep].
  destruct (Hsweep v E H) as [_ HA]. apply HA. reflexivity.
Defined.

(** ** The shade of an error-stack layer *)

Lemma color_eqb_eq (c d : color_RGBA) : color_eqb c d = true -> c = d.
Proof.
  unfold color_eqb. intros H.
  apply andb_true_iff in H. destruct H as [H HA].
  apply andb_true_iff in H. destruct H as [H HB].
  apply andb_true_iff in H. destruct H as [HR HG].
  apply Z.eqb_eq in HR, HG, HB, HA. destruct c, d. simpl in *. congruence.
Qed.

Lemma stack_shades_agree_spec (n layers layer : Z) :
  stack_shades_agree n = true -> 0 < layers <= n -> 0 <= layer <= layers ->
  getErrorStackColor layer layers = stack_shade layer layers.
Proof.
  intros H Hlayers Hlayer. unfold stack_shades_agree in H.
  rewrite forallb_forall in H.
  assert (Hin : In layers (seqZ 1 n))
    by (apply list_elem_of_In, elem_of_seqZ; lia).
  specialize (H layers Hin). rewrite forallb_forall in H.
  apply color_eqb_eq, H, list_elem_of_In, elem_of_seqZ. lia.
Qed.

Lemma stack_shades_agree_255 : stack_shades_agree 255 = true.
Proof. vm_compute. reflexivity. Qed.

(** X9.  [getErrorStackColor] in integers.  For a stack of up to 255 layers
    and a layer from 0 to [layers], the floating-point computation and the
    conversions to [uint8] give exactly red [127 + 255*layer/(2*layers)] and
    green and blue [11 + 2*255*layer/(3*layers)] in integer division, with
    full alpha: red lies in 127..254 and green and blue in 11..181, no
    channel wraps around, and the top layer is (254, 181, 181). *)
Theorem getErrorStackColor_shade (layer layers : Z) :
  0 < layers <= 255 -> 0 <= layer <= layers ->
  getErrorStackColor layer layers = stack_shade layer layers
  /\ 127 <= cR (getErrorStackColor layer layers) <= 254
  /\ 11 <= cG (getErrorStackColor layer layers) <= 181
  /\ cB (getErrorStackColor layer layers) = cG (getErrorStackColor layer layers)
  /\ cA (getErrorStackColor layer layers) = opaque
  /\ getErrorStackColor layers layers = mkColor 254 181 181 opaque.
Proof.
  intros Hlayers Hlayer.
  assert (Hall : forall l, 0 <= l <= layers ->
                   getErrorStackColor l layers = stack_shade l layers).
  { intros l Hl.
    exact (stack_shades_agree_spec 255 layers l stack_shades_agree_255 Hlayers Hl). }
  rewrite (Hall layer) by lia. rewrite (Hall layers) by lia.
  unfold stack_shade. cbn [cR cG cB cA].
  split; [reflexivity|].
  assert (H1 : 0 <= 255 * layer / (2 * layers)) by (apply Z.div_pos; lia).
  assert (H2 : 255 * layer / (2 * layers) <= 127)
    by (apply Z.lt_succ_r, Z.div_lt_upper_bound; lia).
  assert (H3 : 0 <= 2 * 255 * layer / (3 * layers)) by (apply Z.div_pos; lia).
  assert (H4 : 2 * 255 * layer / (3 * layers) <= 170)
    by (apply Z.lt_succ_r, Z.div_lt_upper_bound; lia).
  assert (H5 : 255 * layers / (2 * layers) = 127)
    by (symmetry; apply Z.div_unique with (r := layers); lia).
  assert (H6 : 2 * 255 * layers / (3 * layers) = 170)
    by (symmetry; apply Z.div_unique with (r := 0); lia).
  rewrite H5, H6. clear H5 H6 Hall.
  revert H1 H2 H3 H4.
  generalize (255 * layer / (2 * layers)) (2 * 255 * layer / (3 * layers)).
  intros q1 q2 H1 H2 H3 H4.
  split; [lia|]. split; [lia|]. split; [reflexivity|]. split; reflexivity.
Qed.

Lemma getErrorStackColor_shade_witness :
  getErrorStackColor 2 4 = mkColor 190 96 96 opaque.
Proof.
  destruct (getErrorStackColor_shade 2 4) as [H _]; [lia | lia |].
  rewrite H. reflexivity.
Defined.

(** ** Counting in binary64 *)

Lemma digits2_pos_iter_xO (m d : positive) :
  Z.pos (digits2_pos (Pos.iter xO m d)) = Z.pos (digits2_pos m) + Z.pos d.
Proof.
  induction d as [|d IH] using Pos.peano_ind.
  - simpl. lia.
  - rewrite Pos.iter_succ. simpl digits2_pos. rewrite Pos2Z.inj_succ, IH. lia.
Qed.

Lemma binary_round_aux_exact (s : bool) (mz : positive) (ez : Z) :
  Z.pos (digits2_pos mz) = 53 -> -1074 <= ez <= 971 ->
  binary_round_aux prec emax s (Z.pos mz) ez loc_Exact = S754_finite s mz ez.
Proof.
  intros Hd He.
  assert (Hshr : shr_fexp prec emax (Z.pos mz) ez loc_Exact
                 = (Build_shr_record (Z.pos mz) false false, ez)).
  { unfold shr_fexp. change (Zdigits2 (Z.pos mz)) with (Z.pos (digits2_pos mz)).
    rewrite Hd, fexp_binary64.
    replace (Z.max (53 + ez - 53) (-1074) - ez) with 0 by lia. reflexivity. }
  unfold binary_round_aux. rewrite Hshr.
  cbn [shr_m loc_of_shr_record round_nearest_even]. rewrite Hshr. cbn [shr_m].
  replace (ez <=? emax - prec) with true; [reflexivity|].
  symmetry. apply Z.leb_le. change (emax - prec) with 971. lia.
Qed.

(** An integer of at most 53 bits is converted without rounding. *)
Lemma binary_round_exact (s : bool) (m : positive) :
  Z.pos (digits2_pos m) <= 53 ->
  exists mz ez, binary_round prec emax s m 0 = S754_finite s mz ez
    /\ -53 < ez <= 0 /\ Z.pos (digits2_pos mz) = 53
    /\ Z.pos mz = Z.pos m * 2 ^ (- ez).
Proof.
  intros Hd. unfold binary_round. rewrite fexp_binary64.
  assert (Hpos : 0 < Z.pos (digits2_pos m)) by lia.
  replace (Z.max (Z.pos (digits2_pos m) + 0 - 53) (-1074))
    with (Z.pos (digits2_pos m) - 53) by lia.
  unfold shl_align.
  destruct (Z.pos (digits2_pos m) - 53 - 0) as [|k|k] eqn:Hk; [| lia |].
  - exists m, 0. rewrite binary_round_aux_exact by lia.
    split; [reflexivity|]. split; [lia|]. split; [lia|]. simpl. lia.
  - exists (Pos.iter xO m k), (Z.pos (digits2_pos m) - 53).
    assert (Hdk : Z.pos (digits2_pos (Pos.iter xO m k)) = 53)
      by (rewrite digits2_pos_iter_xO; lia).
    rewrite binary_round_aux_exact by lia.
    split; [reflexivity|]. split; [lia|]. split; [exact Hdk|].
    rewrite iter_xO_pow2. f_equal. f_equal. lia.
Qed.

Lemma digits2_pos_le_53 (m : positive) : Z.pos m < 2 ^ 53 -> Z.pos (digits2_pos m) <= 53.
Proof.
  intros Hm. pose proof (digits2_pos_bounds m) as [Hlo _].
  destruct (Z.le_gt_cases (Z.pos (digits2_pos m)) 53) as [H | H]; [exact H|].
  assert (2 ^ 53 <= 2 ^ (Z.pos (digits2_pos m) - 1)) by (apply Z.pow_le_mono_r; lia).
  lia.
Qed.

Lemma Prim2SF_float64_of_int_exact (z : Z) :
  z <> 0 -> - 2 ^ 53 < z < 2 ^ 53 ->
  exists mz ez, Prim2SF (float64_of_int z) = S754_finite (z <? 0) mz ez
    /\ -53 < ez <= 0 /\ Z.pos (digits2_pos mz) = 53
    /\ Z.pos mz = Z.abs z * 2 ^ (- ez).
Proof.
  intros Hz Hr. unfold float64_of_int.
  assert (Hvalid : forall s mz ez, -53 < ez <= 0 -> Z.pos (digits2_pos mz) = 53 ->
                     valid_binary (S754_finite s mz ez) = true).
  { intros s mz ez He Hd. unfold valid_binary, bounded, canonical_mantissa.
    rewrite fexp_binary64, Hd. apply andb_true_iff. split.
    - apply Z.eqb_eq. lia.
    - apply Z.leb_le. change (emax - prec) with 971. lia. }
  destruct z as [|p|p]; [contradiction | |]; unfold binary_normalize.
  - destruct (binary_round_exact false p) as (mz & ez & -> & He & Hd & Hm);
      [apply digits2_pos_le_53; lia|].
    exists mz, ez. rewrite Prim2SF_SF2Prim by (apply Hvalid; assumption).
    repeat split; try assumption; lia.
  - destruct (binary_round_exact true p) as (mz & ez & -> & He & Hd & Hm);
      [apply digits2_pos_le_53; lia|].
    exists mz, ez. rewrite Prim2SF_SF2Prim by (apply Hvalid; assumption).
    repeat split; try assumption; lia.
Qed.

Lemma SFge_mono (c c' : Z) (x : spec_float) : c' <= c -> SFge c x -> SFge c' x.
Proof.
  intros Hle Hx. destruct x as [s|s| |s m e]; simpl in *; try assumption; [lia|].
  destruct Hx as (Hs & He & Hv). split; [exact Hs|]. split; [exact He|].
  assert (0 < 2 ^ 1074) by (apply pow2_pos; lia). nia.
Qed.

(** A value that is at least [c], for an integer [c] above [b], is not below
    or equal to [float64(b)]. *)
Lemma SFleb_above (c b : Z) (x : spec_float) :
  - 2 ^ 52 < b < 2 ^ 52 -> b < c -> SFge c x -> valid_binary x = true ->
  SFleb x (Prim2SF (float64_of_int b)) = false.
Proof.
  intros Hb Hbc Hx Hval.
  destruct (Z.eq_dec b 0) as [-> | Hb0].
  - rewrite Prim2SF_float64_of_int by lia. simpl binary_normalize.
    destruct x as [s|s| |s m e]; simpl in Hx; try contradiction; [lia | subst s; reflexivity |].
    destruct Hx as (-> & _). reflexivity.
  - destruct (Prim2SF_float64_of_int_exact b Hb0) as (mz & ez & -> & Hez & Hdz & Hmz); [lia|].
    destruct x as [s|s| |s m e]; simpl in Hx; try contradiction.
    + destruct (Z.ltb_spec b 0); [reflexivity | lia].
    + subst s. reflexivity.
    + destruct Hx as (-> & He & Hv).
      destruct (Z.ltb_spec b 0) as [Hneg | Hpos]; [reflexivity|].
      unfold SFleb, SFcompare.
      (* both are positive and canonical: exponents first, then mantissas *)
      assert (Hm53 : Z.pos m < 2 ^ 53).
      { unfold valid_binary, bounded, canonical_mantissa in Hval.
        apply andb_true_iff in Hval. destruct Hval as [Hcan _].
        apply Z.eqb_eq in Hcan. rewrite fexp_binary64 in Hcan.
        pose proof (digits2_pos_bounds m) as [_ Hhi].
        assert (2 ^ Z.pos (digits2_pos m) <= 2 ^ 53) by (apply Z.pow_le_mono_r; lia).
        lia. }
      assert (Hmz52 : 2 ^ 52 <= Z.pos mz).
      { pose proof (digits2_pos_bounds mz) as [Hlo _]. rewrite Hdz in Hlo. exact Hlo. }
      assert (Hyv : Z.pos mz * 2 ^ (ez + 1074) = b * 2 ^ 1074).
      { rewrite Hmz, Z.abs_eq by lia. rewrite <- Z.mul_assoc, <- pow2_split by lia.
        f_equal. f_equal. lia. }
      assert (P1074 : 0 < 2 ^ 1074) by (apply pow2_pos; lia).
      assert (Hgt : Z.pos mz * 2 ^ (ez + 1074) < Z.pos m * 2 ^ (e + 1074)) by nia.
      destruct (Z.compare_spec e ez) as [Heq | Hlt | Hgt'].
      * subst e. assert (0 < 2 ^ (ez + 1074)) by (apply pow2_pos; lia).
        assert (Z.pos mz < Z.pos m) by nia.
        change (Pos.compare_cont Eq m mz) with (Pos.compare m mz).
        replace (Pos.compare m mz) with Gt; [reflexivity|].
        symmetry. apply Pos.compare_gt_iff. lia.
      * exfalso.
        assert (Hsplit : 2 ^ (ez + 1074) = 2 ^ (ez - e) * 2 ^ (e + 1074)).
        { rewrite <- pow2_split by lia. f_equal. lia. }
        assert (H2 : 2 <= 2 ^ (ez - e)).
        { change 2 with (2 ^ 1) at 1. apply Z.pow_le_mono_r; lia. }
        assert (0 < 2 ^ (e + 1074)) by (apply pow2_pos; lia).
        rewrite Hsplit in Hgt.
        assert (2 ^ 53 = 2 * 2 ^ 52) by reflexivity.
        nia.
      * reflexivity.
Qed.

(** The sum of two values that are at least [c] and [d] is at least
    [c + d]. *)
Lemma SFadd_ge_sum (c d : Z) (x y : spec_float) :
  0 <= c -> 0 <= d -> c + d <= 2 ^ 52 -> SFge c x -> SFge d y ->
  SFge (c + d) (SFadd prec emax x y).
Proof.
  intros Hc Hd Hcd Hx Hy.
  assert (P1074 : 0 < 2 ^ 1074) by (apply pow2_pos; lia).
  destruct x as [sx|sx| |sx mx ex]; destruct y as [sy|sy| |sy my ey];
    simpl in Hx, Hy; try contradiction; subst; simpl.
  - destruct sx, sy; simpl; lia.
  - reflexivity.
  - destruct Hy as (-> & Hey & Hle). simpl. split; [reflexivity|]. split; [exact Hey|]. nia.
  - reflexivity.
  - reflexivity.
  - destruct Hy as (-> & _). reflexivity.
  - destruct Hx as (-> & Hex & Hle). simpl. split; [reflexivity|]. split; [exact Hex|]. nia.
  - reflexivity.
  - destruct Hx as (-> & Hex & Hlex). destruct Hy as (-> & Hey & Hley).
    pose proof (shl_align_scaled mx ex (Z.min ex ey) Hex ltac:(lia)) as (_ & Hsx & Hzx).
    pose proof (shl_align_scaled my ey (Z.min ex ey) Hey ltac:(lia)) as (_ & Hsy & Hzy).
    specialize (Hzx ltac:(lia)). specialize (Hzy ltac:(lia)).
    rewrite Hzx in Hsx. rewrite Hzy in Hsy. unfold binary_normalize. simpl cond_Zopp.
    change (Z.pos (fst (shl_align mx ex (Z.min ex ey)))
            + Z.pos (fst (shl_align my ey (Z.min ex ey))))
      with (Z.pos (fst (shl_align mx ex (Z.min ex ey))
                   + fst (shl_align my ey (Z.min ex ey)))).
    apply binary_round_ge; [lia | lia |].
    rewrite Pos2Z.inj_add. unfold scaled in *. nia.
Qed.

Lemma SFge_succ (c : Z) (t : float) :
  0 <= c < 2 ^ 52 -> SFge c (Prim2SF t) -> SFge (c + 1) (Prim2SF (t + 1)).
Proof.
  intros Hc Ht. rewrite FloatAxioms.add_spec.
  apply SFadd_ge_sum; [lia | lia | lia | exact Ht |].
  vm_compute. split; [reflexivity|]. split; discriminate.
Qed.

(** ** [sweep.Record] returns *)

(** A loop whose measure decreases returns within as many rounds. *)
Lemma while_terminates_within {S : Type} (I : S -> Prop) (measure : S -> Z)
    (cond : S -> bool) (body : S -> outcome S) :
  (forall s, I s -> cond s = true ->
     0 < measure s /\ exists s', body s = Ok s' /\ I s' /\ measure s' < measure s) ->
  forall k s, I s -> (0 < k)%nat -> measure s < Z.of_nat k ->
    exists r, while k cond body s = Ok r /\ I r.
Proof.
  intros Hstep k. induction k as [|k IH]; intros s Hs Hk Hm; [lia|].
  cbn [while]. destruct (cond s) eqn:Hc; [|exists s; split; [reflexivity | exact Hs]].
  destruct (Hstep s Hs Hc) as (Hpos & s' & Hb & Hs' & Hlt).
  rewrite Hb. cbn [mbind outcome_bind]. apply IH; [exact Hs' | lia | lia].
Qed.

Lemma sweep_paint_returns (v : sweep) (e : EventDataPoint) (x y' : Z)
    (st : sweep_state) :
  RGBA_wf (st_vis st) ->
  exists st', sweep_paint v e x (st, y') = Ok (st', int64 (y' - 1))
    /\ RGBA_wf (st_vis st') /\ st_y st' = y'.
Proof.
  intros Hwf. unfold sweep_paint. destruct (Status e =? 0).
  - destruct (getRGBA_returns (st_vis st) x y' Hwf) as [c Hc]. rewrite Hc.
    cbn [mbind outcome_bind]. eexists. split; [reflexivity|]. cbn [st_vis st_y].
    split; [|reflexivity]. eapply blend_success_touches; eassumption.
  - destruct (getRGBA_returns (st_vis st) x (int64 (sweep_h v - y')) Hwf) as [c Hc].
    rewrite Hc. cbn [mbind outcome_bind]. eexists. split; [reflexivity|].
    cbn [st_vis st_y]. split; [|reflexivity]. eapply blend_failure_touches; eassumption.
Qed.

(** The loop over [yʹ] counts down from a row to [yMin]: it returns within
    [2^64] rounds. *)
Lemma sweep_paint_loop_returns (v : sweep) (e : EventDataPoint) (x yMin : Z)
    (F : nat) (st : sweep_state) :
  RGBA_wf (st_vis st) -> st_y st <= max_int64 -> min_int64 <= yMin ->
  2 ^ 64 <= Z.of_nat F ->
  exists r, while F (fun s : sweep_state * Z => yMin <? snd s) (sweep_paint v e x)
              (st, st_y st) = Ok r
    /\ RGBA_wf (st_vis (fst r)) /\ st_y (fst r) <= max_int64.
Proof.
  intros Hwf Hy HyMin HF.
  destruct (while_terminates_within
              (fun s : sweep_state * Z =>
                 RGBA_wf (st_vis (fst s)) /\ st_y (fst s) <= max_int64
                 /\ snd s <= max_int64)
              (fun s => snd s - yMin)
              (fun s : sweep_state * Z => yMin <? snd s) (sweep_paint v e x))
    with (k := F) (s := (st, st_y st)) as (r & Hr & Hwf' & Hy' & _).
  - intros [st1 y1] (Hwf1 & Hy1 & Hs1) Hc. cbn [fst snd] in *.
    apply Z.ltb_lt in Hc. split; [lia|].
    destruct (sweep_paint_returns v e x y1 st1 Hwf1) as (st2 & Hp & Hwf2 & Hy2).
    exists (st2, int64 (y1 - 1)). split; [exact Hp|]. cbn [fst snd].
    rewrite int64_id by (unfold min_int64, max_int64 in *; lia).
    split; [|lia]. split; [exact Hwf2|]. split; [rewrite Hy2; exact Hs1 | lia].
  - cbn [fst snd]. split; [exact Hwf|]. split; assumption.
  - lia.
  - cbn [snd]. unfold min_int64, max_int64 in *. lia.
  - exists r. split; [exact Hr|]. split; assumption.
Qed.

(** The loop over [t], from a time that is at least the integer [c], ends
    within [b + 1 - c] rounds: [t + 1] is at least [c + 1]. *)
Lemma sweep_time_loop_returns (Log2 : float -> float) (v : sweep)
    (e : EventDataPoint) (tMin : float) (b : Z) (F : nat) :
  - 2 ^ 31 <= b < 2 ^ 31 -> 2 ^ 64 <= Z.of_nat F ->
  forall (k : nat) (c : Z) (st : sweep_state) (t : float),
    RGBA_wf (st_vis st) -> st_y st <= max_int64 ->
    0 <= c -> SFge c (Prim2SF t) ->
    (0 < k)%nat -> b + 1 - c < Z.of_nat k ->
    exists r,
      while k (fun s : sweep_state * float => (snd s <=? float64_of_int b)%float)
        (sweep_step Log2 F v e tMin) (st, t) = Ok r
      /\ RGBA_wf (st_vis (fst r)).
Proof.
  intros Hb HF k. induction k as [|k IH]; intros c st t Hwf Hy Hc Ht Hk Hm; [lia|].
  cbn [while]. cbn [snd].
  destruct (t <=? float64_of_int b)%float eqn:Hle;
    [|exists (st, t); split; [reflexivity | exact Hwf]].
  assert (Hcb : c <= b).
  { destruct (Z.le_gt_cases c b) as [H | H]; [exact H|].
    rewrite FloatAxioms.leb_spec in Hle.
    rewrite (SFleb_above c b (Prim2SF t)) in Hle;
      [discriminate | lia | lia | exact Ht | apply Prim2SF_valid]. }
  destruct (sweep_paint_loop_returns v e
              (time_column (sweep_w v) (sweep_tA v) (sweep_tΩ v) t)
              (sweep_yMin Log2 v tMin t) F st Hwf Hy)
    as (r1 & Hr1 & Hwf1 & Hy1); [apply int64_range | exact HF |].
  assert (Hstep : sweep_step Log2 F v e tMin (st, t) = Ok (fst r1, (t + 1)%float))
    by (unfold sweep_step; rewrite Hr1; reflexivity).
  rewrite Hstep. cbn [mbind outcome_bind].
  apply (IH (c + 1)); [exact Hwf1 | exact Hy1 | lia | apply SFge_succ; [lia | exact Ht] | lia | lia].
Qed.

(** X10.  [sweep.Record] returns.  On a well-formed canvas and for an event
    that starts at a time that is not negative (a Unix time), both loops come
    to an end, whatever the run time, the time range and the scale: every
    round of the outer loop takes [t] at least one further, past
    [float64(e.Start + e.Run)] in the end, and [yʹ] counts down to [yMin]. *)
Theorem sweep_Record_terminates (Log2 : float -> float) (v : sweep)
    (e : EventDataPoint) :
  RGBA_wf (sweep_vis v) -> 0 <= Start e < 2 ^ 31 ->
  exists fuel v', sweep_Record Log2 fuel v e = Ok v'.
Proof.
  intros Hwf Hs.
  set (F := Z.to_nat (2 ^ 64)).
  assert (HF : 2 ^ 64 <= Z.of_nat F) by (unfold F; rewrite Z2Nat.id; lia).
  assert (HF0 : (0 < F)%nat) by lia.
  exists F. unfold sweep_Record, sweep_Record_traced.
  pose proof (wrap_range 32 (Start e + Run e) ltac:(lia)) as Hb.
  change (wrap 32 (Start e + Run e)) with (int32 (Start e + Run e)) in Hb.
  change (32 - 1) with 31 in Hb.
  destruct (sweep_time_loop_returns Log2 v e (float64_of_int (Start e))
              (int32 (Start e + Run e)) F Hb HF F (Start e)
              (mkSweepState (sweep_vis v) (int_div (sweep_h v) 2) [])
              (float64_of_int (Start e)))
    as (r & Hr & _).
  - exact Hwf.
  - cbn [st_y]. unfold int_div. apply int64_range.
  - lia.
  - apply SFge_float64_of_int. lia.
  - exact HF0.
  - lia.
  - rewrite Hr. cbn [mbind outcome_bind]. eexists. reflexivity.
Qed.

Lemma sweep_Record_terminates_witness :
  exists v fuel v',
    NewSweep 65536 16 8 8 0 8 1 1 0 = Ok v
    /\ sweep_Record math_Log2 fuel v (mkEvent 2 3 1) = Ok v'.
Proof.
  destruct (NewSweep 65536 16 8 8 0 8 1 1 0) as [v| |] eqn:E;
    [| vm_compute in E; discriminate ..].
  destruct (NewSweep_canvas 65536 16 8 8 0 8 1 1 0 v E) as [(Hwf & _ & _) _].
  destruct (sweep_Record_terminates math_Log2 v (mkEvent 2 3 1) Hwf) as (fuel & v' & H).
  - simpl. lia.
  - exists v, fuel, v'. split; [reflexivity | exact H].
Defined.
